(** * ComicFusion admin console: a shallow embedding of its client logic

    The development follows the three client components of the repository:
    - [Home] (the page component: session restore, login, logout, category
      fetch),
    - [ImageManager] (before/after pairing, listing, upload, delete),
    - [AudioManager] (audio catalog, listing, upload, delete).

    Part I translates the code; Part II states and proves its properties.

    JavaScript strings are [string].  The numbers of the code are the
    ordinals it reads off file names with [parseInt]; they are integers in
    [Z].  The platform keeps a number as an IEEE double, so it has the
    integer itself up to [Js.MAX_SAFE_INTEGER] (2^53 - 1) and a rounded
    value beyond, and it prints the number in decimal notation up to that
    bound.  The embedding follows the platform on the ordinals up to the
    bound and not beyond it: a statement that holds of the code only for
    such ordinals assumes that the ordinals of the listing are within the
    bound ([SafeNumbers], [SafeAudioNumbers]).  An array of rows is built
    for a length up to [Js.MAX_ARRAY_LENGTH] (2^32 - 1); beyond, the
    platform throws, and so does the embedding.  A [Map] and a [Set] keep
    their insertion order, as the platform's do.  A handler is a program that talks to the
    backend and to the operator and updates the state of the page; what
    the platform provides ([JSON.parse], [JSON.stringify], [btoa], the
    build-time base URL) is a parameter of the handlers. *)

From Stdlib Require Import ZArith Ascii String DecimalString DecimalZ DecimalPos Lia.
From stdpp Require Import base tactics option list sorting strings gmap.

Open Scope Z_scope.

(* ================================================================== *)
(** * Part I: definitions                                              *)
(* ================================================================== *)

(** ** Platform values: strings, regular expressions, numbers *)

Module Js.

(** [\d] of a regular expression without the [v] flag: the ten ASCII
    digits and nothing else. *)
Definition is_digit (c : ascii) : bool :=
  let n := N_of_ascii c in ((48 <=? n) && (n <=? 57))%N.

Definition is_dot (c : ascii) : bool := (N_of_ascii c =? 46)%N.

Fixpoint all_digits (s : string) : bool :=
  match s with
  | EmptyString => true
  | String c s' => is_digit c && all_digits s'
  end.

(** The longest run of digits at the head of [s], and what follows it. *)
Fixpoint take_digits (s : string) : string * string :=
  match s with
  | EmptyString => (EmptyString, EmptyString)
  | String c s' =>
      if is_digit c
      then let '(ds, rest) := take_digits s' in (String c ds, rest)
      else (EmptyString, s)
  end.

(** One attempt of the pattern [(\d+)\.] at the head of [s]; the result
    is capture group 1.  The greedy [\d+] takes the whole run; giving
    digits back cannot help, since what follows a shorter run is a digit
    and not a dot. *)
Definition match_here (s : string) : option string :=
  match take_digits s with
  | (String c ds, String d _) =>
      if is_dot d then Some (String c ds) else None
  | _ => None
  end.

(** [s.match(/^(\d+)\./)]: the attempt at index 0 only. *)
Definition match_anchored (s : string) : option string := match_here s.

(** [s.match(/(\d+)\./)]: the attempt is made at index 0, 1, 2, ... and
    the first index that succeeds gives the match. *)
Fixpoint match_unanchored (s : string) : option string :=
  match match_here s with
  | Some g => Some g
  | None =>
      match s with
      | EmptyString => None
      | String _ s' => match_unanchored s'
      end
  end.

Definition digit_value (c : ascii) : Z := Z.of_N (N_of_ascii c) - 48.

Fixpoint parse_digits (acc : Z) (s : string) : Z :=
  match s with
  | EmptyString => acc
  | String c s' => parse_digits (10 * acc + digit_value c) s'
  end.

(** [Number.MAX_SAFE_INTEGER]: up to it a double holds every integer
    exactly. *)
Definition MAX_SAFE_INTEGER : Z := 2 ^ 53 - 1.

(** The largest length of an array, 2^32 - 1. *)
Definition MAX_ARRAY_LENGTH : Z := 2 ^ 32 - 1.

(** [parseInt(ds, 10)] and [parseInt(ds)] on a capture of [\d+]: with
    or without the radix the digits are read in base ten.  This is the
    integer the digits denote; it is the number the platform returns when
    it is at most [MAX_SAFE_INTEGER] (beyond, the platform returns the
    nearest double). *)
Definition parseInt (ds : string) : Z := parse_digits 0 ds.

(** [`${num}`] for an integer: its decimal notation, which is what the
    platform prints for a number up to [MAX_SAFE_INTEGER] (and not for
    every number beyond: from 10^21 it prints an exponent). *)
Definition Number_toString (n : Z) : string :=
  NilZero.string_of_int (Z.to_int n).

(** [Math.max(...xs, 0)]. *)
Definition Math_max0 (xs : list Z) : Z := foldr Z.max 0 xs.

(** [Array.from({ length: n }, (_, i) => i + 1)]: the numbers 1 to [n],
    and [None] where the platform throws a [RangeError] instead, which it
    does for a length above [MAX_ARRAY_LENGTH]. *)
Definition Array_from_1 (n : Z) : option (list Z) :=
  if decide (n <= MAX_ARRAY_LENGTH)
  then Some ((fun i : nat => Z.of_nat i + 1) <$> seq 0 (Z.to_nat n))
  else None.

(** [xs.sort(cmp)].  The platform's sort is stable, and for a comparator
    that is a consistent ordering its result is the one stable sorted
    arrangement; insertion from the right computes it. *)
Section Sort.
Context {A : Type} (cmp : A -> A -> Z).

Fixpoint insert_sorted (x : A) (l : list A) : list A :=
  match l with
  | [] => [x]
  | y :: l' =>
      if decide (cmp x y <= 0) then x :: y :: l'
      else y :: insert_sorted x l'
  end.

Definition Array_sort (l : list A) : list A := foldr insert_sorted [] l.
End Sort.

(** A [Map] with number keys, in insertion order. *)
Definition Map (V : Type) : Type := list (Z * V).

Fixpoint Map_set {V} (k : Z) (v : V) (m : Map V) : Map V :=
  match m with
  | [] => [(k, v)]
  | (k', v') :: m' =>
      if decide (k' = k) then (k, v) :: m' else (k', v') :: Map_set k v m'
  end.

Fixpoint Map_get {V} (k : Z) (m : Map V) : option V :=
  match m with
  | [] => None
  | (k', v') :: m' => if decide (k' = k) then Some v' else Map_get k m'
  end.

Definition Map_keys {V} (m : Map V) : list Z := m.*1.

(** [new Set(xs)] followed by [Array.from]: first occurrences, in order. *)
Definition Set_add (s : list Z) (x : Z) : list Z :=
  if decide (x ∈ s) then s else s ++ [x].

Definition Set_from (xs : list Z) : list Z := foldl Set_add [] xs.

End Js.

(** ** Assets *)

Inductive ImageType := before_t | after_t.

Global Instance ImageType_eq_dec : EqDecision ImageType.
Proof. solve_decision. Defined.

Module S3Image.
Record t := mk {
  url : string;
  filename : string;
  size : Z;
  lastModified : string;
  key : string;
  category : string;
  subcategory : option string;
  type : ImageType
}.
End S3Image.

Module ImagePair.
Record t := mk {
  filename : string;
  before : option S3Image.t;
  after : option S3Image.t
}.
End ImagePair.

Inductive SpeakerMode := single_speaker | multi_speaker.
Inductive Language := english | hindi.

Global Instance SpeakerMode_eq_dec : EqDecision SpeakerMode.
Proof. solve_decision. Defined.
Global Instance Language_eq_dec : EqDecision Language.
Proof. solve_decision. Defined.

Module AudioFile.
Record t := mk {
  key : string;
  url : string;
  size : Z;
  last_modified : string;
  speaker_mode : SpeakerMode;
  language : Language;
  filename : string
}.
End AudioFile.

Module AudioCategory.
Record t := mk {
  speaker : SpeakerMode;
  language : Language;
  label : string
}.
End AudioCategory.

(** ** Values that cross the platform boundary *)

Module Category.
Record t := mk { id : string; name : string; description : string }.
End Category.

(** A file picked or dropped by the operator. *)
Module File.
Record t := mk { name : string; content : string }.
End File.

(** A JavaScript value as [JSON.parse] can give it, and [undefined].  A
    number is kept by the text [String(n)] gives for it. *)
#[warnings="-register-all"]
Inductive JsValue :=
| JUndefined
| JNull
| JBool (b : bool)
| JNumber (text : string)
| JString (s : string)
| JArray (items : list JsValue)
| JObject (fields : list (string * JsValue)).

(** What a [throw] carries, as far as the code tells them apart (it does
    not: every [catch] handles all of them alike). *)
Inductive Exn :=
| TypeError | SyntaxError | RangeError | InvalidCharacterError | FetchFailed.

Inductive Result (A : Type) : Type :=
| Ok (a : A)
| Thrown (e : Exn).
Arguments Ok {A} a.
Arguments Thrown {A} e.

Global Instance Result_ret : MRet Result := fun A a => Ok a.
Global Instance Result_bind : MBind Result := fun A B f r =>
  match r with Ok a => f a | Thrown e => Thrown e end.

(** [try { body } catch (e) { handler }] for a computation without effects. *)
Definition catch {A} (body : Result A) (handler : Exn -> Result A) : Result A :=
  match body with Ok a => Ok a | Thrown e => handler e end.

Module JsValue.

(** [`${v}`]. *)
Fixpoint ToString (v : JsValue) : string :=
  match v with
  | JUndefined => "undefined"
  | JNull => "null"
  | JBool true => "true"
  | JBool false => "false"
  | JNumber text => text
  | JString s => s
  | JArray items =>
      (fix join (l : list JsValue) : string :=
         let element x :=
           match x with JUndefined | JNull => EmptyString | _ => ToString x end in
         match l with
         | [] => EmptyString
         | [x] => element x
         | x :: l' => element x +:+ "," +:+ join l'
         end) items
  | JObject _ => "[object Object]"
  end.

Fixpoint lookup_field (k : string) (fields : list (string * JsValue)) : JsValue :=
  match fields with
  | [] => JUndefined
  | (k', v) :: fields' => if decide (k' = k) then v else lookup_field k fields'
  end.

(** [v.k] and [const { k } = v], for the property names the code reads
    (username, password, detail): a [TypeError] on [null] and
    [undefined], the field of an object, [undefined] on the rest. *)
Definition get (v : JsValue) (k : string) : Result JsValue :=
  match v with
  | JUndefined | JNull => Thrown TypeError
  | JObject fields => Ok (lookup_field k fields)
  | _ => Ok JUndefined
  end.

(** [!!v]. *)
Definition truthy (v : JsValue) : bool :=
  match v with
  | JUndefined | JNull => false
  | JBool b => b
  | JNumber text => bool_decide (text <> "0")
  | JString s => bool_decide (s <> EmptyString)
  | JArray _ | JObject _ => true
  end.

(** The object literal [{ username, password }]. *)
Definition creds (username password : string) : JsValue :=
  JObject [("username", JString username); ("password", JString password)].

End JsValue.

(** What the code takes from its platform and its build: the JSON codec,
    Base64 ([btoa] throws on a character above U+00FF), and the value of
    [process.env.NEXT_PUBLIC_API_URL]. *)
Class Platform := {
  JSON_parse : string -> option JsValue;
  JSON_stringify : JsValue -> string;
  btoa : string -> option string;
  NEXT_PUBLIC_API_URL : option string
}.

Definition parse `{Platform} (text : string) : Result JsValue :=
  match JSON_parse text with Some v => Ok v | None => Thrown SyntaxError end.

Definition base64 `{Platform} (text : string) : Result string :=
  match btoa text with Some b => Ok b | None => Thrown InvalidCharacterError end.

(** [process.env.NEXT_PUBLIC_API_URL || 'http://localhost:8000']. *)
Definition DEFAULT_API_URL : string := "http://localhost:8000".

Definition apiUrl `{Platform} : string :=
  match NEXT_PUBLIC_API_URL with
  | Some u => if decide (u = EmptyString) then DEFAULT_API_URL else u
  | None => DEFAULT_API_URL
  end.

(** ** Requests and responses *)

Inductive Method := GET | POST | DELETE.

Inductive FormValue := FormText (s : string) | FormFile (f : File.t).

Module Request.
Record t := mk {
  method : Method;
  url : string;
  headers : gmap string string;
  body : option (list (string * FormValue))
}.
End Request.

(** The body of a response as the code reads it after [response.json()]:
    the call rejects, or gives [null], or gives a value of which the code
    reads the properties below.  A list property is taken at the type its
    annotation states, or is missing ([None]); [detail] is any value,
    [undefined] when missing. *)
Module Data.
Record t := mk {
  categories : option (list Category.t);
  images : option (list S3Image.t);
  audios : option (list AudioFile.t);
  detail : JsValue
}.
End Data.

Inductive Body := NotJson | JsonNull | Json (data : Data.t).

Module Response.
Record t := mk { status : Z; body : Body }.

(** [response.ok]: the status is in the range 200-299. *)
Definition ok (r : t) : bool := (200 <=? status r) && (status r <=? 299).

(** [await response.json()]. *)
Definition json (r : t) : Result Body :=
  match body r with NotJson => Thrown SyntaxError | b => Ok b end.
End Response.

(** [await fetch(...)] rejects (no connection) or gives a response. *)
Inductive Reply := Rejected | Replied (r : Response.t).

(** ** The state of the page *)

Module HomeState.
Record t := mk {
  categories : list Category.t;
  selectedCategory : string;
  loading : bool;
  isAuthenticated : bool;
  authError : string;
  credentials : JsValue
}.
End HomeState.

Module ImageState.
Record t := mk {
  images : list S3Image.t;
  loading : bool;
  uploading : bool;
  cacheKey : Z;
  selectedSubcategory : option string
}.
End ImageState.

(** [audios] is [None] once [setAudios] was given something that is not
    an array. *)
Module AudioState.
Record t := mk {
  audios : option (list AudioFile.t);
  loading : bool;
  uploading : bool
}.
End AudioState.

Module World.
Record t := mk {
  sessionStorage : gmap string string;
  home : HomeState.t;
  imageManager : ImageState.t;
  audioManager : AudioState.t
}.
End World.

(** ** Handlers as programs

    A handler talks to its surroundings (the backend, the operator's
    dialogs, the console, the clock) and updates the state of the page.
    [Act] is the talk; [M] adds the state and what may be thrown.  A
    handler runs from start to end without another one in between. *)

Inductive Act (A : Type) : Type :=
| Ret (a : A)
| Fetch (req : Request.t) (k : Reply -> Act A)
| Alert (msg : string) (k : Act A)
| Confirm (msg : string) (k : bool -> Act A)
| Console (msg : string) (k : Act A)
| DateNow (k : Z -> Act A).
Arguments Ret {A} a.
Arguments Fetch {A} req k.
Arguments Alert {A} msg k.
Arguments Confirm {A} msg k.
Arguments Console {A} msg k.
Arguments DateNow {A} k.

Fixpoint act_bind {A B} (p : Act A) (f : A -> Act B) : Act B :=
  match p with
  | Ret a => f a
  | Fetch req k => Fetch req (fun r => act_bind (k r) f)
  | Alert msg k => Alert msg (act_bind k f)
  | Confirm msg k => Confirm msg (fun b => act_bind (k b) f)
  | Console msg k => Console msg (act_bind k f)
  | DateNow k => DateNow (fun z => act_bind (k z) f)
  end.

Definition M (A : Type) : Type := World.t -> Act (World.t * Result A).

Module M.
Definition ret {A} (a : A) : M A := fun w => Ret (w, Ok a).
Definition throw {A} (e : Exn) : M A := fun w => Ret (w, Thrown e).
Definition bind {A B} (m : M A) (f : A -> M B) : M B := fun w =>
  act_bind (m w) (fun wr =>
    match snd wr with
    | Ok a => f a (fst wr)
    | Thrown e => Ret (fst wr, Thrown e)
    end).
Definition lift {A} (r : Result A) : M A := fun w => Ret (w, r).
Definition get : M World.t := fun w => Ret (w, Ok w).
Definition modify (f : World.t -> World.t) : M unit := fun w => Ret (f w, Ok tt).

(** [try { body } catch (e) { handler }]. *)
Definition try_catch {A} (body : M A) (handler : Exn -> M A) : M A := fun w =>
  act_bind (body w) (fun wr =>
    match snd wr with
    | Ok a => Ret (fst wr, Ok a)
    | Thrown e => handler e (fst wr)
    end).

(** [try { body } finally { after }]. *)
Definition try_finally {A} (body : M A) (after : M unit) : M A := fun w =>
  act_bind (body w) (fun wr =>
    act_bind (after (fst wr)) (fun wr' =>
      match snd wr' with
      | Ok _ => Ret (fst wr', snd wr)
      | Thrown e => Ret (fst wr', Thrown e)
      end)).

Definition fetch (req : Request.t) : M Response.t := fun w =>
  Fetch req (fun reply =>
    match reply with
    | Replied r => Ret (w, Ok r)
    | Rejected => Ret (w, Thrown FetchFailed)
    end).
Definition alert (msg : string) : M unit := fun w => Alert msg (Ret (w, Ok tt)).
Definition confirm (msg : string) : M bool := fun w => Confirm msg (fun b => Ret (w, Ok b)).
Definition console (msg : string) : M unit := fun w => Console msg (Ret (w, Ok tt)).
Definition now : M Z := fun w => DateNow (fun z => Ret (w, Ok z)).
End M.

Declare Scope js_scope.
Delimit Scope js_scope with js.
Notation "'let*' x ':=' m 'in' k" := (M.bind m (fun x => k))
  (at level 10, x name, m at level 100, k at level 200) : js_scope.
Notation "m ';;' k" := (M.bind m (fun _ => k))
  (at level 100, k at level 200, right associativity) : js_scope.

(** ** Running a handler

    The surroundings answer each question from what has happened so far;
    the run records every exchange in order. *)

Inductive Event :=
| Fetched (req : Request.t) (reply : Reply)
| Alerted (msg : string)
| Confirmed (msg : string) (answer : bool)
| Logged (msg : string)
| Clock (z : Z).

Module Env.
Record t := mk {
  reply : list Event -> Request.t -> Reply;
  answer : list Event -> string -> bool;
  clock : list Event -> Z
}.
End Env.

Fixpoint run {A} (env : Env.t) (past : list Event) (p : Act A) : list Event * A :=
  match p with
  | Ret a => (past, a)
  | Fetch req k =>
      let r := Env.reply env past req in run env (past ++ [Fetched req r]) (k r)
  | Alert msg k => run env (past ++ [Alerted msg]) k
  | Confirm msg k =>
      let b := Env.answer env past msg in run env (past ++ [Confirmed msg b]) (k b)
  | Console msg k => run env (past ++ [Logged msg]) k
  | DateNow k =>
      let z := Env.clock env past in run env (past ++ [Clock z]) (k z)
  end.

(** The trace, the final state and the outcome of a handler started in
    [w] with nothing behind it. *)
Definition exec {A} (env : Env.t) (m : M A) (w : World.t) : list Event * (World.t * Result A) :=
  run env [] (m w).

Definition trace {A} (env : Env.t) (m : M A) (w : World.t) : list Event := (exec env m w).1.
Definition final {A} (env : Env.t) (m : M A) (w : World.t) : World.t := (exec env m w).2.1.
Definition outcome {A} (env : Env.t) (m : M A) (w : World.t) : Result A := (exec env m w).2.2.

(** How a run goes on after a part of it, for each way of composing
    handlers. *)
Definition then_bind {A B} (env : Env.t) (f : A -> M B)
    (r : list Event * (World.t * Result A)) : list Event * (World.t * Result B) :=
  match r.2.2 with
  | Ok a => run env r.1 (f a r.2.1)
  | Thrown e => (r.1, (r.2.1, Thrown e))
  end.

Definition then_catch {A} (env : Env.t) (handler : Exn -> M A)
    (r : list Event * (World.t * Result A)) : list Event * (World.t * Result A) :=
  match r.2.2 with
  | Ok a => r
  | Thrown e => run env r.1 (handler e r.2.1)
  end.

Definition then_finally {A} (env : Env.t) (after : M unit)
    (r : list Event * (World.t * Result A)) : list Event * (World.t * Result A) :=
  let a := run env r.1 (after r.2.1) in
  (a.1, (a.2.1, match a.2.2 with Ok _ => r.2.2 | Thrown e => Thrown e end)).

(** The requests of a trace, in order. *)
Definition requests (tr : list Event) : list Request.t :=
  omap (fun e => match e with Fetched req _ => Some req | _ => None end) tr.

(** The messages shown to the operator by [alert], in order. *)
Definition alerts (tr : list Event) : list string :=
  omap (fun e => match e with Alerted msg => Some msg | _ => None end) tr.

(** ** Session storage *)

Module SessionStorage.
Definition getItem (k : string) : M (option string) := fun w =>
  Ret (w, Ok (World.sessionStorage w !! k)).
Definition setItem (k v : string) : M unit :=
  M.modify (fun w => World.mk (<[k := v]> (World.sessionStorage w))
                              (World.home w) (World.imageManager w)
                              (World.audioManager w)).
Definition removeItem (k : string) : M unit :=
  M.modify (fun w => World.mk (delete k (World.sessionStorage w))
                              (World.home w) (World.imageManager w)
                              (World.audioManager w)).
End SessionStorage.

(** ** Home: the page, with the credential gate *)

Module Home.
Local Open Scope js_scope.

Definition update (f : HomeState.t -> HomeState.t) : M unit :=
  M.modify (fun w => World.mk (World.sessionStorage w) (f (World.home w))
                              (World.imageManager w) (World.audioManager w)).

Definition setCategories (v : list Category.t) : M unit :=
  update (fun h => HomeState.mk v (HomeState.selectedCategory h)
    (HomeState.loading h) (HomeState.isAuthenticated h)
    (HomeState.authError h) (HomeState.credentials h)).
Definition setSelectedCategory (v : string) : M unit :=
  update (fun h => HomeState.mk (HomeState.categories h) v
    (HomeState.loading h) (HomeState.isAuthenticated h)
    (HomeState.authError h) (HomeState.credentials h)).
Definition setLoading (v : bool) : M unit :=
  update (fun h => HomeState.mk (HomeState.categories h)
    (HomeState.selectedCategory h) v (HomeState.isAuthenticated h)
    (HomeState.authError h) (HomeState.credentials h)).
Definition setIsAuthenticated (v : bool) : M unit :=
  update (fun h => HomeState.mk (HomeState.categories h)
    (HomeState.selectedCategory h) (HomeState.loading h) v
    (HomeState.authError h) (HomeState.credentials h)).
Definition setAuthError (v : string) : M unit :=
  update (fun h => HomeState.mk (HomeState.categories h)
    (HomeState.selectedCategory h) (HomeState.loading h)
    (HomeState.isAuthenticated h) v (HomeState.credentials h)).
Definition setCredentials (v : JsValue) : M unit :=
  update (fun h => HomeState.mk (HomeState.categories h)
    (HomeState.selectedCategory h) (HomeState.loading h)
    (HomeState.isAuthenticated h) (HomeState.authError h) v).

Definition categoriesRequest `{Platform} (authHeader : string) : Request.t :=
  Request.mk GET (apiUrl +:+ "/admin/examples/categories")
             {[ "Authorization" := authHeader ]} None.

(** The effect that runs once when the page is mounted. *)
Definition restoreSession `{Platform} : M unit :=
  let* savedCreds := SessionStorage.getItem "admin_auth" in
  match savedCreds with
  | Some text =>
      if decide (text = EmptyString) then M.ret tt
      else M.try_catch
             (let* parsed := M.lift (parse text) in
              setCredentials parsed ;;
              setIsAuthenticated true)
             (fun _ => SessionStorage.removeItem "admin_auth")
  | None => M.ret tt
  end ;;
  setLoading false.

(** A [return] inside the [try] ends its branch; the [finally] block
    runs after each of them. *)
Definition handleLogin `{Platform} (username password : string) : M unit :=
  setAuthError EmptyString ;;
  setLoading true ;;
  M.try_finally
    (M.try_catch
       (let* encoded := M.lift (base64 (username +:+ ":" +:+ password)) in
        let authHeader := "Basic " +:+ encoded in
        let* response := M.fetch (categoriesRequest authHeader) in
        if decide (Response.status response = 401) then
          setAuthError "Invalid username or password" ;;
          setLoading false
        else if negb (Response.ok response) then
          setAuthError "Authentication failed" ;;
          setLoading false
        else
          let creds := JsValue.creds username password in
          setCredentials creds ;;
          SessionStorage.setItem "admin_auth" (JSON_stringify creds) ;;
          setIsAuthenticated true)
       (fun _ =>
          M.console "Login error:" ;;
          setAuthError "Failed to connect to server"))
    (setLoading false).

Definition handleLogout : M unit :=
  setIsAuthenticated false ;;
  setCredentials JNull ;;
  SessionStorage.removeItem "admin_auth" ;;
  setCategories [] ;;
  setSelectedCategory EmptyString.

Definition fetchCategories `{Platform} : M unit :=
  let* w := M.get in
  let credentials := HomeState.credentials (World.home w) in
  let isAuthenticated := HomeState.isAuthenticated (World.home w) in
  if negb (JsValue.truthy credentials) || negb isAuthenticated then
    M.console "Skipping fetchCategories: not authenticated"
  else
    M.try_catch
      (let* username := M.lift (JsValue.get credentials "username") in
       let* password := M.lift (JsValue.get credentials "password") in
       let* encoded :=
         M.lift (base64 (JsValue.ToString username +:+ ":"
                         +:+ JsValue.ToString password)) in
       let authHeader := "Basic " +:+ encoded in
       let* response := M.fetch (categoriesRequest authHeader) in
       if decide (Response.status response = 401) then handleLogout
       else
         let* body := M.lift (Response.json response) in
         match body with
         | Json data =>
             let categories := default [] (Data.categories data) in
             setCategories categories ;;
             match categories with
             | first :: _ => setSelectedCategory (Category.id first)
             | [] => M.ret tt
             end
         | _ => M.throw TypeError
         end)
      (fun _ =>
         M.console "Failed to fetch categories:" ;;
         setCategories []).

(** The effect on [isAuthenticated] and [credentials]. *)
Definition onAuthenticated `{Platform} : M unit :=
  let* w := M.get in
  if HomeState.isAuthenticated (World.home w)
     && JsValue.truthy (HomeState.credentials (World.home w))
  then fetchCategories else M.ret tt.

End Home.

(** ** ImageManager: the before/after pairing reconciler and its requests *)

Module ImageManager.

(** [const getImageNumber = (filename) => { const match =
    filename.match(/^(\d+)\./); return match ? parseInt(match[1], 10) : -1 }] *)
Definition getImageNumber (filename : string) : Z :=
  match Js.match_anchored filename with
  | Some g => Js.parseInt g
  | None => -1
  end.

(** [imgs.forEach(img => { const num = getImageNumber(img.filename);
    if (num > 0) map.set(num, img) })] on a fresh map. *)
Definition collect (imgs : list S3Image.t) : Js.Map S3Image.t :=
  foldl (fun m img =>
           let num := getImageNumber (S3Image.filename img) in
           if decide (num > 0) then Js.Map_set num img m else m)
        [] imgs.

Definition beforeImages (images : list S3Image.t) : list S3Image.t :=
  filter (fun img => S3Image.type img = before_t) images.

Definition afterImages (images : list S3Image.t) : list S3Image.t :=
  filter (fun img => S3Image.type img = after_t) images.

Definition beforeMap (images : list S3Image.t) : Js.Map S3Image.t :=
  collect (beforeImages images).

Definition afterMap (images : list S3Image.t) : Js.Map S3Image.t :=
  collect (afterImages images).

(** [new Set([...beforeMap.keys(), ...afterMap.keys()])]. *)
Definition allNumbers (images : list S3Image.t) : list Z :=
  Js.Set_from (Js.Map_keys (beforeMap images) ++ Js.Map_keys (afterMap images)).

(** The effect that recomputes [imagePairs] whenever [images] changes:
    [Array.from(allNumbers).sort((a, b) => a - b).map(num => ({ filename:
    `${num}`, before: beforeMap.get(num), after: afterMap.get(num) }))]. *)
Definition imagePairs (images : list S3Image.t) : list ImagePair.t :=
  (fun num => ImagePair.mk (Js.Number_toString num)
                           (Js.Map_get num (beforeMap images))
                           (Js.Map_get num (afterMap images)))
    <$> Js.Array_sort (fun a b => a - b) (allNumbers images).

(** The number a rendered pair is labelled with. *)
Definition pairNumber (p : ImagePair.t) : Z :=
  Js.parseInt (ImagePair.filename p).

(** [pair.before && pair.after] in the pair's header. *)
Definition complete (p : ImagePair.t) : bool :=
  bool_decide (is_Some (ImagePair.before p))
  && bool_decide (is_Some (ImagePair.after p)).

(** *** Requests of the image manager *)

Local Open Scope js_scope.

Definition update (f : ImageState.t -> ImageState.t) : M unit :=
  M.modify (fun w => World.mk (World.sessionStorage w) (World.home w)
                              (f (World.imageManager w)) (World.audioManager w)).

Definition setImages (v : list S3Image.t) : M unit :=
  update (fun s => ImageState.mk v (ImageState.loading s)
    (ImageState.uploading s) (ImageState.cacheKey s)
    (ImageState.selectedSubcategory s)).
Definition setLoading (v : bool) : M unit :=
  update (fun s => ImageState.mk (ImageState.images s) v
    (ImageState.uploading s) (ImageState.cacheKey s)
    (ImageState.selectedSubcategory s)).
Definition setUploading (v : bool) : M unit :=
  update (fun s => ImageState.mk (ImageState.images s)
    (ImageState.loading s) v (ImageState.cacheKey s)
    (ImageState.selectedSubcategory s)).
Definition setCacheKey (v : Z) : M unit :=
  update (fun s => ImageState.mk (ImageState.images s)
    (ImageState.loading s) (ImageState.uploading s) v
    (ImageState.selectedSubcategory s)).
Definition setSelectedSubcategory (v : option string) : M unit :=
  update (fun s => ImageState.mk (ImageState.images s)
    (ImageState.loading s) (ImageState.uploading s)
    (ImageState.cacheKey s) v).

(** [function getAuthHeaders()]: the headers built from the store. *)
Definition getAuthHeaders `{Platform} (sessionStorage : gmap string string)
    : Result (gmap string string) :=
  match sessionStorage !! "admin_auth" with
  | None => Ok ∅
  | Some savedCreds =>
      if decide (savedCreds = EmptyString) then Ok ∅
      else
        catch
          (parsed ← parse savedCreds;
           username ← JsValue.get parsed "username";
           password ← JsValue.get parsed "password";
           encoded ← base64 (JsValue.ToString username +:+ ":"
                             +:+ JsValue.ToString password);
           mret {[ "Authorization" := "Basic " +:+ encoded ]})
          (fun _ => Ok ∅)
  end.

Definition authHeaders `{Platform} : M (gmap string string) :=
  let* w := M.get in M.lift (getAuthHeaders (World.sessionStorage w)).

Definition typeName (ty : ImageType) : string :=
  match ty with before_t => "before" | after_t => "after" end.

Definition isVideo (category : string) : bool :=
  bool_decide (category = "video-subtitles").

(** A string used as a condition: [undefined], [null] and [''] fail it. *)
Definition present (s : option string) : option string :=
  match s with
  | Some text => if decide (text = EmptyString) then None else Some text
  | None => None
  end.

Definition listRequest `{Platform} (headers : gmap string string) : Request.t :=
  Request.mk GET (apiUrl +:+ "/admin/examples/list") headers None.

Definition fetchImages `{Platform} (category : string) : M unit :=
  setLoading true ;;
  M.try_finally
    (M.try_catch
       (let* headers := authHeaders in
        let* response := M.fetch (listRequest headers) in
        let* body := M.lift (Response.json response) in
        let* listed :=
          match body with
          | Json data =>
              match Data.images data with
              | Some l => M.ret l
              | None => M.throw TypeError
              end
          | _ => M.throw TypeError
          end in
        let categoryImages :=
          filter (fun img => S3Image.category img = category) listed in
        let* w := M.get in
        let categoryImages :=
          match present (ImageState.selectedSubcategory (World.imageManager w)) with
          | Some sub =>
              filter (fun img => S3Image.subcategory img = Some sub) categoryImages
          | None => categoryImages
          end in
        setImages categoryImages ;;
        let* t := M.now in
        setCacheKey t)
       (fun _ => M.console "Failed to fetch images:"))
    (setLoading false).

Definition uploadRequest `{Platform} (headers : gmap string string)
    (category : string) (selectedSubcategory : option string)
    (file : File.t) (imageType : ImageType) : Request.t :=
  Request.mk POST (apiUrl +:+ "/admin/examples/upload") headers
    (Some ([("file", FormFile file);
            ("category", FormText category);
            ("image_type", FormText (typeName imageType))]
           ++ match present selectedSubcategory with
              | Some sub => [("subcategory", FormText sub)]
              | None => []
              end)).

(** [error.detail] of a parsed error body. *)
Definition detailOf (body : Body) : M JsValue :=
  match body with
  | Json data => M.ret (Data.detail data)
  | _ => M.throw TypeError
  end.

Definition handleUpload `{Platform} (category : string)
    (file : File.t) (imageType : ImageType) : M unit :=
  setUploading true ;;
  M.try_finally
    (M.try_catch
       (let* w := M.get in
        let selectedSubcategory :=
          ImageState.selectedSubcategory (World.imageManager w) in
        let* headers := authHeaders in
        let* response :=
          M.fetch (uploadRequest headers category selectedSubcategory
                                 file imageType) in
        if Response.ok response then
          fetchImages category ;;
          M.alert ((if isVideo category then "Video" else "Image")
                   +:+ " uploaded successfully!")
        else
          let* body := M.lift (Response.json response) in
          let* detail := detailOf body in
          M.alert ("Upload failed: " +:+ JsValue.ToString detail))
       (fun _ =>
          M.console "Upload error:" ;;
          M.alert "Upload failed"))
    (setUploading false).

Definition deletePath (img : S3Image.t) : string :=
  match present (S3Image.subcategory img) with
  | Some sub =>
      S3Image.category img +:+ "/" +:+ sub +:+ "/"
      +:+ typeName (S3Image.type img) +:+ "/" +:+ S3Image.filename img
  | None =>
      S3Image.category img +:+ "/"
      +:+ typeName (S3Image.type img) +:+ "/" +:+ S3Image.filename img
  end.

Definition deleteRequest `{Platform} (headers : gmap string string)
    (img : S3Image.t) : Request.t :=
  Request.mk DELETE (apiUrl +:+ "/admin/examples/delete/" +:+ deletePath img)
             headers None.

Definition handleDelete `{Platform} (category : string) (img : S3Image.t) : M unit :=
  let* confirmed := M.confirm ("Delete " +:+ S3Image.filename img +:+ "?") in
  if negb confirmed then M.ret tt
  else
    M.try_catch
      (let* headers := authHeaders in
       let* response := M.fetch (deleteRequest headers img) in
       if Response.ok response then
         fetchImages category ;;
         M.alert "Image deleted successfully!"
       else
         let* body := M.lift (Response.json response) in
         let* detail := detailOf body in
         M.alert ("Delete failed: " +:+ JsValue.ToString detail))
      (fun _ =>
         M.console "Delete error:" ;;
         M.alert "Delete failed").

End ImageManager.

(** ** AudioManager: the audio catalog and its requests *)

Module AudioManager.

Definition AUDIO_CATEGORIES : list AudioCategory.t :=
  [ AudioCategory.mk single_speaker english "Single Speaker - English";
    AudioCategory.mk single_speaker hindi "Single Speaker - Hindi";
    AudioCategory.mk multi_speaker english "Multi Speaker - English";
    AudioCategory.mk multi_speaker hindi "Multi Speaker - Hindi" ].

(** [if (!filename || typeof filename !== 'string') return 0;
    const match = filename.match(/(\d+)\./);
    return match ? parseInt(match[1]) : 0] *)
Definition getAudioNumber (filename : string) : Z :=
  if decide (filename = EmptyString) then 0
  else match Js.match_unanchored filename with
       | Some g => Js.parseInt g
       | None => 0
       end.

Definition getCategoryAudios (audios : list AudioFile.t)
    (category : AudioCategory.t) : list AudioFile.t :=
  Js.Array_sort
    (fun a b => getAudioNumber (AudioFile.filename a)
                - getAudioNumber (AudioFile.filename b))
    (filter (fun a => AudioFile.speaker_mode a = AudioCategory.speaker category
                      /\ AudioFile.language a = AudioCategory.language category)
            audios).

Definition maxNumber (audios : list AudioFile.t)
    (activeCategory : AudioCategory.t) : Z :=
  Js.Math_max0 ((fun a => getAudioNumber (AudioFile.filename a))
                  <$> getCategoryAudios audios activeCategory).

(** The numbers of the rows of the audio grid:
    [Array.from({ length: Math.max(maxNumber, 3) }, (_, i) => i + 1)],
    and [None] where that throws. *)
Definition gridNumbers (audios : list AudioFile.t)
    (activeCategory : AudioCategory.t) : option (list Z) :=
  Js.Array_from_1 (Z.max (maxNumber audios activeCategory) 3).

(** [categoryAudios.find(a => getAudioNumber(a.filename) === number)]. *)
Definition gridAudio (audios : list AudioFile.t)
    (activeCategory : AudioCategory.t) (number : Z) : option AudioFile.t :=
  snd <$> list_find
    (fun a => getAudioNumber (AudioFile.filename a) = number)
    (getCategoryAudios audios activeCategory).

(** "Will be automatically numbered as [maxNumber + 1]". *)
Definition nextNumber (audios : list AudioFile.t)
    (activeCategory : AudioCategory.t) : Z :=
  maxNumber audios activeCategory + 1.

(** *** Requests of the audio manager *)

Local Open Scope js_scope.

Definition update (f : AudioState.t -> AudioState.t) : M unit :=
  M.modify (fun w => World.mk (World.sessionStorage w) (World.home w)
                              (World.imageManager w) (f (World.audioManager w))).

Definition setAudios (v : option (list AudioFile.t)) : M unit :=
  update (fun s => AudioState.mk v (AudioState.loading s) (AudioState.uploading s)).
Definition setLoading (v : bool) : M unit :=
  update (fun s => AudioState.mk (AudioState.audios s) v (AudioState.uploading s)).
Definition setUploading (v : bool) : M unit :=
  update (fun s => AudioState.mk (AudioState.audios s) (AudioState.loading s) v).

Definition speakerName (s : SpeakerMode) : string :=
  match s with single_speaker => "single-speaker" | multi_speaker => "multi-speaker" end.

Definition languageName (l : Language) : string :=
  match l with english => "english" | hindi => "hindi" end.

Definition listRequest : Request.t :=
  Request.mk GET "http://localhost:8000/admin/examples/audio/list" ∅ None.

Definition fetchAudios : M unit :=
  setLoading true ;;
  M.try_finally
    (M.try_catch
       (let* res := M.fetch listRequest in
        let* body := M.lift (Response.json res) in
        match body with
        | Json data => setAudios (Data.audios data)
        | _ => M.throw TypeError
        end)
       (fun _ => M.console "Failed to fetch audios:"))
    (setLoading false).

Definition uploadRequest (category : AudioCategory.t) (file : File.t) : Request.t :=
  Request.mk POST "http://localhost:8000/admin/examples/audio/upload" ∅
    (Some [("file", FormFile file);
           ("speaker_mode", FormText (speakerName (AudioCategory.speaker category)));
           ("language", FormText (languageName (AudioCategory.language category)))]).

Definition detailOf (body : Body) : M JsValue :=
  match body with
  | Json data => M.ret (Data.detail data)
  | _ => M.throw TypeError
  end.

Definition handleFileSelect (category : AudioCategory.t) (file : File.t) : M unit :=
  setUploading true ;;
  M.try_finally
    (M.try_catch
       (let* res := M.fetch (uploadRequest category file) in
        if Response.ok res then
          fetchAudios ;;
          M.alert "Audio uploaded successfully!"
        else
          let* body := M.lift (Response.json res) in
          let* detail := detailOf body in
          M.alert ("Upload failed: " +:+ JsValue.ToString detail))
       (fun _ =>
          M.console "Upload failed:" ;;
          M.alert "Upload failed"))
    (setUploading false).

Definition deleteRequest (audio : AudioFile.t) : Request.t :=
  Request.mk DELETE
    ("http://localhost:8000/admin/examples/audio/delete/"
     +:+ speakerName (AudioFile.speaker_mode audio) +:+ "/"
     +:+ languageName (AudioFile.language audio) +:+ "/"
     +:+ AudioFile.filename audio)
    ∅ None.

Definition handleDelete (audio : AudioFile.t) : M unit :=
  let* confirmed := M.confirm ("Delete " +:+ AudioFile.filename audio +:+ "?") in
  if negb confirmed then M.ret tt
  else
    M.try_catch
      (let* res := M.fetch (deleteRequest audio) in
       if Response.ok res then fetchAudios
       else
         let* body := M.lift (Response.json res) in
         let* detail := detailOf body in
         M.alert ("Delete failed: " +:+ JsValue.ToString detail))
      (fun _ =>
         M.console "Delete failed:" ;;
         M.alert "Delete failed").

End AudioManager.

(** ** Vocabulary of the properties *)

(** What it means for the pattern to match at the head of [s] with
    capture [g]: a non-empty run of digits, then a dot. *)
Definition Matches_here (s g : string) : Prop :=
  g <> EmptyString /\ Js.all_digits g = true /\
  exists rest, s = g +:+ String "." rest.

(** The unanchored search: the match found starts at the first index at
    which the pattern matches at all. *)
Definition Matches_first (s g : string) : Prop :=
  exists pre rest, s = pre +:+ rest /\ Matches_here rest g /\
    forall pre' rest', s = pre' +:+ rest' ->
      (String.length pre' < String.length pre)%nat ->
      Js.match_here rest' = None.

(** The number the reconciler reads off an asset. *)
Definition numberOf (i : S3Image.t) : Z :=
  ImageManager.getImageNumber (S3Image.filename i).

(** Some asset of side [ty] in [images] carries the number [n]. *)
Definition Has (ty : ImageType) (n : Z) (images : list S3Image.t) : Prop :=
  exists i, i ∈ images /\ S3Image.type i = ty /\ numberOf i = n.

(** The filename of [i] yields the ordinal [n]: it starts with digits
    that a dot follows, and [n] is the integer these digits give. *)
Definition Yields (i : S3Image.t) (n : Z) : Prop :=
  exists g, Matches_here (S3Image.filename i) g /\ Js.parseInt g = n.

(** The ordinal [n] occurs in the partition [ty] of [images]. *)
Definition Occurs (ty : ImageType) (n : Z) (images : list S3Image.t) : Prop :=
  exists i, i ∈ images /\ S3Image.type i = ty /\ Yields i n.

(** The assets of side [ty] that carry [n], in listing order. *)
Definition carriers (ty : ImageType) (n : Z) (images : list S3Image.t)
    : list S3Image.t :=
  filter (fun i => numberOf i = n)
         (filter (fun i => S3Image.type i = ty) images).

(** A sample asset, for the closed examples. *)
Definition img (ty : ImageType) (name : string) : S3Image.t :=
  S3Image.mk ("https://cdn/" +:+ name) name 1024 "2025-01-01" name "demo" None ty.


(** A sample audio asset, for the closed examples. *)
Definition aud (sp : SpeakerMode) (la : Language) (name : string) : AudioFile.t :=
  AudioFile.mk name ("https://cdn/" +:+ name) 2048 "2025-01-01" sp la name.

(** The headers [getAuthHeaders] gives for the store of [w]. *)
Definition headersOf `{Platform} (w : World.t) : gmap string string :=
  match ImageManager.getAuthHeaders (World.sessionStorage w) with
  | Ok h => h
  | Thrown _ => ∅
  end.

(** The listing [fetchImages] keeps from the assets the backend lists. *)
Definition selected (category : string) (selectedSubcategory : option string)
    (listed : list S3Image.t) : list S3Image.t :=
  match ImageManager.present selectedSubcategory with
  | Some sub =>
      filter (fun img => S3Image.subcategory img = Some sub)
             (filter (fun img => S3Image.category img = category) listed)
  | None => filter (fun img => S3Image.category img = category) listed
  end.

(** The assets a reply to the list request carries, if it carries any. *)
Definition imagesIn (reply : Reply) : option (list S3Image.t) :=
  match reply with
  | Replied r =>
      match Response.body r with
      | Json data => Data.images data
      | _ => None
      end
  | Rejected => None
  end.

(** The listing on display after the reply to a list request. *)
Definition listingAfter (category : string) (w : World.t) (reply : Reply)
    : list S3Image.t :=
  match imagesIn reply with
  | Some listed =>
      selected category (ImageState.selectedSubcategory (World.imageManager w)) listed
  | None => ImageState.images (World.imageManager w)
  end.

Definition imagesOf (w : World.t) : list S3Image.t :=
  ImageState.images (World.imageManager w).

Definition audiosOf (w : World.t) : option (list AudioFile.t) :=
  AudioState.audios (World.audioManager w).

(** The audio listing after the reply to a list request. *)
Definition audiosAfter (w : World.t) (reply : Reply) : option (list AudioFile.t) :=
  match reply with
  | Replied r =>
      match Response.body r with
      | Json data => Data.audios data
      | _ => audiosOf w
      end
  | Rejected => audiosOf w
  end.

(** What the operator is told after a request that did not succeed:
    [what] failed, with the detail of the error body when it has one. *)
Definition failureAlert (what : string) (reply : Reply) : string :=
  match reply with
  | Replied r =>
      match Response.body r with
      | Json data => what +:+ " failed: " +:+ JsValue.ToString (Data.detail data)
      | _ => what +:+ " failed"
      end
  | Rejected => what +:+ " failed"
  end.

(** A reply with a status in the range 200-299. *)
Definition succeeded (reply : Reply) : bool :=
  match reply with
  | Replied r => Response.ok r
  | Rejected => false
  end.

(** [`${v.username}:${v.password}`] for a value that is not [null]. *)
Definition userPass (v : JsValue) : string :=
  match JsValue.get v "username", JsValue.get v "password" with
  | Ok username, Ok password =>
      JsValue.ToString username +:+ ":" +:+ JsValue.ToString password
  | _, _ => EmptyString
  end.

(** A request with the header [Authorization: auth], and one without an
    [Authorization] header. *)
Definition carries (auth : string) (req : Request.t) : Prop :=
  Request.headers req !! "Authorization" = Some auth.

Definition bare (req : Request.t) : Prop :=
  Request.headers req !! "Authorization" = None.

(** ** A platform and page states for the closed examples

    Base64 is the real one.  The JSON codec of the sample platform reads
    and writes flat objects of string fields, and strings, without escape
    sequences, and [null]; it rejects every other text. *)

Module Sample.

Definition alphabet : string :=
  "ABCDEFGHIJKLMNOPQRSTUVWXYZabcdefghijklmnopqrstuvwxyz0123456789+/".

Definition sextet (n : N) : string :=
  match String.get (N.to_nat n) alphabet with
  | Some c => String c EmptyString
  | None => EmptyString
  end.

Fixpoint encode (bytes : list N) : string :=
  match bytes with
  | a :: b :: c :: rest =>
      sextet (a / 4) +:+ sextet ((a mod 4) * 16 + b / 16)
      +:+ sextet ((b mod 16) * 4 + c / 64) +:+ sextet (c mod 64)
      +:+ encode rest
  | [a; b] =>
      sextet (a / 4) +:+ sextet ((a mod 4) * 16 + b / 16)
      +:+ sextet ((b mod 16) * 4) +:+ "="
  | [a] => sextet (a / 4) +:+ sextet ((a mod 4) * 16) +:+ "=="
  | [] => EmptyString
  end%N.

Definition btoa (text : string) : option string :=
  Some (encode (N_of_ascii <$> list_ascii_of_string text)).

Definition quote : ascii := "034"%char.
Definition backslash : ascii := "092"%char.

Definition quoted (s : string) : string :=
  String quote (s +:+ String quote EmptyString).

Definition stringify (v : JsValue) : string :=
  match v with
  | JString s => quoted s
  | JObject fields =>
      "{" +:+ String.concat ","
                ((fun kv => quoted kv.1 +:+ ":"
                            +:+ match kv.2 with
                                | JString s => quoted s
                                | _ => "null"
                                end) <$> fields)
      +:+ "}"
  | _ => "null"
  end.

(** After an opening quote: the text up to the closing quote, and what
    follows it. *)
Fixpoint read_string (s : string) : option (string * string) :=
  match s with
  | EmptyString => None
  | String c s' =>
      if decide (c = quote) then Some (EmptyString, s')
      else if decide (c = backslash) then None
      else match read_string s' with
           | Some (t, rest) => Some (String c t, rest)
           | None => None
           end
  end.

Definition read_quoted (s : string) : option (string * string) :=
  match s with
  | String c s' => if decide (c = quote) then read_string s' else None
  | EmptyString => None
  end.

(** After an opening brace: the fields up to the closing brace, which
    ends the text. *)
Fixpoint read_fields (fuel : nat) (s : string) : option (list (string * JsValue)) :=
  match fuel with
  | O => None
  | S fuel' =>
      match read_quoted s with
      | Some (k, String ":" s1) =>
          match read_quoted s1 with
          | Some (v, String "}" EmptyString) => Some [(k, JString v)]
          | Some (v, String "," s2) =>
              match read_fields fuel' s2 with
              | Some fields => Some ((k, JString v) :: fields)
              | None => None
              end
          | _ => None
          end
      | _ => None
      end
  end.

Definition parse (text : string) : option JsValue :=
  match text with
  | "null" => Some JNull
  | "{}" => Some (JObject [])
  | String "{" s => JObject <$> read_fields (String.length s) s
  | _ =>
      match read_quoted text with
      | Some (v, EmptyString) => Some (JString v)
      | _ => None
      end
  end.

(** The build sets no base URL. *)
Definition local : Platform :=
  Build_Platform parse stringify btoa None.

(** The build sets the base URL of a deployed backend. *)
Definition deployed : Platform :=
  Build_Platform parse stringify btoa (Some "https://api.example.com").

(** The page before login, and after the login of [admin]. *)
Definition loggedOut : World.t :=
  World.mk ∅
    (HomeState.mk [] EmptyString false false EmptyString JNull)
    (ImageState.mk [] false false 0 None)
    (AudioState.mk (Some []) false false).

Definition loggedIn : World.t :=
  World.mk {[ "admin_auth" := stringify (JsValue.creds "admin" "secret") ]}
    (HomeState.mk [Category.mk "mobile-layout" "Mobile Layout" ""]
                  "mobile-layout" false true EmptyString
                  (JsValue.creds "admin" "secret"))
    (ImageState.mk [img before_t "1.jpg"] false false 0 None)
    (AudioState.mk (Some [aud single_speaker english "1.mp3"]) false false).

(** The page of a session whose stored entry was removed from outside. *)
Definition storeCleared : World.t :=
  World.mk ∅ (World.home loggedIn) (World.imageManager loggedIn)
           (World.audioManager loggedIn).

(** A backend that answers every request alike, and an operator who
    confirms every dialog. *)
Definition always (reply : Reply) : Env.t :=
  Env.mk (fun _ _ => reply) (fun _ _ => true) (fun _ => 1700000000000).

Definition success : Reply :=
  Replied (Response.mk 200 (Json (Data.mk (Some []) (Some []) (Some []) JUndefined))).

Definition failure (status : Z) (detail : string) : Reply :=
  Replied (Response.mk status (Json (Data.mk None None None (JString detail)))).

End Sample.

(** ** Vocabulary of the further properties *)

(** No two different assets of one side carry the same positive number. *)
Definition UniquePerSide (images : list S3Image.t) : Prop :=
  forall i j, i ∈ images -> j ∈ images ->
    S3Image.type i = S3Image.type j -> numberOf i = numberOf j ->
    0 < numberOf i -> i = j.

(** The number the audio catalog reads off an asset, and membership of
    an asset in a category. *)
Definition audioNumber (a : AudioFile.t) : Z :=
  AudioManager.getAudioNumber (AudioFile.filename a).

Definition inCategory (category : AudioCategory.t) (a : AudioFile.t) : Prop :=
  AudioFile.speaker_mode a = AudioCategory.speaker category
  /\ AudioFile.language a = AudioCategory.language category.

(** The ordinals of the listing are numbers the platform holds exactly. *)
Definition SafeNumbers (images : list S3Image.t) : Prop :=
  Forall (fun i => numberOf i <= Js.MAX_SAFE_INTEGER) images.

Definition SafeAudioNumbers (audios : list AudioFile.t) : Prop :=
  Forall (fun a => audioNumber a <= Js.MAX_SAFE_INTEGER) audios.

(** The assets of a category, in listing order. *)
Definition categoryAssets (audios : list AudioFile.t)
    (category : AudioCategory.t) : list AudioFile.t :=
  filter (fun a => AudioFile.speaker_mode a = AudioCategory.speaker category
                   /\ AudioFile.language a = AudioCategory.language category)
         audios.

(** [getCategoryAudios(category).length], the count on a category's tab. *)
Definition tabCount (audios : list AudioFile.t) (category : AudioCategory.t) : nat :=
  length (AudioManager.getCategoryAudios audios category).

(** ** What the page shows

    The [return] statements of [Home]: the screen shown while the stored
    session is read, the login page, and the console with the category
    tabs and the manager of the selected category. *)

Module HomePage.

Inductive Manager :=
| AudioManagerShown
| ImageManagerShown (category categoryName : string).

Inductive Main :=
| LoadingCategories
| CategoryTabs (tabs : list (Category.t * bool)) (manager : option Manager).

Inductive View :=
| Loading
| LoginPage (error : string)
| AdminPage (username : JsValue) (main : Main).

(** The state of the page when it is mounted: the [useState] defaults. *)
Definition initial : HomeState.t :=
  HomeState.mk [] EmptyString true false EmptyString JNull.

(** [credentials?.username]. *)
Definition username (credentials : JsValue) : JsValue :=
  match JsValue.get credentials "username" with
  | Ok v => v
  | Thrown _ => JUndefined
  end.

(** [categories.find(c => c.id === selectedCategory)?.name || '']. *)
Definition categoryName (categories : list Category.t)
    (selectedCategory : string) : string :=
  match list_find (fun c => Category.id c = selectedCategory) categories with
  | Some (_, c) => Category.name c
  | None => EmptyString
  end.

Definition manager (categories : list Category.t)
    (selectedCategory : string) : option Manager :=
  if decide (selectedCategory = "audio-story") then Some AudioManagerShown
  else if decide (selectedCategory = EmptyString) then None
  else Some (ImageManagerShown selectedCategory
               (categoryName categories selectedCategory)).

Definition render (h : HomeState.t) : View :=
  if HomeState.loading h && negb (HomeState.isAuthenticated h) then Loading
  else if negb (HomeState.isAuthenticated h) then
    LoginPage (HomeState.authError h)
  else
    AdminPage (username (HomeState.credentials h))
      match HomeState.categories h with
      | [] => LoadingCategories
      | categories =>
          CategoryTabs
            ((fun c => (c, bool_decide (HomeState.selectedCategory h = Category.id c)))
               <$> categories)
            (manager categories (HomeState.selectedCategory h))
      end.

End HomePage.

(** The categories a reply to the categories request carries:
    [data.categories || []], and none when the reply has no JSON object. *)
Definition categoriesIn (reply : Reply) : list Category.t :=
  match reply with
  | Replied r =>
      match Response.body r with
      | Json data => default [] (Data.categories data)
      | _ => []
      end
  | Rejected => []
  end.

(** A platform whose strings are UTF-8 text.  [btoa] encodes the code
    points up to U+00FF and throws on a text with any other. *)
Module Utf8.

Fixpoint latin1 (bytes : list N) : option (list N) :=
  match bytes with
  | [] => Some []
  | b :: rest =>
      if (b <? 128)%N then cons b <$> latin1 rest
      else
        match rest with
        | c :: rest' =>
            if ((b =? 194)%N || (b =? 195)%N) && (128 <=? c)%N && (c <? 192)%N
            then cons ((b - 192) * 64 + (c - 128))%N <$> latin1 rest'
            else None
        | [] => None
        end
  end.

Definition btoa (text : string) : option string :=
  Sample.encode <$> latin1 (N_of_ascii <$> list_ascii_of_string text).

Definition platform : Platform :=
  Build_Platform Sample.parse Sample.stringify btoa None.

(** The euro sign, U+20AC. *)
Definition euro : string :=
  String "226"%char (String "130"%char (String "172"%char EmptyString)).

End Utf8.

(** ** The file events of the image manager

    [handleFileInput] and [handleDrop], by the files the event carries
    ([null] when it carries no list).  The highlight of the drop zone,
    which [handleDrop] clears first, is not part of the state modelled
    here. *)

Module ImageEvents.
Local Open Scope js_scope.

Definition handleFileInput `{Platform} (category : string)
    (files : option (list File.t)) (imageType : ImageType) : M unit :=
  match files with
  | Some (file :: _) => ImageManager.handleUpload category file imageType
  | _ => M.ret tt
  end.

Definition handleDrop `{Platform} (category : string)
    (files : option (list File.t)) (imageType : ImageType) : M unit :=
  match files with
  | Some (file :: _) => ImageManager.handleUpload category file imageType
  | _ => M.ret tt
  end.

End ImageEvents.

(** ** The image manager before credentials and subcategories

    The earlier [ImageManager]: the same handlers, with no headers, no
    subcategory and no cache key. *)

Module Legacy.
Local Open Scope js_scope.

Definition listRequest `{Platform} : Request.t :=
  Request.mk GET (apiUrl +:+ "/admin/examples/list") ∅ None.

Definition fetchImages `{Platform} (category : string) : M unit :=
  ImageManager.setLoading true ;;
  M.try_finally
    (M.try_catch
       (let* response := M.fetch listRequest in
        let* body := M.lift (Response.json response) in
        let* listed :=
          match body with
          | Json data =>
              match Data.images data with
              | Some l => M.ret l
              | None => M.throw TypeError
              end
          | _ => M.throw TypeError
          end in
        ImageManager.setImages
          (filter (fun img => S3Image.category img = category) listed))
       (fun _ => M.console "Failed to fetch images:"))
    (ImageManager.setLoading false).

Definition uploadRequest `{Platform} (category : string)
    (file : File.t) (imageType : ImageType) : Request.t :=
  Request.mk POST (apiUrl +:+ "/admin/examples/upload") ∅
    (Some [("file", FormFile file);
           ("category", FormText category);
           ("image_type", FormText (ImageManager.typeName imageType))]).

Definition handleUpload `{Platform} (category : string)
    (file : File.t) (imageType : ImageType) : M unit :=
  ImageManager.setUploading true ;;
  M.try_finally
    (M.try_catch
       (let* response := M.fetch (uploadRequest category file imageType) in
        if Response.ok response then
          fetchImages category ;;
          M.alert "Image uploaded successfully!"
        else
          let* body := M.lift (Response.json response) in
          let* detail := ImageManager.detailOf body in
          M.alert ("Upload failed: " +:+ JsValue.ToString detail))
       (fun _ =>
          M.console "Upload error:" ;;
          M.alert "Upload failed"))
    (ImageManager.setUploading false).

Definition deleteRequest `{Platform} (img : S3Image.t) : Request.t :=
  Request.mk DELETE
    (apiUrl +:+ "/admin/examples/delete/"
     +:+ (S3Image.category img +:+ "/"
          +:+ ImageManager.typeName (S3Image.type img) +:+ "/"
          +:+ S3Image.filename img))
    ∅ None.

Definition handleDelete `{Platform} (category : string) (img : S3Image.t) : M unit :=
  let* confirmed := M.confirm ("Delete " +:+ S3Image.filename img +:+ "?") in
  if negb confirmed then M.ret tt
  else
    M.try_catch
      (let* response := M.fetch (deleteRequest img) in
       if Response.ok response then
         fetchImages category ;;
         M.alert "Image deleted successfully!"
       else
         let* body := M.lift (Response.json response) in
         let* detail := ImageManager.detailOf body in
         M.alert ("Delete failed: " +:+ JsValue.ToString detail))
      (fun _ =>
         M.console "Delete error:" ;;
         M.alert "Delete failed").

End Legacy.

(** The listing the earlier image manager displays after the reply to a
    list request. *)
Definition legacyListingAfter (category : string) (w : World.t) (reply : Reply)
    : list S3Image.t :=
  match imagesIn reply with
  | Some listed => filter (fun img => S3Image.category img = category) listed
  | None => ImageState.images (World.imageManager w)
  end.

(** ** What the audio manager shows

    The tabs with their counts and, unless the manager is loading, the
    rows of the grid with the asset of each row and the number announced
    for the next upload.  All of them are computed from the [audios] of
    the state on every render, and [audios.filter] throws when that is
    not a list.  The rows are built only when the manager is not loading,
    and [Array.from] throws when there would be more of them than an
    array can hold. *)

Module AudioPage.

Inductive View :=
| Spinner (tabs : list (AudioCategory.t * nat))
| Grid (tabs : list (AudioCategory.t * nat))
       (rows : list (Z * option AudioFile.t)) (next : Z).

Definition render (s : AudioState.t) (activeCategory : AudioCategory.t)
    : Result View :=
  match AudioState.audios s with
  | None => Thrown TypeError
  | Some audios =>
      let tabs :=
        (fun category =>
           (category, length (AudioManager.getCategoryAudios audios category)))
          <$> AudioManager.AUDIO_CATEGORIES in
      if AudioState.loading s then Ok (Spinner tabs)
      else
        match AudioManager.gridNumbers audios activeCategory with
        | None => Thrown RangeError
        | Some numbers =>
            Ok (Grid tabs
                  ((fun number =>
                      (number,
                       AudioManager.gridAudio audios activeCategory number))
                     <$> numbers)
                  (AudioManager.nextNumber audios activeCategory))
        end
  end.

End AudioPage.

(** ** The player of the audio manager

    [playingAudio] and the audio element behind [audioRef], which is
    [null] until the element is mounted.  Of the element the model keeps
    the commands it has received. *)

Module Player.

Inductive Command := SetSrc (url : string) | Play | Pause.

Record t := mk {
  playingAudio : option string;
  audioRef : option (list Command)
}.

(** The player once the element is mounted. *)
Definition mounted : t := mk None (Some []).

Definition togglePlay (url : string) (s : t) : t :=
  if decide (playingAudio s = Some url) then
    mk None ((fun commands => commands ++ [Pause]) <$> audioRef s)
  else
    match audioRef s with
    | Some commands => mk (Some url) (Some (commands ++ [SetSrc url; Play]))
    | None => s
    end.

Definition handleAudioEnded (s : t) : t := mk None (audioRef s).

(** [audio && playingAudio === audio.url], for the asset of a row. *)
Definition isPlaying (s : t) (audio : option AudioFile.t) : bool :=
  match audio with
  | Some a => bool_decide (playingAudio s = Some (AudioFile.url a))
  | None => false
  end.

Inductive Event := Toggled (url : string) | Ended.

Definition step (s : t) (e : Event) : t :=
  match e with
  | Toggled url => togglePlay url s
  | Ended => handleAudioEnded s
  end.

End Player.

(* ================================================================== *)
(** * Part II: properties                                              *)
(* ================================================================== *)

(** ** Strings *)

Lemma append_cons c (a b : string) : String c a +:+ b = String c (a +:+ b).
Proof. reflexivity. Qed.

Lemma append_nil (b : string) : EmptyString +:+ b = b.
Proof. reflexivity. Qed.

Lemma is_dot_not_digit c : Js.is_dot c = true -> Js.is_digit c = false.
Proof.
  unfold Js.is_dot, Js.is_digit. intros H%N.eqb_eq. rewrite H. reflexivity.
Qed.

Lemma take_digits_append s :
  s = (Js.take_digits s).1 +:+ (Js.take_digits s).2.
Proof.
  induction s as [|c s IH]; simpl; [done|].
  destruct (Js.is_digit c); [|done].
  destruct (Js.take_digits s) as [ds rest]; simpl in *.
  rewrite append_cons. congruence.
Qed.

Lemma take_digits_all s : Js.all_digits (Js.take_digits s).1 = true.
Proof.
  induction s as [|c s IH]; simpl; [done|].
  destruct (Js.is_digit c) eqn:E; [|done].
  destruct (Js.take_digits s) as [ds rest]; simpl in *. by rewrite E, IH.
Qed.

(** The run of digits stops where the first non-digit is. *)
Lemma take_digits_stop g c rest :
  Js.all_digits g = true -> Js.is_digit c = false ->
  Js.take_digits (g +:+ String c rest) = (g, String c rest).
Proof.
  intros Hg Hc. induction g as [|x g IH]; simpl in *.
  - by rewrite Hc.
  - apply andb_true_iff in Hg as [Hx Hg]. rewrite Hx, (IH Hg). done.
Qed.

(** ** The pattern [(\d+)\.] *)

Lemma match_here_sound s g : Js.match_here s = Some g -> Matches_here s g.
Proof.
  unfold Js.match_here, Matches_here. intros H.
  pose proof (take_digits_append s) as Happ.
  pose proof (take_digits_all s) as Hall.
  destruct (Js.take_digits s) as [[|c ds] [|d rest]]; simpl in *; try done.
  destruct (Js.is_dot d) eqn:Hd; [|done]. simplify_eq.
  split; [done|]. split; [done|]. exists rest.
  assert (d = "."%char) as ->; [|done].
  unfold Js.is_dot in Hd. apply N.eqb_eq in Hd.
  rewrite <- (ascii_N_embedding d), Hd. reflexivity.
Qed.

Lemma match_here_complete s g : Matches_here s g -> Js.match_here s = Some g.
Proof.
  intros (Hne & Hall & rest & ->). unfold Js.match_here.
  rewrite take_digits_stop by done.
  destruct g; [done|]. reflexivity.
Qed.

Lemma match_here_iff s g : Js.match_here s = Some g <-> Matches_here s g.
Proof. split; [apply match_here_sound | apply match_here_complete]. Qed.

Lemma match_here_None s :
  Js.match_here s = None <-> forall g, ~ Matches_here s g.
Proof.
  split.
  - intros H g Hg%match_here_complete. congruence.
  - intros H. destruct (Js.match_here s) as [g|] eqn:E; [|done].
    destruct (H g). by apply match_here_sound.
Qed.

Lemma match_unanchored_sound s g :
  Js.match_unanchored s = Some g -> Matches_first s g.
Proof.
  induction s as [|c s IH]; simpl.
  - by destruct (Js.match_here EmptyString) eqn:E.
  - destruct (Js.match_here (String c s)) as [g'|] eqn:E.
    + intros [= ->]. exists EmptyString, (String c s).
      split; [done|]. split; [by apply match_here_sound|].
      intros ? ? _ Hlen. simpl in Hlen. lia.
    + intros (pre & rest & -> & Hm & Hfirst)%IH.
      exists (String c pre), rest. split; [done|]. split; [done|].
      intros [|c' pre'] rest' Heq Hlen;
        rewrite ?append_nil, ?append_cons in Heq; simpl in Hlen.
      * by subst.
      * simplify_eq. apply (Hfirst pre'); [done | lia].
Qed.

Lemma match_unanchored_None s :
  Js.match_unanchored s = None ->
  forall pre rest, s = pre +:+ rest -> Js.match_here rest = None.
Proof.
  induction s as [|c s IH]; simpl.
  - intros _ [|] rest; rewrite ?append_nil, ?append_cons; [by intros <-|done].
  - destruct (Js.match_here (String c s)) as [g'|] eqn:E; [done|].
    intros H [|c' pre] rest Heq; rewrite ?append_nil, ?append_cons in Heq;
      simplify_eq; [done|].
    by eapply IH.
Qed.

(** A filename that matches at its head is matched there by the search
    as well: on such names the two patterns capture the same digits. *)
Lemma match_unanchored_anchored s g :
  Js.match_anchored s = Some g -> Js.match_unanchored s = Some g.
Proof.
  unfold Js.match_anchored. intros H.
  destruct s; [by simpl in H|]. simpl. by rewrite H.
Qed.

(** ** Numbers and their decimal notation *)

Lemma parse_digits_of_uint_acc d z acc :
  z = Z.pos acc ->
  Js.parse_digits z (NilEmpty.string_of_uint d) = Z.pos (Pos.of_uint_acc d acc).
Proof.
  revert z acc. induction d; intros z acc ->; simpl; try done;
    apply IHd; unfold Js.digit_value; simpl; lia.
Qed.

Lemma parse_digits_of_uint d :
  Js.parse_digits 0 (NilEmpty.string_of_uint d) = Z.of_N (Pos.of_uint d).
Proof.
  induction d; simpl; try done;
    first [exact IHd | by apply parse_digits_of_uint_acc].
Qed.

Lemma parseInt_Number_toString n : 0 <= n -> Js.parseInt (Js.Number_toString n) = n.
Proof.
  intros Hn. unfold Js.parseInt, Js.Number_toString.
  destruct n as [|p|p]; [done| |lia]. simpl.
  unfold NilZero.string_of_uint.
  destruct (Pos.to_uint p) eqn:E;
    try (rewrite <- E, parse_digits_of_uint;
         change (Pos.of_uint (Pos.to_uint p)) with (N.of_uint (N.to_uint (N.pos p)));
         by rewrite DecimalN.Unsigned.of_to).
  exfalso. pose proof (DecimalPos.Unsigned.to_uint_nonnil p). done.
Qed.

Lemma parse_digits_nonneg s acc : 0 <= acc -> Js.all_digits s = true ->
  0 <= Js.parse_digits acc s.
Proof.
  revert acc. induction s as [|c s IH]; simpl; intros acc Hacc Hall; [done|].
  apply andb_true_iff in Hall as [Hc Hs]. apply IH; [|done].
  unfold Js.is_digit in Hc. apply andb_true_iff in Hc as [H1%N.leb_le H2%N.leb_le].
  unfold Js.digit_value. lia.
Qed.

(** ** Sorting *)

Section SortFacts.
Context {A : Type} (cmp : A -> A -> Z).

Lemma insert_sorted_perm x l : Js.insert_sorted cmp x l ≡ₚ x :: l.
Proof.
  induction l as [|y l IH]; simpl; [done|].
  destruct (decide (cmp x y <= 0)); [done|].
  rewrite IH. apply Permutation_swap.
Qed.

Lemma Array_sort_perm l : Js.Array_sort cmp l ≡ₚ l.
Proof.
  induction l as [|x l IH]; simpl; [done|].
  rewrite insert_sorted_perm. by f_equiv.
Qed.

Lemma Array_sort_elem x l : x ∈ Js.Array_sort cmp l <-> x ∈ l.
Proof. by rewrite Array_sort_perm. Qed.
End SortFacts.

Lemma insert_sorted_numbers x l :
  StronglySorted Z.le l ->
  StronglySorted Z.le (Js.insert_sorted (fun a b => a - b) x l).
Proof.
  induction 1 as [|y l Hl IH Hy]; simpl.
  - repeat constructor.
  - destruct (decide (x - y <= 0)).
    + constructor; [by constructor|].
      constructor; [lia|]. eapply Forall_impl; [exact Hy|]. simpl. lia.
    + constructor; [done|].
      rewrite insert_sorted_perm. constructor; [lia|done].
Qed.

Lemma Array_sort_numbers l :
  StronglySorted Z.le (Js.Array_sort (fun a b => a - b) l).
Proof.
  induction l as [|x l IH]; simpl; [constructor|].
  by apply insert_sorted_numbers.
Qed.

Lemma StronglySorted_le_lt (l : list Z) :
  StronglySorted Z.le l -> NoDup l -> StronglySorted Z.lt l.
Proof.
  induction 1 as [|x l Hl IH Hx]; intros Hnd; [constructor|].
  apply NoDup_cons in Hnd as [Hnot Hnd].
  constructor; [by apply IH|].
  apply Forall_forall. intros y Hy.
  rewrite Forall_forall in Hx. specialize (Hx y Hy).
  assert (x <> y) by (intros ->; done). lia.
Qed.

(** ** Map and Set *)

Lemma Map_get_set {V} k v (m : Js.Map V) k' :
  Js.Map_get k' (Js.Map_set k v m)
  = if decide (k = k') then Some v else Js.Map_get k' m.
Proof.
  induction m as [|[k0 v0] m IH]; simpl; [done|].
  destruct (decide (k0 = k)) as [->|Hne]; simpl.
  - by destruct (decide (k = k')).
  - destruct (decide (k0 = k')) as [->|Hne'].
    + by rewrite decide_False.
    + apply IH.
Qed.

Lemma Map_keys_get {V} (m : Js.Map V) k :
  k ∈ Js.Map_keys m <-> is_Some (Js.Map_get k m).
Proof.
  unfold Js.Map_keys. induction m as [|[k0 v0] m IH]; simpl.
  - split; [by intros ?%elem_of_nil | by intros [? ?]].
  - rewrite elem_of_cons, IH.
    destruct (decide (k0 = k)) as [->|Hne]; [split; eauto|].
    split; [intros [?|?]; [congruence|done] | by right].
Qed.

Lemma Set_from_gen xs acc x :
  x ∈ foldl Js.Set_add acc xs <-> x ∈ acc \/ x ∈ xs.
Proof.
  revert acc. induction xs as [|y xs IH]; intros acc; simpl.
  - rewrite elem_of_nil. tauto.
  - rewrite IH, elem_of_cons. unfold Js.Set_add.
    destruct (decide (y ∈ acc)) as [Hy|Hy].
    + split; [tauto|]. intros [?|[->|?]]; tauto.
    + rewrite elem_of_app, list_elem_of_singleton. tauto.
Qed.

Lemma Set_from_elem xs x : x ∈ Js.Set_from xs <-> x ∈ xs.
Proof. unfold Js.Set_from. rewrite Set_from_gen, elem_of_nil. tauto. Qed.

Lemma Set_from_NoDup_gen xs acc : NoDup acc -> NoDup (foldl Js.Set_add acc xs).
Proof.
  revert acc. induction xs as [|y xs IH]; intros acc Hacc; simpl; [done|].
  apply IH. unfold Js.Set_add. destruct (decide (y ∈ acc)); [done|].
  apply NoDup_app. split; [done|]. split; [|apply NoDup_singleton].
  intros z Hz ->%list_elem_of_singleton. done.
Qed.

Lemma Set_from_NoDup xs : NoDup (Js.Set_from xs).
Proof. apply Set_from_NoDup_gen. constructor. Qed.

(** ** The two maps of the reconciler *)

(** A map built from a partition holds, under each positive number, the
    last asset of the partition that carries it, and holds nothing else. *)
Lemma collect_get_gen imgs (m : Js.Map S3Image.t) n :
  Js.Map_get n
    (foldl (fun m img =>
              let num := ImageManager.getImageNumber (S3Image.filename img) in
              if decide (num > 0) then Js.Map_set num img m else m) m imgs)
  = match (if decide (n > 0)
           then last (filter (fun i => numberOf i = n) imgs) else None) with
    | Some i => Some i
    | None => Js.Map_get n m
    end.
Proof.
  revert m. induction imgs as [|i imgs IH]; intros m; simpl.
  - by destruct (decide (n > 0)).
  - rewrite IH. clear IH. fold (numberOf i).
    destruct (decide (n > 0)) as [Hn|Hn].
    + rewrite filter_cons. destruct (decide (numberOf i = n)) as [Hi|Hi].
      * rewrite last_cons.
        destruct (last (filter _ imgs)); [done|].
        rewrite Hi, decide_True by done.
        by rewrite Map_get_set, decide_True.
      * destruct (last (filter _ imgs)); [done|].
        destruct (decide (numberOf i > 0)); [|done].
        by rewrite Map_get_set, decide_False.
    + destruct (decide (numberOf i > 0)); [|done].
      rewrite Map_get_set, decide_False; [done|lia].
Qed.

Lemma collect_get ty images n :
  Js.Map_get n
    (ImageManager.collect (filter (fun i => S3Image.type i = ty) images))
  = if decide (n > 0) then last (carriers ty n images) else None.
Proof.
  unfold ImageManager.collect, carriers. rewrite collect_get_gen.
  destruct (decide (n > 0)); [|done]. by destruct (last _).
Qed.

Lemma carriers_elem ty n images i :
  i ∈ carriers ty n images
  <-> i ∈ images /\ S3Image.type i = ty /\ numberOf i = n.
Proof. unfold carriers. rewrite !list_elem_of_filter. tauto. Qed.

Lemma last_is_Some {A} (l : list A) : is_Some (last l) <-> exists x, x ∈ l.
Proof.
  split.
  - intros [x Hx]. exists x.
    apply last_Some in Hx as [l' ->]. apply elem_of_app. right. by left.
  - intros [x Hx]. destruct l as [|y l] using rev_ind; [by apply elem_of_nil in Hx|].
    rewrite last_snoc. eauto.
Qed.

Lemma collect_is_Some ty images n :
  is_Some (Js.Map_get n
    (ImageManager.collect (filter (fun i => S3Image.type i = ty) images)))
  <-> 0 < n /\ Has ty n images.
Proof.
  rewrite collect_get. unfold Has. destruct (decide (n > 0)) as [Hn|Hn].
  - rewrite last_is_Some. setoid_rewrite carriers_elem.
    split; [intros [i Hi]; split; [lia|eauto] | intros [_ ?]; done].
  - split; [by intros [? ?] | intros [? _]; lia].
Qed.

Lemma collect_Some ty images n i :
  Js.Map_get n
    (ImageManager.collect (filter (fun i => S3Image.type i = ty) images))
  = Some i ->
  i ∈ images /\ S3Image.type i = ty /\ numberOf i = n /\ 0 < n.
Proof.
  rewrite collect_get. destruct (decide (n > 0)) as [Hn|Hn]; [|done].
  intros Hl. apply last_Some in Hl as [l' Hl].
  assert (i ∈ carriers ty n images) as Hi.
  { rewrite Hl. apply elem_of_app. right. by left. }
  apply carriers_elem in Hi. intuition lia.
Qed.

(** ** The pairing reconciler *)

Lemma allNumbers_elem images n :
  n ∈ ImageManager.allNumbers images
  <-> 0 < n /\ (Has before_t n images \/ Has after_t n images).
Proof.
  unfold ImageManager.allNumbers, ImageManager.beforeMap,
    ImageManager.afterMap, ImageManager.beforeImages, ImageManager.afterImages.
  rewrite Set_from_elem, elem_of_app, !Map_keys_get, !collect_is_Some. tauto.
Qed.

Lemma imagePairs_numbers images :
  ImageManager.pairNumber <$> ImageManager.imagePairs images
  = Js.Array_sort (fun a b => a - b) (ImageManager.allNumbers images).
Proof.
  unfold ImageManager.imagePairs. rewrite <- list_fmap_compose.
  rewrite <- (list_fmap_id (Js.Array_sort _ _)) at 2.
  apply Forall_fmap_ext, Forall_forall. intros n Hn.
  apply Array_sort_elem, allNumbers_elem in Hn as [Hn _].
  unfold ImageManager.pairNumber; simpl.
  apply parseInt_Number_toString. lia.
Qed.

Lemma imagePairs_sides images p :
  p ∈ ImageManager.imagePairs images ->
  ImagePair.before p
    = Js.Map_get (ImageManager.pairNumber p) (ImageManager.beforeMap images)
  /\ ImagePair.after p
    = Js.Map_get (ImageManager.pairNumber p) (ImageManager.afterMap images)
  /\ 0 < ImageManager.pairNumber p.
Proof.
  unfold ImageManager.imagePairs.
  intros (n & -> & Hn)%list_elem_of_fmap.
  apply Array_sort_elem, allNumbers_elem in Hn as [Hn _].
  unfold ImageManager.pairNumber; simpl.
  rewrite parseInt_Number_toString by lia. done.
Qed.

(** An asset whose number is not positive is skipped by the loop that
    fills a map. *)
Lemma collect_skip ty l1 i l2 :
  numberOf i <= 0 ->
  ImageManager.collect (filter (fun j => S3Image.type j = ty) (l1 ++ i :: l2))
  = ImageManager.collect (filter (fun j => S3Image.type j = ty) (l1 ++ l2)).
Proof.
  intros Hi. unfold ImageManager.collect.
  rewrite !filter_app, filter_cons.
  destruct (decide (S3Image.type i = ty)); [|done].
  rewrite !foldl_app. simpl. fold (numberOf i).
  by rewrite decide_False by lia.
Qed.

Lemma Yields_numberOf i n : Yields i n -> numberOf i = n.
Proof.
  intros (g & Hg%match_here_complete & <-).
  unfold numberOf, ImageManager.getImageNumber, Js.match_anchored.
  by rewrite Hg.
Qed.

Lemma numberOf_Yields i : 0 <= numberOf i -> Yields i (numberOf i).
Proof.
  unfold numberOf, ImageManager.getImageNumber, Js.match_anchored.
  destruct (Js.match_here (S3Image.filename i)) as [g|] eqn:Hg; [|lia].
  intros _. exists g. split; [by apply match_here_sound | done].
Qed.

Lemma Has_Occurs ty n images : 0 < n -> (Has ty n images <-> Occurs ty n images).
Proof.
  intros Hn. unfold Has, Occurs. split.
  - intros (i & Hi & Hty & Hnum). exists i. split; [done|]. split; [done|].
    rewrite <- Hnum. apply numberOf_Yields. lia.
  - intros (i & Hi & Hty & Hy%Yields_numberOf). by exists i.
Qed.

(** A listing given in full is within the bound by computation. *)
Ltac safe_listing :=
  try unfold SafeNumbers; try unfold SafeAudioNumbers;
  match goal with |- ?P => refine (bool_decide_unpack P _) end;
  vm_compute; exact I.

(** C1, as the code has it, for a listing whose ordinals are at most
    2^53 - 1: the pairs are numbered by exactly the positive
    ordinals that occur in the before-partition or in the after-partition,
    each of them once and in ascending order; a side of a pair is present
    exactly when the pair's ordinal occurs in that partition, and it then
    is an asset of that partition with that ordinal; so a pair is complete
    exactly when its ordinal occurs in both, and a positive ordinal found
    on one side alone gives an incomplete pair. *)
Theorem C1_pairs_of_positive_numbers (images : list S3Image.t) :
  SafeNumbers images ->
  let pairs := ImageManager.imagePairs images in
  StronglySorted Z.lt (ImageManager.pairNumber <$> pairs)
  /\ NoDup (ImageManager.pairNumber <$> pairs)
  /\ (forall n, n ∈ ImageManager.pairNumber <$> pairs
        <-> 0 < n /\ (Occurs before_t n images \/ Occurs after_t n images))
  /\ (forall p, p ∈ pairs ->
        let n := ImageManager.pairNumber p in
        (is_Some (ImagePair.before p) <-> Occurs before_t n images)
        /\ (is_Some (ImagePair.after p) <-> Occurs after_t n images)
        /\ (ImageManager.complete p = true
            <-> Occurs before_t n images /\ Occurs after_t n images)
        /\ (forall i, ImagePair.before p = Some i ->
              i ∈ images /\ S3Image.type i = before_t /\ Yields i n)
        /\ (forall i, ImagePair.after p = Some i ->
              i ∈ images /\ S3Image.type i = after_t /\ Yields i n)).
Proof.
  intros _ pairs. subst pairs. rewrite imagePairs_numbers.
  assert (NoDup (Js.Array_sort (fun a b => a - b)
                   (ImageManager.allNumbers images))) as Hnd.
  { rewrite Array_sort_perm. apply Set_from_NoDup. }
  split; [|split; [done|split]].
  - apply StronglySorted_le_lt; [apply Array_sort_numbers | done].
  - intros n. rewrite Array_sort_elem, allNumbers_elem.
    split; intros [Hn Hocc]; (split; [done|]);
      by rewrite ?(Has_Occurs _ _ _ Hn) in *.
  - intros p (Hb & Ha & Hpos)%imagePairs_sides. simpl.
    unfold ImageManager.complete. rewrite andb_true_iff, !bool_decide_eq_true.
    rewrite Hb, Ha.
    unfold ImageManager.beforeMap, ImageManager.afterMap,
      ImageManager.beforeImages, ImageManager.afterImages.
    rewrite !collect_is_Some, !(Has_Occurs _ _ _ Hpos).
    split; [tauto|]. split; [tauto|]. split; [tauto|].
    split; intros i (Hi & Hty & Hnum & _)%collect_Some;
      (split; [done|]; split; [done|]);
      rewrite <- Hnum; apply numberOf_Yields; lia.
Qed.

Lemma C1_pairs_of_positive_numbers_witness :
  let images :=
    [img before_t "2.jpg"; img after_t "1.jpg"; img before_t "1.jpg"] in
  StronglySorted Z.lt (ImageManager.pairNumber <$> ImageManager.imagePairs images)
  /\ NoDup (ImageManager.pairNumber <$> ImageManager.imagePairs images).
Proof.
  intros images.
  destruct (C1_pairs_of_positive_numbers images) as (Hsorted & Hnodup & _).
  - safe_listing.
  - split; [exact Hsorted | exact Hnodup].
Defined.

(** C1 as stated fails at ordinal 0: the filename [0.png] yields the
    ordinal 0, which so occurs in the before-partition, and no pair is
    made for it. *)
Lemma C1_number_zero_has_no_pair :
  let images := [img before_t "0.png"] in
  Occurs before_t 0 images
  /\ (0 ∉ ImageManager.pairNumber <$> ImageManager.imagePairs images)
  /\ ImageManager.imagePairs images = [].
Proof.
  split; [|split; [|reflexivity]].
  - exists (img before_t "0.png"). split; [by left|]. split; [reflexivity|].
    exists "0". split; [|reflexivity].
    split; [discriminate|]. split; [reflexivity|]. by exists "png".
  - intros H%elem_of_nil. done.
Qed.

(** C8: an asset whose filename yields no ordinal, or yields one that is
    0 or negative, is on no side of any pair, no pair carries an ordinal
    its filename yields, and the pairs are the ones the listing without
    that asset gives. *)
Theorem C8_nonpositive_number_excluded (images : list S3Image.t) (i : S3Image.t) :
  i ∈ images ->
  (forall n, Yields i n -> n <= 0) ->
  (forall p, p ∈ ImageManager.imagePairs images ->
     ImagePair.before p <> Some i /\ ImagePair.after p <> Some i
     /\ ~ Yields i (ImageManager.pairNumber p))
  /\ (forall l1 l2, images = l1 ++ i :: l2 ->
        ImageManager.imagePairs images = ImageManager.imagePairs (l1 ++ l2)).
Proof.
  intros _ Hyields.
  assert (numberOf i <= 0) as Hi.
  { destruct (decide (0 <= numberOf i)) as [Hpos|]; [|lia].
    by apply Hyields, numberOf_Yields. }
  split.
  - intros p (Hb & Ha & Hpos)%imagePairs_sides.
    unfold ImageManager.beforeMap, ImageManager.afterMap,
      ImageManager.beforeImages, ImageManager.afterImages in *.
    split; [|split].
    + rewrite Hb. intros H%collect_Some. lia.
    + rewrite Ha. intros H%collect_Some. lia.
    + intros Hy%Hyields. lia.
  - intros l1 l2 ->.
    unfold ImageManager.imagePairs, ImageManager.allNumbers,
      ImageManager.beforeMap, ImageManager.afterMap,
      ImageManager.beforeImages, ImageManager.afterImages.
    by rewrite !collect_skip.
Qed.

Lemma C8_nonpositive_number_excluded_witness :
  let i := img before_t "0.jpg" in
  let images := [img before_t "1.jpg"; i; img after_t "1.jpg"] in
  (forall p, p ∈ ImageManager.imagePairs images ->
     ImagePair.before p <> Some i /\ ImagePair.after p <> Some i
     /\ ~ Yields i (ImageManager.pairNumber p))
  /\ (forall l1 l2, images = l1 ++ i :: l2 ->
        ImageManager.imagePairs images = ImageManager.imagePairs (l1 ++ l2)).
Proof.
  apply (C8_nonpositive_number_excluded
           [img before_t "1.jpg"; img before_t "0.jpg"; img after_t "1.jpg"]
           (img before_t "0.jpg")).
  - right. left.
  - intros n Hy. apply Yields_numberOf in Hy. subst n. vm_compute. discriminate.
Defined.

(** ** Ordinal extraction *)

Lemma match_unanchored_complete s g :
  Matches_first s g -> Js.match_unanchored s = Some g.
Proof.
  intros (pre & rest & -> & Hm & Hfirst).
  induction pre as [|c pre IH]; rewrite ?append_nil, ?append_cons in *.
  - apply match_here_complete in Hm.
    destruct rest; [done|]. simpl. by rewrite Hm.
  - simpl. rewrite (Hfirst EmptyString (String c (pre +:+ rest)));
      [|done|simpl; lia].
    apply IH. intros pre' rest' Heq Hlen.
    apply (Hfirst (String c pre') rest'); [by rewrite append_cons, Heq|simpl; lia].
Qed.

Lemma getImageNumber_match f g :
  Matches_here f g -> ImageManager.getImageNumber f = Js.parseInt g.
Proof.
  intros H%match_here_complete.
  unfold ImageManager.getImageNumber, Js.match_anchored. by rewrite H.
Qed.

Lemma getImageNumber_no_match f :
  (forall g, ~ Matches_here f g) -> ImageManager.getImageNumber f = -1.
Proof.
  intros H%match_here_None.
  unfold ImageManager.getImageNumber, Js.match_anchored. by rewrite H.
Qed.

Lemma getAudioNumber_match f g :
  Matches_first f g -> AudioManager.getAudioNumber f = Js.parseInt g.
Proof.
  intros H. pose proof (match_unanchored_complete _ _ H) as Hm.
  unfold AudioManager.getAudioNumber.
  destruct (decide (f = EmptyString)) as [->|]; [done|]. by rewrite Hm.
Qed.

Lemma getAudioNumber_no_match f :
  (forall pre rest g, f = pre +:+ rest -> ~ Matches_here rest g) ->
  AudioManager.getAudioNumber f = 0.
Proof.
  intros H. unfold AudioManager.getAudioNumber.
  destruct (decide (f = EmptyString)); [done|].
  destruct (Js.match_unanchored f) as [g|] eqn:E; [|done].
  apply match_unanchored_sound in E as (pre & rest & Heq & Hm & _).
  destruct (H pre rest g Heq Hm).
Qed.

Lemma parseInt_nonneg g : Js.all_digits g = true -> 0 <= Js.parseInt g.
Proof. intros. by apply parse_digits_nonneg. Qed.


(** C2, as the code has it.  The image rule is the stated one: the digits
    at the head of the name that a dot follows, read in base ten, and -1
    (never a value of a match) for every other name; the number is the
    integer the digits denote when that is at most 2^53 - 1.  The audio
    rule is another one: the first place in the name where digits are
    followed by a dot gives the number, within the same bound, and 0
    stands for "none".  On the names the image rule matches the two give
    the same number. *)
Theorem C2_extraction_rules (f : string) :
  (forall g, Matches_here f g ->
     (Js.parseInt g <= Js.MAX_SAFE_INTEGER ->
      ImageManager.getImageNumber f = Js.parseInt g)
     /\ 0 <= ImageManager.getImageNumber f
     /\ AudioManager.getAudioNumber f = ImageManager.getImageNumber f)
  /\ ((forall g, ~ Matches_here f g) -> ImageManager.getImageNumber f = -1)
  /\ (forall g, Matches_first f g ->
        Js.parseInt g <= Js.MAX_SAFE_INTEGER ->
        AudioManager.getAudioNumber f = Js.parseInt g)
  /\ ((forall pre rest g, f = pre +:+ rest -> ~ Matches_here rest g) ->
        AudioManager.getAudioNumber f = 0).
Proof.
  split; [|split; [|split]].
  - intros g Hg. pose proof (getImageNumber_match _ _ Hg) as Hi.
    split; [done|]. split.
    + rewrite Hi. apply parseInt_nonneg. apply Hg.
    + rewrite Hi. apply getAudioNumber_match.
      exists EmptyString, f. split; [done|]. split; [done|].
      intros ? ? _ Hlen. simpl in Hlen. lia.
  - apply getImageNumber_no_match.
  - intros g Hg _. by apply getAudioNumber_match.
  - apply getAudioNumber_no_match.
Qed.

Lemma C2_extraction_rules_witness :
  ImageManager.getImageNumber "12.3.png" = 12
  /\ 0 <= ImageManager.getImageNumber "12.3.png"
  /\ AudioManager.getAudioNumber "12.3.png"
     = ImageManager.getImageNumber "12.3.png".
Proof.
  destruct (proj1 (C2_extraction_rules "12.3.png") "12")
    as (Hvalue & Hpos & Haudio).
  - split; [discriminate|]. split; [reflexivity|]. by exists "3.png".
  - split; [|split; [exact Hpos | exact Haudio]].
    apply Hvalue. vm_compute. discriminate.
Defined.

(** C2 as stated fails for the audio catalog: [a1.mp3] does not start
    with digits, the image rule finds no number in it, and the audio rule
    reads the number 1 from it. *)
Lemma C2_audio_rule_is_not_the_image_rule :
  Js.match_anchored "a1.mp3" = None
  /\ ImageManager.getImageNumber "a1.mp3" = -1
  /\ AudioManager.getAudioNumber "a1.mp3" = 1.
Proof. repeat split. Qed.

(** ** The audio catalog *)

Lemma Math_max0_spec xs :
  0 <= Js.Math_max0 xs
  /\ (forall x, x ∈ xs -> x <= Js.Math_max0 xs)
  /\ (Js.Math_max0 xs = 0 \/ Js.Math_max0 xs ∈ xs).
Proof.
  unfold Js.Math_max0. induction xs as [|x xs (IH0 & IHle & IHin)]; simpl.
  - split; [done|]. split; [by intros ? ?%elem_of_nil | by left].
  - split; [lia|]. split.
    + intros y [->|Hy]%elem_of_cons; [lia|]. specialize (IHle y Hy). lia.
    + destruct (Z.max_spec x (foldr Z.max 0 xs)) as [[_ ->]|[_ ->]].
      * destruct IHin as [->|?]; [by left | right; by right].
      * right. by left.
Qed.


Lemma Array_from_1_elem n rows k :
  Js.Array_from_1 n = Some rows -> k ∈ rows <-> 1 <= k <= n.
Proof.
  unfold Js.Array_from_1. destruct (decide _); [|done]. intros [= <-].
  rewrite list_elem_of_fmap.
  setoid_rewrite elem_of_seq. split.
  - intros (i & -> & Hi). lia.
  - intros Hk. exists (Z.to_nat (k - 1)). lia.
Qed.


Lemma Array_from_1_is_Some n :
  n <= Js.MAX_ARRAY_LENGTH -> is_Some (Js.Array_from_1 n).
Proof. intros Hn. unfold Js.Array_from_1. rewrite decide_True by done. by eexists. Qed.

Lemma Array_from_1_None n :
  Js.MAX_ARRAY_LENGTH < n -> Js.Array_from_1 n = None.
Proof. intros Hn. unfold Js.Array_from_1. rewrite decide_False by lia. done. Qed.





(** ** Headers from the store *)

Lemma getAuthHeaders_total `{Platform} (storage : gmap string string) :
  exists h, ImageManager.getAuthHeaders storage = Ok h.
Proof.
  unfold ImageManager.getAuthHeaders.
  destruct (storage !! "admin_auth") as [text|]; [|by eexists].
  destruct (decide (text = EmptyString)); [by eexists|].
  unfold catch. destruct (_ ≫= _); by eexists.
Qed.

Lemma getAuthHeaders_headersOf `{Platform} (w : World.t) :
  ImageManager.getAuthHeaders (World.sessionStorage w) = Ok (headersOf w).
Proof.
  unfold headersOf.
  destruct (getAuthHeaders_total (World.sessionStorage w)) as [h ->]. done.
Qed.

(** ** Runs *)

Lemma run_act_bind {A B} env past (p : Act A) (f : A -> Act B) :
  run env past (act_bind p f)
  = run env (run env past p).1 (f (run env past p).2).
Proof.
  revert past. induction p; intros past; simpl; auto.
Qed.

Lemma run_bind {A B} env past (m : M A) (f : A -> M B) w :
  run env past (M.bind m f w) = then_bind env f (run env past (m w)).
Proof.
  unfold M.bind, then_bind. rewrite run_act_bind.
  destruct (run env past (m w)) as [past' [w' [a|e]]]; reflexivity.
Qed.

Lemma run_try_catch {A} env past (body : M A) handler w :
  run env past (M.try_catch body handler w)
  = then_catch env handler (run env past (body w)).
Proof.
  unfold M.try_catch, then_catch. rewrite run_act_bind.
  destruct (run env past (body w)) as [past' [w' [a|e]]]; reflexivity.
Qed.

Lemma run_try_finally {A} env past (body : M A) after w :
  run env past (M.try_finally body after w)
  = then_finally env after (run env past (body w)).
Proof.
  unfold M.try_finally, then_finally. rewrite run_act_bind.
  destruct (run env past (body w)) as [past' [w' r]]; simpl.
  rewrite run_act_bind.
  destruct (run env past' (after w')) as [past'' [w'' [[]|e]]]; reflexivity.
Qed.

Lemma then_bind_Ok {A B} env (f : A -> M B) past w a :
  then_bind env f (past, (w, Ok a)) = run env past (f a w).
Proof. reflexivity. Qed.

Lemma then_bind_Thrown {A B} env (f : A -> M B) past w e :
  then_bind env f (past, (w, Thrown e)) = (past, (w, Thrown e)).
Proof. reflexivity. Qed.

Lemma then_catch_Ok {A} env (h : Exn -> M A) past w a :
  then_catch env h (past, (w, Ok a)) = (past, (w, Ok a)).
Proof. reflexivity. Qed.

Lemma then_catch_Thrown {A} env (h : Exn -> M A) past w e :
  then_catch env h (past, (w, Thrown e)) = run env past (h e w).
Proof. reflexivity. Qed.

Lemma then_finally_run {A} env (after : M unit) past w (r : Result A) past' w' :
  run env past (after w) = (past', (w', Ok tt)) ->
  then_finally env after (past, (w, r)) = (past', (w', r)).
Proof. unfold then_finally. simpl. by intros ->. Qed.

Lemma run_fetch env past req w :
  run env past (M.fetch req w)
  = (past ++ [Fetched req (Env.reply env past req)],
     (w, match Env.reply env past req with
         | Replied r => Ok r
         | Rejected => Thrown FetchFailed
         end)).
Proof. unfold M.fetch. simpl. by destruct (Env.reply env past req). Qed.

Lemma run_confirm env past msg w :
  run env past (M.confirm msg w)
  = (past ++ [Confirmed msg (Env.answer env past msg)],
     (w, Ok (Env.answer env past msg))).
Proof. reflexivity. Qed.

Lemma run_alert env past msg w :
  run env past (M.alert msg w) = (past ++ [Alerted msg], (w, Ok tt)).
Proof. reflexivity. Qed.

Lemma run_console env past msg w :
  run env past (M.console msg w) = (past ++ [Logged msg], (w, Ok tt)).
Proof. reflexivity. Qed.

Lemma run_now env past w :
  run env past (M.now w)
  = (past ++ [Clock (Env.clock env past)], (w, Ok (Env.clock env past))).
Proof. reflexivity. Qed.

Lemma run_lift {A} env past (r : Result A) w :
  run env past (M.lift r w) = (past, (w, r)).
Proof. reflexivity. Qed.

Lemma run_ret {A} env past (a : A) w : run env past (M.ret a w) = (past, (w, Ok a)).
Proof. reflexivity. Qed.

Lemma run_throw {A} env past e w :
  run env past (@M.throw A e w) = (past, (w, Thrown e)).
Proof. reflexivity. Qed.

Lemma run_get env past w : run env past (M.get w) = (past, (w, Ok w)).
Proof. reflexivity. Qed.

Lemma run_modify env past f w : run env past (M.modify f w) = (past, (f w, Ok tt)).
Proof. reflexivity. Qed.

Lemma requests_app tr tr' : requests (tr ++ tr') = requests tr ++ requests tr'.
Proof. apply omap_app. Qed.

Lemma alerts_app tr tr' : alerts (tr ++ tr') = alerts tr ++ alerts tr'.
Proof. apply omap_app. Qed.

Global Opaque M.bind M.try_catch M.try_finally M.fetch M.confirm M.alert
  M.console M.now M.lift M.ret M.throw M.get M.modify.
Global Opaque then_bind then_catch then_finally.
Global Arguments Response.ok : simpl never.
Global Arguments Response.json : simpl never.

(** One step of a run: the innermost construct that can move. *)
Ltac run_step :=
  first
    [ rewrite run_bind | rewrite run_try_catch | rewrite run_try_finally
    | rewrite run_fetch | rewrite run_confirm | rewrite run_alert
    | rewrite run_console | rewrite run_now | rewrite run_lift
    | rewrite run_ret | rewrite run_throw | rewrite run_get
    | rewrite run_modify
    | rewrite then_bind_Ok | rewrite then_bind_Thrown
    | rewrite then_catch_Ok | rewrite then_catch_Thrown
    | erewrite then_finally_run by (rewrite run_modify; reflexivity) ].

Ltac run_all := repeat first [run_step | progress simpl].

Lemma fetchImages_run `{Platform} env past category w :
  let req := ImageManager.listRequest (headersOf w) in
  let reply := Env.reply env past req in
  exists evs w',
    run env past (ImageManager.fetchImages category w)
    = (past ++ Fetched req reply :: evs, (w', Ok tt))
    /\ requests evs = [] /\ alerts evs = []
    /\ World.sessionStorage w' = World.sessionStorage w
    /\ World.home w' = World.home w
    /\ World.audioManager w' = World.audioManager w
    /\ ImageState.images (World.imageManager w') = listingAfter category w reply
    /\ ImageState.uploading (World.imageManager w')
       = ImageState.uploading (World.imageManager w)
    /\ ImageState.selectedSubcategory (World.imageManager w')
       = ImageState.selectedSubcategory (World.imageManager w).
Proof.
  intros req reply.
  unfold ImageManager.fetchImages, ImageManager.authHeaders,
    ImageManager.setLoading, ImageManager.setImages, ImageManager.setCacheKey,
    ImageManager.update.
  run_all. rewrite (getAuthHeaders_headersOf w). run_all.
  fold req. fold reply. unfold listingAfter, imagesIn.
  destruct reply as [|[status [| |[cats [l|] auds det]]]];
    unfold Response.json; run_all;
    (eexists _, _; split; [by rewrite <- ?app_assoc|]; done).
Qed.

Lemma json_body r :
  Response.json r
  = match Response.body r with NotJson => Thrown SyntaxError | b => Ok b end.
Proof. reflexivity. Qed.

Ltac close_run :=
  eexists _, _; split; [by rewrite <- ?app_assoc|]; done.

Lemma handleUpload_run `{Platform} env past category file ty w :
  let h := headersOf w in
  let req := ImageManager.uploadRequest h category
               (ImageState.selectedSubcategory (World.imageManager w)) file ty in
  let reply := Env.reply env past req in
  let lreq := ImageManager.listRequest h in
  let lreply := Env.reply env (past ++ [Fetched req reply]) lreq in
  exists evs w',
    run env past (ImageManager.handleUpload category file ty w)
    = (past ++ Fetched req reply :: evs, (w', Ok tt))
    /\ World.sessionStorage w' = World.sessionStorage w
    /\ World.home w' = World.home w
    /\ World.audioManager w' = World.audioManager w
    /\ if succeeded reply
       then requests evs = [lreq]
            /\ imagesOf w' = listingAfter category w lreply
            /\ alerts evs
               = [(if ImageManager.isVideo category then "Video" else "Image")
                  +:+ " uploaded successfully!"]
       else requests evs = []
            /\ imagesOf w' = imagesOf w
            /\ alerts evs = [failureAlert "Upload" reply].
Proof.
  intros h req reply lreq lreply.
  unfold ImageManager.handleUpload, ImageManager.authHeaders,
    ImageManager.setUploading, ImageManager.update, ImageManager.detailOf.
  run_all. rewrite (getAuthHeaders_headersOf w). run_all.
  fold h. fold req. fold reply. subst lreply.
  unfold succeeded, failureAlert.
  destruct reply as [|r] eqn:Hreply; run_all; [close_run|].
  destruct (Response.ok r) eqn:Hok; run_all.
  - match goal with
    | |- context [run ?e ?p (ImageManager.fetchImages ?c ?w1)] =>
        destruct (fetchImages_run e p c w1)
          as (evs & w2 & Hrun & Hreq & Hal & Hst & Hhome & Haud & Himg & Hup & Hsub)
    end.
    rewrite Hrun. run_all.
    eexists _, _. split; [by rewrite <- ?app_assoc|].
    rewrite !requests_app, !alerts_app. simpl. rewrite Hreq, Hal.
    unfold imagesOf. simpl. rewrite Hst, Hhome, Haud, Himg. done.
  - rewrite json_body.
    destruct (Response.body r) as [| |data] eqn:Hbody; run_all; close_run.
Qed.

Lemma handleDelete_declined `{Platform} env past category img w :
  let msg := "Delete " +:+ S3Image.filename img +:+ "?" in
  Env.answer env past msg = false ->
  run env past (ImageManager.handleDelete category img w)
  = (past ++ [Confirmed msg false], (w, Ok tt)).
Proof.
  intros msg Hans. unfold ImageManager.handleDelete.
  run_all. fold msg. rewrite Hans. by run_all.
Qed.

Lemma handleDelete_run `{Platform} env past category img w :
  let msg := "Delete " +:+ S3Image.filename img +:+ "?" in
  let past1 := past ++ [Confirmed msg true] in
  let h := headersOf w in
  let req := ImageManager.deleteRequest h img in
  let reply := Env.reply env past1 req in
  let lreq := ImageManager.listRequest h in
  let lreply := Env.reply env (past1 ++ [Fetched req reply]) lreq in
  Env.answer env past msg = true ->
  exists evs w',
    run env past (ImageManager.handleDelete category img w)
    = (past1 ++ Fetched req reply :: evs, (w', Ok tt))
    /\ World.sessionStorage w' = World.sessionStorage w
    /\ World.home w' = World.home w
    /\ World.audioManager w' = World.audioManager w
    /\ if succeeded reply
       then requests evs = [lreq]
            /\ imagesOf w' = listingAfter category w lreply
            /\ alerts evs = ["Image deleted successfully!"]
       else requests evs = []
            /\ imagesOf w' = imagesOf w
            /\ alerts evs = [failureAlert "Delete" reply].
Proof.
  intros msg past1 h req reply lreq lreply Hans.
  unfold ImageManager.handleDelete, ImageManager.authHeaders,
    ImageManager.detailOf.
  run_all. fold msg. rewrite Hans. run_all.
  rewrite (getAuthHeaders_headersOf w). run_all.
  fold h. fold req. fold past1. fold reply. subst lreply.
  unfold succeeded, failureAlert.
  destruct reply as [|r] eqn:Hreply; run_all; [close_run|].
  destruct (Response.ok r) eqn:Hok; run_all.
  - match goal with
    | |- context [run ?e ?p (ImageManager.fetchImages ?c ?w1)] =>
        destruct (fetchImages_run e p c w1)
          as (evs & w2 & Hrun & Hreq & Hal & Hst & Hhome & Haud & Himg & Hup & Hsub)
    end.
    rewrite Hrun. run_all.
    eexists _, _. split; [by rewrite <- ?app_assoc|].
    rewrite !requests_app, !alerts_app. simpl. rewrite Hreq, Hal.
    unfold imagesOf. rewrite Hst, Hhome, Haud, Himg. done.
  - rewrite json_body.
    destruct (Response.body r) as [| |data] eqn:Hbody; run_all; close_run.
Qed.

Lemma fetchAudios_run env past w :
  let reply := Env.reply env past AudioManager.listRequest in
  exists evs w',
    run env past (AudioManager.fetchAudios w)
    = (past ++ Fetched AudioManager.listRequest reply :: evs, (w', Ok tt))
    /\ requests evs = [] /\ alerts evs = []
    /\ World.sessionStorage w' = World.sessionStorage w
    /\ World.home w' = World.home w
    /\ World.imageManager w' = World.imageManager w
    /\ audiosOf w' = audiosAfter w reply.
Proof.
  intros reply.
  unfold AudioManager.fetchAudios, AudioManager.setLoading,
    AudioManager.setAudios, AudioManager.update.
  run_all. fold reply. unfold audiosAfter, audiosOf.
  destruct reply as [|r]; run_all; [close_run|].
  rewrite json_body.
  destruct (Response.body r) as [| |data] eqn:Hbody; run_all; close_run.
Qed.

Lemma handleFileSelect_run env past category file w :
  let req := AudioManager.uploadRequest category file in
  let reply := Env.reply env past req in
  let lreq := AudioManager.listRequest in
  let lreply := Env.reply env (past ++ [Fetched req reply]) lreq in
  exists evs w',
    run env past (AudioManager.handleFileSelect category file w)
    = (past ++ Fetched req reply :: evs, (w', Ok tt))
    /\ World.sessionStorage w' = World.sessionStorage w
    /\ World.home w' = World.home w
    /\ World.imageManager w' = World.imageManager w
    /\ if succeeded reply
       then requests evs = [lreq]
            /\ audiosOf w' = audiosAfter w lreply
            /\ alerts evs = ["Audio uploaded successfully!"]
       else requests evs = []
            /\ audiosOf w' = audiosOf w
            /\ alerts evs = [failureAlert "Upload" reply].
Proof.
  intros req reply lreq lreply.
  unfold AudioManager.handleFileSelect, AudioManager.setUploading,
    AudioManager.update, AudioManager.detailOf.
  run_all. fold req. fold reply. subst lreply.
  unfold succeeded, failureAlert.
  destruct reply as [|r] eqn:Hreply; run_all; [close_run|].
  destruct (Response.ok r) eqn:Hok; run_all.
  - match goal with
    | |- context [run ?e ?p (AudioManager.fetchAudios ?w1)] =>
        destruct (fetchAudios_run e p w1)
          as (evs & w2 & Hrun & Hreq & Hal & Hst & Hhome & Him & Haud)
    end.
    rewrite Hrun. run_all.
    eexists _, _. split; [by rewrite <- ?app_assoc|].
    rewrite !requests_app, !alerts_app. simpl. rewrite Hreq, Hal.
    unfold audiosOf in *. simpl. rewrite Hst, Hhome, Him, Haud. done.
  - rewrite json_body.
    destruct (Response.body r) as [| |data] eqn:Hbody; run_all; close_run.
Qed.

Lemma audio_handleDelete_declined env past audio w :
  let msg := "Delete " +:+ AudioFile.filename audio +:+ "?" in
  Env.answer env past msg = false ->
  run env past (AudioManager.handleDelete audio w)
  = (past ++ [Confirmed msg false], (w, Ok tt)).
Proof.
  intros msg Hans. unfold AudioManager.handleDelete.
  run_all. fold msg. rewrite Hans. by run_all.
Qed.

Lemma audio_handleDelete_run env past audio w :
  let msg := "Delete " +:+ AudioFile.filename audio +:+ "?" in
  let past1 := past ++ [Confirmed msg true] in
  let req := AudioManager.deleteRequest audio in
  let reply := Env.reply env past1 req in
  let lreq := AudioManager.listRequest in
  let lreply := Env.reply env (past1 ++ [Fetched req reply]) lreq in
  Env.answer env past msg = true ->
  exists evs w',
    run env past (AudioManager.handleDelete audio w)
    = (past1 ++ Fetched req reply :: evs, (w', Ok tt))
    /\ World.sessionStorage w' = World.sessionStorage w
    /\ World.home w' = World.home w
    /\ World.imageManager w' = World.imageManager w
    /\ if succeeded reply
       then requests evs = [lreq]
            /\ audiosOf w' = audiosAfter w lreply
            /\ alerts evs = []
       else requests evs = []
            /\ audiosOf w' = audiosOf w
            /\ alerts evs = [failureAlert "Delete" reply].
Proof.
  intros msg past1 req reply lreq lreply Hans.
  unfold AudioManager.handleDelete, AudioManager.detailOf.
  run_all. fold msg. rewrite Hans. run_all.
  fold req. fold past1. fold reply. subst lreply.
  unfold succeeded, failureAlert.
  destruct reply as [|r] eqn:Hreply; run_all; [close_run|].
  destruct (Response.ok r) eqn:Hok; run_all.
  - match goal with
    | |- context [run ?e ?p (AudioManager.fetchAudios ?w1)] =>
        destruct (fetchAudios_run e p w1)
          as (evs & w2 & Hrun & Hreq & Hal & Hst & Hhome & Him & Haud)
    end.
    rewrite Hrun. run_all.
    eexists _, _. split; [by rewrite <- ?app_assoc|].
    simpl. rewrite Hreq, Hal.
    unfold audiosOf in *. simpl. rewrite Hst, Hhome, Him, Haud. done.
  - rewrite json_body.
    destruct (Response.body r) as [| |data] eqn:Hbody; run_all; close_run.
Qed.

(** ** The credential gate *)

Lemma ok_not_401 r : Response.ok r = true -> Response.status r <> 401.
Proof. unfold Response.ok. intros [? ?]%andb_true_iff. lia. Qed.

Lemma handleLogin_run `{Platform} env past username password encoded w :
  btoa (username +:+ ":" +:+ password) = Some encoded ->
  let req := Home.categoriesRequest ("Basic " +:+ encoded) in
  let reply := Env.reply env past req in
  let h := World.home w in
  exists evs w',
    run env past (Home.handleLogin username password w)
    = (past ++ Fetched req reply :: evs, (w', Ok tt))
    /\ requests evs = [] /\ alerts evs = []
    /\ World.imageManager w' = World.imageManager w
    /\ World.audioManager w' = World.audioManager w
    /\ HomeState.loading (World.home w') = false
    /\ HomeState.categories (World.home w') = HomeState.categories h
    /\ HomeState.selectedCategory (World.home w') = HomeState.selectedCategory h
    /\ match reply with
       | Replied r =>
           if decide (Response.status r = 401) then
             HomeState.authError (World.home w') = "Invalid username or password"
             /\ HomeState.isAuthenticated (World.home w') = HomeState.isAuthenticated h
             /\ HomeState.credentials (World.home w') = HomeState.credentials h
             /\ World.sessionStorage w' = World.sessionStorage w
           else if Response.ok r then
             HomeState.authError (World.home w') = EmptyString
             /\ HomeState.isAuthenticated (World.home w') = true
             /\ HomeState.credentials (World.home w')
                = JsValue.creds username password
             /\ World.sessionStorage w'
                = <["admin_auth" := JSON_stringify (JsValue.creds username password)]>
                    (World.sessionStorage w)
           else
             HomeState.authError (World.home w') = "Authentication failed"
             /\ HomeState.isAuthenticated (World.home w') = HomeState.isAuthenticated h
             /\ HomeState.credentials (World.home w') = HomeState.credentials h
             /\ World.sessionStorage w' = World.sessionStorage w
       | Rejected =>
           HomeState.authError (World.home w') = "Failed to connect to server"
           /\ HomeState.isAuthenticated (World.home w') = HomeState.isAuthenticated h
           /\ HomeState.credentials (World.home w') = HomeState.credentials h
           /\ World.sessionStorage w' = World.sessionStorage w
       end.
Proof.
  intros Hb req reply h.
  unfold Home.handleLogin, Home.setAuthError, Home.setLoading,
    Home.setCredentials, Home.setIsAuthenticated, Home.update,
    SessionStorage.setItem, base64.
  rewrite Hb. run_all. fold req. fold reply.
  destruct reply as [|r]; run_all; [close_run|].
  destruct (decide (Response.status r = 401)); run_all; [close_run|].
  destruct (Response.ok r); run_all; close_run.
Qed.

(** When [btoa] throws on the submitted credentials no probe is sent. *)
Lemma handleLogin_not_encodable `{Platform} env past username password w :
  btoa (username +:+ ":" +:+ password) = None ->
  exists evs w',
    run env past (Home.handleLogin username password w)
    = (past ++ evs, (w', Ok tt))
    /\ requests evs = []
    /\ HomeState.authError (World.home w') = "Failed to connect to server"
    /\ HomeState.isAuthenticated (World.home w')
       = HomeState.isAuthenticated (World.home w)
    /\ World.sessionStorage w' = World.sessionStorage w.
Proof.
  intros Hb.
  unfold Home.handleLogin, Home.setAuthError, Home.setLoading, Home.update, base64.
  rewrite Hb. run_all. eexists [_], _. done.
Qed.

Lemma truthy_get v k :
  JsValue.truthy v = true -> exists x, JsValue.get v k = Ok x.
Proof. destruct v; simpl; intros; try done; by eexists. Qed.

Lemma fetchCategories_run `{Platform} env past encoded w :
  let h := World.home w in
  JsValue.truthy (HomeState.credentials h) = true ->
  HomeState.isAuthenticated h = true ->
  btoa (userPass (HomeState.credentials h)) = Some encoded ->
  let req := Home.categoriesRequest ("Basic " +:+ encoded) in
  let reply := Env.reply env past req in
  exists evs w',
    run env past (Home.fetchCategories w)
    = (past ++ Fetched req reply :: evs, (w', Ok tt))
    /\ requests evs = [] /\ alerts evs = []
    /\ (forall r, reply = Replied r -> Response.status r = 401 ->
          evs = []
          /\ HomeState.isAuthenticated (World.home w') = false
          /\ HomeState.credentials (World.home w') = JNull
          /\ World.sessionStorage w' = delete "admin_auth" (World.sessionStorage w)
          /\ HomeState.categories (World.home w') = []
          /\ HomeState.selectedCategory (World.home w') = EmptyString).
Proof.
  intros h Htruthy Hauth Hb req reply.
  unfold Home.fetchCategories. run_all.
  fold h. rewrite Htruthy, Hauth. simpl.
  unfold userPass in Hb.
  destruct (truthy_get _ "username" Htruthy) as [u Hu].
  destruct (truthy_get _ "password" Htruthy) as [p Hp].
  rewrite Hu, Hp in Hb. rewrite Hu, Hp. run_all. unfold base64. rewrite Hb.
  unfold Home.handleLogout, Home.setIsAuthenticated, Home.setCredentials,
    Home.setCategories, Home.setSelectedCategory, Home.update,
    SessionStorage.removeItem.
  run_all. fold req. fold reply.
  destruct reply as [|r]; run_all.
  { eexists _, _. split; [by rewrite <- ?app_assoc|]. done. }
  destruct (decide (Response.status r = 401)) as [H401|H401]; run_all.
  { eexists [], _. split; [done|]. done. }
  rewrite json_body.
  destruct (Response.body r) as [| |[[[|c cs]|] ? ? ?]]; run_all;
    (eexists _, _; split; [by rewrite <- ?app_assoc|];
     split; [done|]; split; [done|]; intros r' [= <-] ?; done).
Qed.

Lemma exec_run {A} env (m : M A) w past' w' r :
  run env [] (m w) = (past', (w', r)) ->
  trace env m w = past' /\ final env m w = w' /\ outcome env m w = r.
Proof. unfold trace, final, outcome, exec. by intros ->. Qed.

(** C6: the login probe.  The probe goes to the categories endpoint with
    the submitted credentials.  A 401 gives the error "Invalid username or
    password", any other status outside 200-299 gives "Authentication
    failed", no reply gives "Failed to connect to server", and in these
    three cases the session and the stored credentials stay as they were;
    a status in 200-299 stores the credentials and authenticates the
    session.  So a session that was not authenticated becomes so exactly
    when the probe succeeded. *)
Theorem C6_login_probe `{Platform} (env : Env.t) (w : World.t)
    (username password encoded : string) :
  btoa (username +:+ ":" +:+ password) = Some encoded ->
  let login := Home.handleLogin username password in
  let req := Home.categoriesRequest ("Basic " +:+ encoded) in
  let reply := Env.reply env [] req in
  let before := World.home w in
  let after := World.home (final env login w) in
  let unchanged :=
    HomeState.isAuthenticated after = HomeState.isAuthenticated before
    /\ HomeState.credentials after = HomeState.credentials before
    /\ World.sessionStorage (final env login w) = World.sessionStorage w in
  requests (trace env login w) = [req]
  /\ Request.url req = apiUrl +:+ "/admin/examples/categories"
  /\ carries ("Basic " +:+ encoded) req
  /\ HomeState.loading after = false
  /\ match reply with
     | Replied r =>
         if decide (Response.status r = 401) then
           HomeState.authError after = "Invalid username or password" /\ unchanged
         else if Response.ok r then
           HomeState.authError after = EmptyString
           /\ HomeState.isAuthenticated after = true
           /\ HomeState.credentials after = JsValue.creds username password
           /\ World.sessionStorage (final env login w)
              = <["admin_auth" := JSON_stringify (JsValue.creds username password)]>
                  (World.sessionStorage w)
         else
           HomeState.authError after = "Authentication failed" /\ unchanged
     | Rejected =>
         HomeState.authError after = "Failed to connect to server" /\ unchanged
     end
  /\ (HomeState.isAuthenticated before = false ->
      (HomeState.isAuthenticated after = true <-> succeeded reply = true)).
Proof.
  intros Hb login req reply before after unchanged.
  destruct (handleLogin_run env [] username password encoded w Hb)
    as (evs & w' & Hrun & Hreq & Hal & Him & Haud & Hload & Hcat & Hsel & Hcase).
  apply exec_run in Hrun as (Htr & Hfin & _).
  subst unchanged after login. rewrite Htr, Hfin. simpl. rewrite Hreq.
  fold req reply in Hcase |- *. fold before in Hcase.
  split; [done|]. split; [done|].
  split; [apply lookup_singleton_eq|]. split; [done|]. split.
  - destruct reply as [|r]; [tauto|].
    destruct (decide (Response.status r = 401)); [tauto|].
    destruct (Response.ok r); tauto.
  - intros Hout. unfold succeeded. destruct reply as [|r].
    + destruct Hcase as (_ & -> & _). rewrite Hout. done.
    + destruct (decide (Response.status r = 401)) as [H401|H401].
      * destruct Hcase as (_ & -> & _). rewrite Hout.
        split; [done|]. intros Hok%ok_not_401. done.
      * destruct (Response.ok r).
        -- destruct Hcase as (_ & -> & _). done.
        -- destruct Hcase as (_ & -> & _). rewrite Hout. done.
Qed.

Lemma C6_login_probe_witness :
  let env := Sample.always (Sample.failure 401 "Unauthorized") in
  let login := @Home.handleLogin Sample.local "admin" "wrong" in
  HomeState.authError (World.home (final env login Sample.loggedOut))
  = "Invalid username or password"
  /\ HomeState.isAuthenticated (World.home (final env login Sample.loggedOut))
     = false.
Proof.
  intros env login.
  destruct (@C6_login_probe Sample.local env Sample.loggedOut
              "admin" "wrong" "YWRtaW46d3Jvbmc=" eq_refl)
    as (_ & _ & _ & _ & Hcase & _).
  simpl in Hcase. destruct Hcase as (Herr & Hauth & _).
  split; [exact Herr | exact Hauth].
Defined.

(** ** Uploads and deletes *)

Lemma image_upload_outcome `{Platform} env w category file ty :
  let upload := ImageManager.handleUpload category file ty in
  let h := headersOf w in
  let req := ImageManager.uploadRequest h category
               (ImageState.selectedSubcategory (World.imageManager w)) file ty in
  let reply := Env.reply env [] req in
  let lreq := ImageManager.listRequest h in
  World.home (final env upload w) = World.home w
  /\ World.sessionStorage (final env upload w) = World.sessionStorage w
  /\ if succeeded reply
     then requests (trace env upload w) = [req; lreq]
          /\ imagesOf (final env upload w)
             = listingAfter category w (Env.reply env [Fetched req reply] lreq)
     else requests (trace env upload w) = [req]
          /\ imagesOf (final env upload w) = imagesOf w
          /\ alerts (trace env upload w) = [failureAlert "Upload" reply].
Proof.
  intros upload h req reply lreq.
  destruct (handleUpload_run env [] category file ty w)
    as (evs & w' & Hrun & Hst & Hhome & Haud & Hcase).
  apply exec_run in Hrun as (Htr & Hfin & _).
  subst upload. rewrite Htr, Hfin. fold h req reply lreq in Hcase.
  split; [done|]. split; [done|]. simpl.
  destruct (succeeded reply).
  - destruct Hcase as (-> & ? & _). done.
  - destruct Hcase as (-> & ? & ->). done.
Qed.

Lemma image_delete_outcome `{Platform} env w category img :
  let delete := ImageManager.handleDelete category img in
  let msg := "Delete " +:+ S3Image.filename img +:+ "?" in
  let h := headersOf w in
  let req := ImageManager.deleteRequest h img in
  let reply := Env.reply env [Confirmed msg true] req in
  let lreq := ImageManager.listRequest h in
  World.home (final env delete w) = World.home w
  /\ World.sessionStorage (final env delete w) = World.sessionStorage w
  /\ (Env.answer env [] msg = false ->
        requests (trace env delete w) = []
        /\ imagesOf (final env delete w) = imagesOf w)
  /\ (Env.answer env [] msg = true ->
        if succeeded reply
        then requests (trace env delete w) = [req; lreq]
             /\ imagesOf (final env delete w)
                = listingAfter category w
                    (Env.reply env [Confirmed msg true; Fetched req reply] lreq)
        else requests (trace env delete w) = [req]
             /\ imagesOf (final env delete w) = imagesOf w
             /\ alerts (trace env delete w) = [failureAlert "Delete" reply]).
Proof.
  intros delete msg h req reply lreq.
  destruct (Env.answer env [] msg) eqn:Hans.
  - destruct (handleDelete_run env [] category img w Hans)
      as (evs & w' & Hrun & Hst & Hhome & Haud & Hcase).
    apply exec_run in Hrun as (Htr & Hfin & _).
    subst delete. rewrite Htr, Hfin. simpl in Hcase.
    fold msg in Hcase. fold h in Hcase. fold req in Hcase.
    fold reply in Hcase. fold lreq in Hcase.
    split; [done|]. split; [done|]. split; [done|]. intros _. simpl.
    destruct (succeeded reply).
    + destruct Hcase as (-> & ? & _). done.
    + destruct Hcase as (-> & ? & ->). done.
  - pose proof (handleDelete_declined env [] category img w Hans) as Hrun.
    apply exec_run in Hrun as (Htr & Hfin & _).
    subst delete. rewrite Htr, Hfin. done.
Qed.

Lemma audio_upload_outcome env w category file :
  let upload := AudioManager.handleFileSelect category file in
  let req := AudioManager.uploadRequest category file in
  let reply := Env.reply env [] req in
  let lreq := AudioManager.listRequest in
  World.home (final env upload w) = World.home w
  /\ World.sessionStorage (final env upload w) = World.sessionStorage w
  /\ if succeeded reply
     then requests (trace env upload w) = [req; lreq]
          /\ audiosOf (final env upload w)
             = audiosAfter w (Env.reply env [Fetched req reply] lreq)
     else requests (trace env upload w) = [req]
          /\ audiosOf (final env upload w) = audiosOf w
          /\ alerts (trace env upload w) = [failureAlert "Upload" reply].
Proof.
  intros upload req reply lreq.
  destruct (handleFileSelect_run env [] category file w)
    as (evs & w' & Hrun & Hst & Hhome & Him & Hcase).
  apply exec_run in Hrun as (Htr & Hfin & _).
  subst upload. rewrite Htr, Hfin. fold req reply lreq in Hcase.
  split; [done|]. split; [done|]. simpl.
  destruct (succeeded reply).
  - destruct Hcase as (-> & ? & _). done.
  - destruct Hcase as (-> & ? & ->). done.
Qed.

Lemma audio_delete_outcome env w audio :
  let delete := AudioManager.handleDelete audio in
  let msg := "Delete " +:+ AudioFile.filename audio +:+ "?" in
  let req := AudioManager.deleteRequest audio in
  let reply := Env.reply env [Confirmed msg true] req in
  let lreq := AudioManager.listRequest in
  World.home (final env delete w) = World.home w
  /\ World.sessionStorage (final env delete w) = World.sessionStorage w
  /\ (Env.answer env [] msg = false ->
        requests (trace env delete w) = []
        /\ audiosOf (final env delete w) = audiosOf w)
  /\ (Env.answer env [] msg = true ->
        if succeeded reply
        then requests (trace env delete w) = [req; lreq]
             /\ audiosOf (final env delete w)
                = audiosAfter w
                    (Env.reply env [Confirmed msg true; Fetched req reply] lreq)
        else requests (trace env delete w) = [req]
             /\ audiosOf (final env delete w) = audiosOf w
             /\ alerts (trace env delete w) = [failureAlert "Delete" reply]).
Proof.
  intros delete msg req reply lreq.
  destruct (Env.answer env [] msg) eqn:Hans.
  - destruct (audio_handleDelete_run env [] audio w Hans)
      as (evs & w' & Hrun & Hst & Hhome & Him & Hcase).
    apply exec_run in Hrun as (Htr & Hfin & _).
    subst delete. rewrite Htr, Hfin. simpl in Hcase.
    fold msg in Hcase. fold req in Hcase.
    fold reply in Hcase. fold lreq in Hcase.
    split; [done|]. split; [done|]. split; [done|]. intros _. simpl.
    destruct (succeeded reply).
    + destruct Hcase as (-> & ? & _). done.
    + destruct Hcase as (-> & ? & ->). done.
  - pose proof (audio_handleDelete_declined env [] audio w Hans) as Hrun.
    apply exec_run in Hrun as (Htr & Hfin & _).
    subst delete. rewrite Htr, Hfin. done.
Qed.


(** C5: uploads and deletes, of images and of audio.  After a response
    with a status in 200-299 the handler sends the list request, and the
    listing on display is what the reply to that request gives (the
    listing is left as it was when that reply carries none); nothing is
    inserted or removed locally.  After any other response no further
    request is sent, the listing is left as it was, and the operator is
    told "Upload failed: " or "Delete failed: " followed by the detail of
    the error body. *)
Theorem C5_mutations_refetch_or_report `{Platform} (env : Env.t) (w : World.t) :
  (forall category file ty r,
     let upload := ImageManager.handleUpload category file ty in
     let req := ImageManager.uploadRequest (headersOf w) category
                  (ImageState.selectedSubcategory (World.imageManager w)) file ty in
     let lreq := ImageManager.listRequest (headersOf w) in
     Env.reply env [] req = Replied r ->
     (Response.ok r = true ->
        requests (trace env upload w) = [req; lreq]
        /\ imagesOf (final env upload w)
           = listingAfter category w (Env.reply env [Fetched req (Replied r)] lreq))
     /\ (Response.ok r = false ->
        requests (trace env upload w) = [req]
        /\ imagesOf (final env upload w) = imagesOf w
        /\ forall data, Response.body r = Json data ->
             alerts (trace env upload w)
             = ["Upload failed: " +:+ JsValue.ToString (Data.detail data)]))
  /\ (forall category img r,
     let delete := ImageManager.handleDelete category img in
     let msg := "Delete " +:+ S3Image.filename img +:+ "?" in
     let req := ImageManager.deleteRequest (headersOf w) img in
     let lreq := ImageManager.listRequest (headersOf w) in
     Env.answer env [] msg = true ->
     Env.reply env [Confirmed msg true] req = Replied r ->
     (Response.ok r = true ->
        requests (trace env delete w) = [req; lreq]
        /\ imagesOf (final env delete w)
           = listingAfter category w
               (Env.reply env [Confirmed msg true; Fetched req (Replied r)] lreq))
     /\ (Response.ok r = false ->
        requests (trace env delete w) = [req]
        /\ imagesOf (final env delete w) = imagesOf w
        /\ forall data, Response.body r = Json data ->
             alerts (trace env delete w)
             = ["Delete failed: " +:+ JsValue.ToString (Data.detail data)]))
  /\ (forall category file r,
     let upload := AudioManager.handleFileSelect category file in
     let req := AudioManager.uploadRequest category file in
     let lreq := AudioManager.listRequest in
     Env.reply env [] req = Replied r ->
     (Response.ok r = true ->
        requests (trace env upload w) = [req; lreq]
        /\ audiosOf (final env upload w)
           = audiosAfter w (Env.reply env [Fetched req (Replied r)] lreq))
     /\ (Response.ok r = false ->
        requests (trace env upload w) = [req]
        /\ audiosOf (final env upload w) = audiosOf w
        /\ forall data, Response.body r = Json data ->
             alerts (trace env upload w)
             = ["Upload failed: " +:+ JsValue.ToString (Data.detail data)]))
  /\ (forall audio r,
     let delete := AudioManager.handleDelete audio in
     let msg := "Delete " +:+ AudioFile.filename audio +:+ "?" in
     let req := AudioManager.deleteRequest audio in
     let lreq := AudioManager.listRequest in
     Env.answer env [] msg = true ->
     Env.reply env [Confirmed msg true] req = Replied r ->
     (Response.ok r = true ->
        requests (trace env delete w) = [req; lreq]
        /\ audiosOf (final env delete w)
           = audiosAfter w
               (Env.reply env [Confirmed msg true; Fetched req (Replied r)] lreq))
     /\ (Response.ok r = false ->
        requests (trace env delete w) = [req]
        /\ audiosOf (final env delete w) = audiosOf w
        /\ forall data, Response.body r = Json data ->
             alerts (trace env delete w)
             = ["Delete failed: " +:+ JsValue.ToString (Data.detail data)])).
Proof.
  split; [|split; [|split]].
  - intros category file ty r upload req lreq Hreply.
    destruct (image_upload_outcome env w category file ty) as (_ & _ & Hcase).
    fold upload req lreq in Hcase. rewrite Hreply in Hcase. simpl in Hcase.
    split; intros Hok; rewrite Hok in Hcase; [done|].
    destruct Hcase as (? & ? & ->). split; [done|]. split; [done|].
    intros data Hbody. unfold failureAlert. by rewrite Hbody.
  - intros category img r delete msg req lreq Hans Hreply.
    destruct (image_delete_outcome env w category img) as (_ & _ & _ & Hcase).
    specialize (Hcase Hans).
    fold delete msg req lreq in Hcase. rewrite Hreply in Hcase. simpl in Hcase.
    split; intros Hok; rewrite Hok in Hcase; [done|].
    destruct Hcase as (? & ? & ->). split; [done|]. split; [done|].
    intros data Hbody. unfold failureAlert. by rewrite Hbody.
  - intros category file r upload req lreq Hreply.
    destruct (audio_upload_outcome env w category file) as (_ & _ & Hcase).
    fold upload req lreq in Hcase. rewrite Hreply in Hcase. simpl in Hcase.
    split; intros Hok; rewrite Hok in Hcase; [done|].
    destruct Hcase as (? & ? & ->). split; [done|]. split; [done|].
    intros data Hbody. unfold failureAlert. by rewrite Hbody.
  - intros audio r delete msg req lreq Hans Hreply.
    destruct (audio_delete_outcome env w audio) as (_ & _ & _ & Hcase).
    specialize (Hcase Hans).
    fold delete msg req lreq in Hcase. rewrite Hreply in Hcase. simpl in Hcase.
    split; intros Hok; rewrite Hok in Hcase; [done|].
    destruct Hcase as (? & ? & ->). split; [done|]. split; [done|].
    intros data Hbody. unfold failureAlert. by rewrite Hbody.
Qed.

Lemma C5_mutations_refetch_or_report_witness :
  let env := Sample.always (Sample.failure 500 "disk full") in
  let upload :=
    @ImageManager.handleUpload Sample.local "mobile-layout"
      (File.mk "2.jpg" "...") after_t in
  alerts (trace env upload Sample.loggedIn) = ["Upload failed: disk full"]
  /\ imagesOf (final env upload Sample.loggedIn) = imagesOf Sample.loggedIn.
Proof.
  intros env upload.
  destruct (@C5_mutations_refetch_or_report Sample.local env Sample.loggedIn)
    as (Hupload & _).
  destruct (Hupload "mobile-layout" (File.mk "2.jpg" "...") after_t
              (Response.mk 500 (Json (Data.mk None None None (JString "disk full"))))
              eq_refl) as (_ & Hfail).
  destruct (Hfail eq_refl) as (_ & Himages & Halert).
  split; [exact (Halert _ eq_refl) | exact Himages].
Defined.

(** ** A 401 in the session *)

(** C3, as the code has it.  A 401 reply to the category fetch of an
    authenticated session ends the session at once and removes the stored
    credentials, with no dialog in between.  The upload and delete
    handlers, of images and of audio, leave the session and the stored
    credentials as they are whatever the reply; a 401 is to them a failed
    request like any other, reported with its detail. *)
Theorem C3_unauthorized_replies `{Platform} (env : Env.t) (w : World.t) :
  (forall encoded r,
     let req := Home.categoriesRequest ("Basic " +:+ encoded) in
     JsValue.truthy (HomeState.credentials (World.home w)) = true ->
     HomeState.isAuthenticated (World.home w) = true ->
     btoa (userPass (HomeState.credentials (World.home w))) = Some encoded ->
     Env.reply env [] req = Replied r ->
     Response.status r = 401 ->
     trace env Home.fetchCategories w = [Fetched req (Replied r)]
     /\ HomeState.isAuthenticated (World.home (final env Home.fetchCategories w))
        = false
     /\ HomeState.credentials (World.home (final env Home.fetchCategories w))
        = JNull
     /\ World.sessionStorage (final env Home.fetchCategories w) !! "admin_auth"
        = None)
  /\ (forall category file ty,
        let upload := ImageManager.handleUpload category file ty in
        World.home (final env upload w) = World.home w
        /\ World.sessionStorage (final env upload w) = World.sessionStorage w)
  /\ (forall category img,
        let delete := ImageManager.handleDelete category img in
        World.home (final env delete w) = World.home w
        /\ World.sessionStorage (final env delete w) = World.sessionStorage w)
  /\ (forall category file,
        let upload := AudioManager.handleFileSelect category file in
        World.home (final env upload w) = World.home w
        /\ World.sessionStorage (final env upload w) = World.sessionStorage w)
  /\ (forall audio,
        let delete := AudioManager.handleDelete audio in
        World.home (final env delete w) = World.home w
        /\ World.sessionStorage (final env delete w) = World.sessionStorage w)
  /\ (forall category file ty r data,
        let upload := ImageManager.handleUpload category file ty in
        let req := ImageManager.uploadRequest (headersOf w) category
                     (ImageState.selectedSubcategory (World.imageManager w))
                     file ty in
        Env.reply env [] req = Replied r ->
        Response.status r = 401 ->
        Response.body r = Json data ->
        alerts (trace env upload w)
        = ["Upload failed: " +:+ JsValue.ToString (Data.detail data)]).
Proof.
  split; [|split; [|split; [|split; [|split]]]].
  - intros encoded r req Htruthy Hauth Hb Hreply H401.
    destruct (fetchCategories_run env [] encoded w Htruthy Hauth Hb)
      as (evs & w' & Hrun & _ & _ & Hcase).
    fold req in Hrun, Hcase. rewrite Hreply in Hrun, Hcase.
    destruct (Hcase r eq_refl H401) as (-> & Hout & Hcreds & Hst & _).
    apply exec_run in Hrun as (Htr & Hfin & _).
    rewrite Htr, Hfin, Hout, Hcreds, Hst.
    split; [done|]. split; [done|]. split; [done|].
    apply lookup_delete_eq.
  - intros category file ty upload.
    destruct (image_upload_outcome env w category file ty) as (? & ? & _). done.
  - intros category img delete.
    destruct (image_delete_outcome env w category img) as (? & ? & _). done.
  - intros category file upload.
    destruct (audio_upload_outcome env w category file) as (? & ? & _). done.
  - intros audio delete.
    destruct (audio_delete_outcome env w audio) as (? & ? & _). done.
  - intros category file ty r data upload req Hreply H401 Hbody.
    destruct (image_upload_outcome env w category file ty) as (_ & _ & Hcase).
    fold upload req in Hcase. rewrite Hreply in Hcase. simpl in Hcase.
    destruct (Response.ok r) eqn:Hok; [by apply ok_not_401 in Hok|].
    destruct Hcase as (_ & _ & ->). unfold failureAlert. by rewrite Hbody.
Qed.

Lemma C3_unauthorized_replies_witness :
  let env := Sample.always (Sample.failure 401 "Unauthorized") in
  let w' := final env (@Home.fetchCategories Sample.local) Sample.loggedIn in
  HomeState.isAuthenticated (World.home w') = false
  /\ World.sessionStorage w' !! "admin_auth" = None.
Proof.
  intros env w'.
  destruct (@C3_unauthorized_replies Sample.local env Sample.loggedIn)
    as (Hfetch & _).
  destruct (Hfetch "YWRtaW46c2VjcmV0"
              (Response.mk 401 (Json (Data.mk None None None (JString "Unauthorized"))))
              eq_refl eq_refl eq_refl eq_refl eq_refl)
    as (_ & Hout & _ & Hstore).
  split; [exact Hout | exact Hstore].
Defined.

(** C3 as stated fails for an upload: the reply is a 401, the operator is
    told that the upload failed, and the session stays authenticated with
    its credentials in the store. *)
Lemma C3_upload_401_keeps_the_session :
  let env := Sample.always (Sample.failure 401 "Unauthorized") in
  let upload :=
    @ImageManager.handleUpload Sample.local "mobile-layout"
      (File.mk "3.png" "...") before_t in
  let w' := final env upload Sample.loggedIn in
  alerts (trace env upload Sample.loggedIn) = ["Upload failed: Unauthorized"]
  /\ HomeState.isAuthenticated (World.home w') = true
  /\ World.sessionStorage w' !! "admin_auth"
     = Some (Sample.stringify (JsValue.creds "admin" "secret")).
Proof. vm_compute. repeat split. Qed.

(** ** Authorization headers *)

Lemma userPass_creds username password :
  userPass (JsValue.creds username password) = username +:+ ":" +:+ password.
Proof. reflexivity. Qed.

Lemma getAuthHeaders_cached `{Platform} (storage : gmap string string)
    text username password encoded :
  storage !! "admin_auth" = Some text ->
  text <> EmptyString ->
  JSON_parse text = Some (JsValue.creds username password) ->
  btoa (username +:+ ":" +:+ password) = Some encoded ->
  ImageManager.getAuthHeaders storage
  = Ok {[ "Authorization" := "Basic " +:+ encoded ]}.
Proof.
  intros Hst Hne Hparse Hb. unfold ImageManager.getAuthHeaders.
  rewrite Hst, decide_False by done.
  unfold parse, base64. rewrite Hparse. simpl. by rewrite Hb.
Qed.

Lemma getAuthHeaders_absent `{Platform} (storage : gmap string string) :
  storage !! "admin_auth" = None -> ImageManager.getAuthHeaders storage = Ok ∅.
Proof. intros Hst. unfold ImageManager.getAuthHeaders. by rewrite Hst. Qed.

Lemma getAuthHeaders_unparsable `{Platform} (storage : gmap string string) text :
  storage !! "admin_auth" = Some text -> JSON_parse text = None ->
  ImageManager.getAuthHeaders storage = Ok ∅.
Proof.
  intros Hst Hparse. unfold ImageManager.getAuthHeaders. rewrite Hst.
  destruct (decide (text = EmptyString)); [done|].
  unfold parse. by rewrite Hparse.
Qed.

Lemma headersOf_eq `{Platform} w headers :
  ImageManager.getAuthHeaders (World.sessionStorage w) = Ok headers ->
  headersOf w = headers.
Proof. unfold headersOf. by intros ->. Qed.

Lemma fetchImages_requests `{Platform} env w category :
  requests (trace env (ImageManager.fetchImages category) w)
  = [ImageManager.listRequest (headersOf w)].
Proof.
  destruct (fetchImages_run env [] category w) as (evs & w' & Hrun & Hreq & _).
  apply exec_run in Hrun as (-> & _). simpl. by rewrite Hreq.
Qed.

(** Every request of the image manager has the headers the store gives. *)
Lemma image_requests_headers `{Platform} env w category file ty img :
  let from_store req := Request.headers req = headersOf w in
  Forall from_store (requests (trace env (ImageManager.fetchImages category) w))
  /\ Forall from_store
       (requests (trace env (ImageManager.handleUpload category file ty) w))
  /\ Forall from_store
       (requests (trace env (ImageManager.handleDelete category img) w)).
Proof.
  intros from_store. split; [|split].
  - rewrite fetchImages_requests. by repeat constructor.
  - destruct (image_upload_outcome env w category file ty) as (_ & _ & Hcase).
    destruct (succeeded _).
    + destruct Hcase as (-> & _). by repeat constructor.
    + destruct Hcase as (-> & _). by repeat constructor.
  - destruct (image_delete_outcome env w category img)
      as (_ & _ & Hno & Hyes).
    destruct (Env.answer env [] _).
    + specialize (Hyes eq_refl). destruct (succeeded _).
      * destruct Hyes as (-> & _). by repeat constructor.
      * destruct Hyes as (-> & _). by repeat constructor.
    + destruct (Hno eq_refl) as (-> & _). constructor.
Qed.

(** C4, as the code has it.  The login probe carries the header built
    from the submitted credentials; the category fetch carries the one
    built from the credentials in the page state; every request of the
    image manager carries the one built from the stored credentials when
    the stored entry parses to them, and carries no Authorization header
    when the entry is missing or does not parse.  After a successful
    login the stored entry is the one the image manager reads, provided
    the codec reads back what it wrote. *)
Theorem C4_authorization_headers `{Platform} (env : Env.t) (w : World.t)
    (username password encoded : string) :
  btoa (username +:+ ":" +:+ password) = Some encoded ->
  let auth := "Basic " +:+ encoded in
  let creds := JsValue.creds username password in
  let login := Home.handleLogin username password in
  (requests (trace env login w) = [Home.categoriesRequest auth]
   /\ carries auth (Home.categoriesRequest auth))
  /\ (HomeState.credentials (World.home w) = creds ->
      HomeState.isAuthenticated (World.home w) = true ->
      requests (trace env Home.fetchCategories w) = [Home.categoriesRequest auth])
  /\ (forall text category file ty img,
        World.sessionStorage w !! "admin_auth" = Some text ->
        text <> EmptyString ->
        JSON_parse text = Some creds ->
        requests (trace env (ImageManager.fetchImages category) w)
        = [ImageManager.listRequest {[ "Authorization" := auth ]}]
        /\ Forall (carries auth)
             (requests (trace env (ImageManager.fetchImages category) w))
        /\ Forall (carries auth)
             (requests (trace env (ImageManager.handleUpload category file ty) w))
        /\ Forall (carries auth)
             (requests (trace env (ImageManager.handleDelete category img) w)))
  /\ (forall category file ty img,
        World.sessionStorage w !! "admin_auth" = None
        \/ (exists text, World.sessionStorage w !! "admin_auth" = Some text
                         /\ JSON_parse text = None) ->
        requests (trace env (ImageManager.fetchImages category) w)
        = [ImageManager.listRequest ∅]
        /\ Forall bare
             (requests (trace env (ImageManager.fetchImages category) w))
        /\ Forall bare
             (requests (trace env (ImageManager.handleUpload category file ty) w))
        /\ Forall bare
             (requests (trace env (ImageManager.handleDelete category img) w)))
  /\ (succeeded (Env.reply env [] (Home.categoriesRequest auth)) = true ->
      JSON_stringify creds <> EmptyString ->
      JSON_parse (JSON_stringify creds) = Some creds ->
      headersOf (final env login w) = {[ "Authorization" := auth ]}).
Proof.
  intros Hb auth creds login.
  destruct (handleLogin_run env [] username password encoded w Hb)
    as (evs & w' & Hrun & Hreq & _ & _ & _ & _ & _ & _ & Hcase).
  apply exec_run in Hrun as (Htr & Hfin & _). fold login in Htr, Hfin.
  fold auth in Htr, Hcase.
  split; [|split; [|split; [|split]]].
  - rewrite Htr. simpl. rewrite Hreq. split; [done|].
    unfold carries, Home.categoriesRequest. simpl. apply lookup_singleton_eq.
  - intros Hcreds Hauth. unfold creds in Hcreds.
    assert (JsValue.truthy (HomeState.credentials (World.home w)) = true) as Ht
      by (by rewrite Hcreds).
    assert (btoa (userPass (HomeState.credentials (World.home w))) = Some encoded)
      as Hb' by (by rewrite Hcreds, userPass_creds).
    destruct (fetchCategories_run env [] encoded w Ht Hauth Hb')
      as (evs' & w'' & Hrun' & Hreq' & _).
    apply exec_run in Hrun' as (-> & _). simpl. by rewrite Hreq'.
  - intros text category file ty img Hst Hne Hparse.
    pose proof (headersOf_eq w _
                  (getAuthHeaders_cached _ _ _ _ _ Hst Hne Hparse Hb)) as Hh.
    destruct (image_requests_headers env w category file ty img)
      as (Hlist & Hup & Hdel).
    rewrite Hh in Hlist, Hup, Hdel.
    assert (forall req, Request.headers req = {[ "Authorization" := auth ]} ->
                        carries auth req) as Himp.
    { intros req Hreq'. unfold carries. rewrite Hreq'. apply lookup_singleton_eq. }
    split; [by rewrite fetchImages_requests, Hh|].
    split; [|split]; eapply Forall_impl; eauto.
  - intros category file ty img Hstore.
    assert (headersOf w = ∅) as Hh.
    { apply headersOf_eq. destruct Hstore as [Hst|(text & Hst & Hparse)].
      - by apply getAuthHeaders_absent.
      - by eapply getAuthHeaders_unparsable. }
    destruct (image_requests_headers env w category file ty img)
      as (Hlist & Hup & Hdel).
    rewrite Hh in Hlist, Hup, Hdel.
    assert (forall req, Request.headers req = ∅ -> bare req) as Himp.
    { intros req Hreq'. unfold bare. by rewrite Hreq'. }
    split; [by rewrite fetchImages_requests, Hh|].
    split; [|split]; eapply Forall_impl; eauto.
  - intros Hok Hne Hparse. rewrite Hfin. unfold succeeded in Hok.
    destruct (Env.reply env [] (Home.categoriesRequest auth)) as [|r]; [done|].
    destruct (decide (Response.status r = 401)) as [H401|_];
      [by apply ok_not_401 in Hok|].
    rewrite Hok in Hcase. destruct Hcase as (_ & _ & _ & Hstore).
    apply headersOf_eq.
    eapply getAuthHeaders_cached; [|exact Hne|exact Hparse|exact Hb].
    rewrite Hstore. apply lookup_insert_eq.
Qed.

Lemma C4_authorization_headers_witness :
  let env := Sample.always Sample.success in
  let upload :=
    @ImageManager.handleUpload Sample.local "mobile-layout"
      (File.mk "2.jpg" "...") after_t in
  Forall (carries "Basic YWRtaW46c2VjcmV0")
         (requests (trace env upload Sample.loggedIn)).
Proof.
  intros env upload.
  destruct (@C4_authorization_headers Sample.local env Sample.loggedIn
              "admin" "secret" "YWRtaW46c2VjcmV0" eq_refl)
    as (_ & _ & Himage & _).
  destruct (Himage (Sample.stringify (JsValue.creds "admin" "secret"))
              "mobile-layout" (File.mk "2.jpg" "...") after_t
              (img before_t "1.jpg") eq_refl)
    as (_ & _ & Hupload & _); [discriminate | reflexivity |].
  exact Hupload.
Defined.

(** C4 as stated fails where the store holds no credentials: the upload
    and the list request that follows it go out with no header at all.
    (The requests of the audio manager never carry one, with credentials
    in the store or without.) *)
Lemma C4_requests_without_authorization :
  let env := Sample.always Sample.success in
  let upload :=
    @ImageManager.handleUpload Sample.local "mobile-layout"
      (File.mk "2.jpg" "...") after_t in
  Request.headers <$> requests (trace env upload Sample.storeCleared) = [∅; ∅]
  /\ Request.headers <$> requests (trace env AudioManager.fetchAudios Sample.loggedIn)
     = [∅].
Proof. vm_compute. split; reflexivity. Qed.

(** C10: [getAuthHeaders] returns a header object for every content of
    the store and never throws: whatever [JSON.parse], the destructuring
    or [btoa] throw is caught.  It returns the empty object when the entry
    is missing and when it does not parse, and the list request then goes
    out with no Authorization header; it returns the Authorization header
    when the entry parses to credentials that [btoa] encodes. *)
Theorem C10_getAuthHeaders_total `{Platform} (sessionStorage : gmap string string) :
  (exists headers, ImageManager.getAuthHeaders sessionStorage = Ok headers)
  /\ (sessionStorage !! "admin_auth" = None ->
      ImageManager.getAuthHeaders sessionStorage = Ok ∅)
  /\ (forall text,
        sessionStorage !! "admin_auth" = Some text ->
        JSON_parse text = None ->
        ImageManager.getAuthHeaders sessionStorage = Ok ∅)
  /\ (forall text username password encoded,
        sessionStorage !! "admin_auth" = Some text ->
        text <> EmptyString ->
        JSON_parse text = Some (JsValue.creds username password) ->
        btoa (username +:+ ":" +:+ password) = Some encoded ->
        ImageManager.getAuthHeaders sessionStorage
        = Ok {[ "Authorization" := "Basic " +:+ encoded ]})
  /\ (forall env w category,
        World.sessionStorage w = sessionStorage ->
        ImageManager.getAuthHeaders sessionStorage = Ok ∅ ->
        requests (trace env (ImageManager.fetchImages category) w)
        = [ImageManager.listRequest ∅]
        /\ bare (ImageManager.listRequest ∅)).
Proof.
  split; [apply getAuthHeaders_total|].
  split; [apply getAuthHeaders_absent|].
  split; [apply getAuthHeaders_unparsable|].
  split; [apply getAuthHeaders_cached|].
  intros env w category <- Hempty.
  rewrite fetchImages_requests, (headersOf_eq _ _ Hempty). done.
Qed.

Lemma C10_getAuthHeaders_total_witness :
  @ImageManager.getAuthHeaders Sample.local {[ "admin_auth" := "{oops" ]} = Ok ∅.
Proof.
  destruct (@C10_getAuthHeaders_total Sample.local {[ "admin_auth" := "{oops" ]})
    as (_ & _ & Hunparsable & _).
  exact (Hunparsable "{oops" eq_refl eq_refl).
Defined.

(** ** The base URL *)

Lemma apiUrl_default `{Platform} :
  NEXT_PUBLIC_API_URL = None -> apiUrl = DEFAULT_API_URL.
Proof. unfold apiUrl. by intros ->. Qed.

Lemma apiUrl_configured `{Platform} u :
  NEXT_PUBLIC_API_URL = Some u -> u <> EmptyString -> apiUrl = u.
Proof. unfold apiUrl. intros -> Hne. by rewrite decide_False. Qed.

(** The requests of the page and of the image manager go to the
    configured base URL. *)
Lemma configured_requests `{Platform} env w username password encoded
    category file ty img :
  btoa (username +:+ ":" +:+ password) = Some encoded ->
  let configured req := exists path, Request.url req = apiUrl +:+ path in
  Forall configured (requests (trace env (Home.handleLogin username password) w))
  /\ Forall configured (requests (trace env (ImageManager.fetchImages category) w))
  /\ Forall configured
       (requests (trace env (ImageManager.handleUpload category file ty) w))
  /\ Forall configured
       (requests (trace env (ImageManager.handleDelete category img) w)).
Proof.
  intros Hb configured.
  assert (forall a, configured (Home.categoriesRequest a)) as Hc by (by eexists).
  assert (forall h, configured (ImageManager.listRequest h)) as Hl by (by eexists).
  assert (forall h c s f t, configured (ImageManager.uploadRequest h c s f t))
    as Hu by (by eexists).
  assert (forall h i, configured (ImageManager.deleteRequest h i))
    as Hd by (by eexists).
  split; [|split; [|split]].
  - destruct (handleLogin_run env [] username password encoded w Hb)
      as (evs & w' & Hrun & Hreq & _).
    apply exec_run in Hrun as (-> & _). simpl. rewrite Hreq.
    by repeat constructor.
  - rewrite fetchImages_requests. by repeat constructor.
  - destruct (image_upload_outcome env w category file ty) as (_ & _ & Hcase).
    destruct (succeeded _).
    + destruct Hcase as (-> & _). by repeat constructor.
    + destruct Hcase as (-> & _). by repeat constructor.
  - destruct (image_delete_outcome env w category img)
      as (_ & _ & Hno & Hyes).
    destruct (Env.answer env [] _).
    + specialize (Hyes eq_refl). destruct (succeeded _).
      * destruct Hyes as (-> & _). by repeat constructor.
      * destruct Hyes as (-> & _). by repeat constructor.
    + destruct (Hno eq_refl) as (-> & _). constructor.
Qed.

(** The requests of the audio manager go to one fixed address, whatever
    the platform is configured with. *)
Lemma audio_requests_fixed env w category file audio :
  let fixed req := exists path, Request.url req = DEFAULT_API_URL +:+ path in
  Forall fixed (requests (trace env AudioManager.fetchAudios w))
  /\ Forall fixed (requests (trace env (AudioManager.handleFileSelect category file) w))
  /\ Forall fixed (requests (trace env (AudioManager.handleDelete audio) w)).
Proof.
  intros fixed.
  assert (fixed AudioManager.listRequest) as Hl by (by eexists).
  assert (fixed (AudioManager.uploadRequest category file)) as Hu by (by eexists).
  assert (fixed (AudioManager.deleteRequest audio)) as Hd by (by eexists).
  split; [|split].
  - destruct (fetchAudios_run env [] w) as (evs & w' & Hrun & Hreq & _).
    apply exec_run in Hrun as (-> & _). simpl. rewrite Hreq.
    by repeat constructor.
  - destruct (audio_upload_outcome env w category file) as (_ & _ & Hcase).
    destruct (succeeded _).
    + destruct Hcase as (-> & _). by repeat constructor.
    + destruct Hcase as (-> & _). by repeat constructor.
  - destruct (audio_delete_outcome env w audio) as (_ & _ & Hno & Hyes).
    destruct (Env.answer env [] _).
    + specialize (Hyes eq_refl). destruct (succeeded _).
      * destruct Hyes as (-> & _). by repeat constructor.
      * destruct Hyes as (-> & _). by repeat constructor.
    + destruct (Hno eq_refl) as (-> & _). constructor.
Qed.

(** C9, at a build configured with the base URL of a deployed backend:
    the image list request goes to that backend, and the audio list,
    upload and delete requests go to http://localhost:8000 all the same. *)
Theorem C9_audio_requests_ignore_the_base_url :
  let env := Sample.always Sample.success in
  let w := Sample.loggedIn in
  let category := AudioCategory.mk single_speaker english "Single Speaker - English" in
  @apiUrl Sample.deployed = "https://api.example.com"
  /\ Request.url
       <$> requests (trace env (@ImageManager.fetchImages Sample.deployed "mobile-layout") w)
     = ["https://api.example.com/admin/examples/list"]
  /\ Request.url <$> requests (trace env AudioManager.fetchAudios w)
     = ["http://localhost:8000/admin/examples/audio/list"]
  /\ Request.url
       <$> requests (trace env (AudioManager.handleFileSelect category
                                  (File.mk "2.mp3" "...")) w)
     = ["http://localhost:8000/admin/examples/audio/upload";
        "http://localhost:8000/admin/examples/audio/list"]
  /\ Request.url
       <$> requests (trace env (AudioManager.handleDelete
                                  (aud single_speaker english "1.mp3")) w)
     = ["http://localhost:8000/admin/examples/audio/delete/single-speaker/english/1.mp3";
        "http://localhost:8000/admin/examples/audio/list"].
Proof. vm_compute. repeat split. Qed.

(** ** Session restore *)

(** The effect that restores a session never throws; an entry that does
    not parse is removed from the store and the session stays as it was,
    and an entry that parses authenticates the session with the parsed
    value as its credentials. *)
Lemma restoreSession_run `{Platform} env past w :
  let saved := World.sessionStorage w !! "admin_auth" in
  exists w',
    run env past (Home.restoreSession w) = (past, (w', Ok tt))
    /\ HomeState.loading (World.home w') = false
    /\ match ImageManager.present saved with
       | None =>
           World.sessionStorage w' = World.sessionStorage w
           /\ HomeState.isAuthenticated (World.home w')
              = HomeState.isAuthenticated (World.home w)
       | Some text =>
           match JSON_parse text with
           | None =>
               World.sessionStorage w' = delete "admin_auth" (World.sessionStorage w)
               /\ HomeState.isAuthenticated (World.home w')
                  = HomeState.isAuthenticated (World.home w)
           | Some parsed =>
               World.sessionStorage w' = World.sessionStorage w
               /\ HomeState.isAuthenticated (World.home w') = true
               /\ HomeState.credentials (World.home w') = parsed
           end
       end.
Proof.
  intros saved.
  unfold Home.restoreSession, SessionStorage.getItem,
    SessionStorage.removeItem, Home.setCredentials, Home.setIsAuthenticated,
    Home.setLoading, Home.update, ImageManager.present, parse.
  run_all. fold saved.
  destruct saved as [text|]; run_all; [|by eexists].
  destruct (decide (text = EmptyString)); run_all; [by eexists|].
  destruct (JSON_parse text) as [parsed|]; run_all; by eexists.
Qed.

(* ================================================================== *)
(** * Part III: further properties of the code                         *)
(* ================================================================== *)

Ltac exec_all := unfold trace, final, outcome, exec.

(** ** More on the pairing reconciler *)

(** X1: when several assets of one side carry the same number, the pair
    shows the one that comes last in the listing: in a listing whose
    ordinals are at most 2^53 - 1, each side of a pair is the last asset
    of that side, in listing order, with the pair's number. *)
Theorem X1_pair_side_is_the_last_listed (images : list S3Image.t) (p : ImagePair.t) :
  SafeNumbers images ->
  p ∈ ImageManager.imagePairs images ->
  ImagePair.before p = last (carriers before_t (ImageManager.pairNumber p) images)
  /\ ImagePair.after p = last (carriers after_t (ImageManager.pairNumber p) images).
Proof.
  intros _ (Hb & Ha & Hpos)%imagePairs_sides.
  unfold ImageManager.beforeMap, ImageManager.afterMap,
    ImageManager.beforeImages, ImageManager.afterImages in *.
  rewrite Hb, Ha, !collect_get. by rewrite !decide_True by lia.
Qed.

Lemma X1_pair_side_is_the_last_listed_witness :
  let first := S3Image.mk "https://cdn/a" "3.png" 10 "2025-01-01" "a" "demo" None before_t in
  let second := S3Image.mk "https://cdn/b" "3.jpg" 20 "2025-01-02" "b" "demo" None before_t in
  let p := ImagePair.mk "3" (Some second) None in
  ImagePair.before p = last (carriers before_t 3 [first; second])
  /\ ImagePair.after p = last (carriers after_t 3 [first; second]).
Proof.
  intros first second p.
  apply (X1_pair_side_is_the_last_listed [first; second] p).
  - safe_listing.
  - vm_compute. left.
Defined.

(** X2: the reconciler makes no pair exactly when no asset of the listing
    has a positive number (an empty listing among them), and it never makes
    more pairs than there are assets. *)
Theorem X2_no_pairs_without_positive_numbers (images : list S3Image.t) :
  (ImageManager.imagePairs images = []
   <-> forall i, i ∈ images -> numberOf i <= 0)
  /\ (length (ImageManager.imagePairs images) <= length images)%nat.
Proof.
  split.
  - split.
    + intros Hnil i Hi.
      destruct (decide (numberOf i <= 0)) as [|Hpos]; [done|].
      assert (numberOf i ∈ ImageManager.pairNumber <$> ImageManager.imagePairs images)
        as Hin.
      { rewrite imagePairs_numbers, Array_sort_elem, allNumbers_elem.
        split; [lia|].
        destruct (S3Image.type i) eqn:Hty; [left|right]; by exists i. }
      rewrite Hnil in Hin. by apply elem_of_nil in Hin.
    + intros Hall.
      destruct (ImageManager.imagePairs images) as [|p pairs] eqn:Hp; [done|].
      assert (ImageManager.pairNumber p
                ∈ ImageManager.pairNumber <$> ImageManager.imagePairs images)
        as Hin by (rewrite Hp; left).
      rewrite imagePairs_numbers, Array_sort_elem, allNumbers_elem in Hin.
      destruct Hin as [Hpos [(i & Hi & _ & Hn)|(i & Hi & _ & Hn)]];
        specialize (Hall i Hi); lia.
  - rewrite <- (length_fmap ImageManager.pairNumber), imagePairs_numbers.
    rewrite <- (length_fmap numberOf images).
    apply submseteq_length, NoDup_submseteq.
    + rewrite Array_sort_perm. apply Set_from_NoDup.
    + intros n Hn. rewrite Array_sort_elem, allNumbers_elem in Hn.
      destruct Hn as [_ [(i & Hi & _ & <-)|(i & Hi & _ & <-)]];
        by apply list_elem_of_fmap_2.
Qed.

(** X3: in a listing whose ordinals are at most 2^53 - 1, the labels of
    the pairs, which are also their keys in the rendered list, are
    pairwise different, and each is the decimal notation of the pair's
    number without leading zeros (so [010.gif] is in pair [10]). *)
Theorem X3_pair_labels (images : list S3Image.t) :
  SafeNumbers images ->
  NoDup (ImagePair.filename <$> ImageManager.imagePairs images)
  /\ Forall (fun p => ImagePair.filename p
                      = Js.Number_toString (ImageManager.pairNumber p))
            (ImageManager.imagePairs images)
  /\ (ImagePair.filename
        <$> ImageManager.imagePairs [img before_t "010.gif"; img after_t "10.png"])
     = ["10"].
Proof.
  intros _. split; [|split; [|reflexivity]].
  - apply (NoDup_fmap_1 Js.parseInt). rewrite <- list_fmap_compose.
    change (Js.parseInt ∘ ImagePair.filename) with ImageManager.pairNumber.
    rewrite imagePairs_numbers, Array_sort_perm. apply Set_from_NoDup.
  - apply Forall_forall. intros p Hp.
    pose proof (imagePairs_sides _ _ Hp) as (_ & _ & Hpos).
    unfold ImageManager.imagePairs in Hp.
    apply list_elem_of_fmap in Hp as (n & -> & Hn).
    unfold ImageManager.pairNumber in *. simpl in *.
    apply Array_sort_elem, allNumbers_elem in Hn as [Hn _].
    by rewrite parseInt_Number_toString by lia.
Qed.

Lemma X3_pair_labels_witness :
  let images := [img before_t "010.gif"; img after_t "10.png"; img after_t "7.png"] in
  NoDup (ImagePair.filename <$> ImageManager.imagePairs images)
  /\ Forall (fun p => ImagePair.filename p
                      = Js.Number_toString (ImageManager.pairNumber p))
            (ImageManager.imagePairs images).
Proof.
  intros images.
  destruct (X3_pair_labels images) as (Hnodup & Hlabels & _).
  - safe_listing.
  - split; [exact Hnodup | exact Hlabels].
Defined.

Lemma last_of_equals {A} (l l' : list A) :
  (forall a b, a ∈ l -> b ∈ l -> a = b) -> l ≡ₚ l' -> last l = last l'.
Proof.
  intros Heq Hperm.
  destruct (last l) as [x|] eqn:Hl.
  - apply last_Some_elem_of in Hl as Hx.
    destruct (last l') as [y|] eqn:Hl'.
    + apply last_Some_elem_of in Hl'. rewrite <- Hperm in Hl'.
      f_equal. by apply Heq.
    + apply last_None in Hl'. subst l'. apply Permutation_nil_r in Hperm.
      subst l. by apply elem_of_nil in Hx.
  - apply last_None in Hl. subst l. apply Permutation_nil_l in Hperm.
    by subst l'.
Qed.

Lemma Has_Permutation ty n images images' :
  images ≡ₚ images' -> Has ty n images <-> Has ty n images'.
Proof.
  intros Hperm. unfold Has. by setoid_rewrite Hperm.
Qed.

(** X4: the order of the listing matters only among assets that share a
    side and a number.  In a listing whose ordinals are at most 2^53 - 1,
    when no two different assets of one side carry the same positive
    number, every rearrangement of the listing gives the same pairs. *)
Theorem X4_pairs_do_not_depend_on_the_order (images images' : list S3Image.t) :
  SafeNumbers images ->
  UniquePerSide images ->
  images ≡ₚ images' ->
  ImageManager.imagePairs images = ImageManager.imagePairs images'.
Proof.
  intros _ Huniq Hperm.
  assert (Js.Array_sort (fun a b => a - b) (ImageManager.allNumbers images)
          = Js.Array_sort (fun a b => a - b) (ImageManager.allNumbers images'))
    as Hnums.
  { apply (StronglySorted_unique_strong Z.le).
    - intros. lia.
    - apply Array_sort_numbers.
    - apply Array_sort_numbers.
    - apply NoDup_Permutation.
      + rewrite Array_sort_perm. apply Set_from_NoDup.
      + rewrite Array_sort_perm. apply Set_from_NoDup.
      + intros n. rewrite !Array_sort_elem, !allNumbers_elem.
        by rewrite !(Has_Permutation _ _ _ _ Hperm). }
  unfold ImageManager.imagePairs. rewrite <- Hnums.
  apply Forall_fmap_ext, Forall_forall. intros n Hn.
  apply Array_sort_elem, allNumbers_elem in Hn as [Hn _].
  unfold ImageManager.beforeMap, ImageManager.afterMap,
    ImageManager.beforeImages, ImageManager.afterImages.
  rewrite !collect_get, !decide_True by lia.
  assert (forall ty, last (carriers ty n images) = last (carriers ty n images'))
    as Hlast.
  { intros ty. apply last_of_equals.
    - intros a b (Ha & Hta & Hna)%carriers_elem (Hb & Htb & Hnb)%carriers_elem.
      apply Huniq; [done|done|congruence|congruence|lia].
    - unfold carriers. by rewrite Hperm. }
  by rewrite !Hlast.
Qed.

Lemma X4_pairs_do_not_depend_on_the_order_witness :
  ImageManager.imagePairs [img before_t "2.jpg"; img after_t "1.jpg"; img before_t "1.jpg"]
  = ImageManager.imagePairs [img before_t "1.jpg"; img before_t "2.jpg"; img after_t "1.jpg"].
Proof.
  apply X4_pairs_do_not_depend_on_the_order.
  - safe_listing.
  - intros i j Hi Hj Hty Hnum _.
    repeat (apply elem_of_cons in Hi as [->|Hi]);
      repeat (apply elem_of_cons in Hj as [->|Hj]);
      try done; try (by apply elem_of_nil in Hi); by apply elem_of_nil in Hj.
  - symmetry.
    apply (Permutation_cons_append [img before_t "2.jpg"; img after_t "1.jpg"]
                                   (img before_t "1.jpg")).
Defined.

(** ** More on the audio catalog *)

Section SortByKey.
Context {A : Type} (key : A -> Z).

Lemma insert_sorted_by_key x l :
  StronglySorted (fun a b => key a <= key b) l ->
  StronglySorted (fun a b => key a <= key b)
                 (Js.insert_sorted (fun a b => key a - key b) x l).
Proof.
  induction 1 as [|y l Hl IH Hy]; simpl.
  - repeat constructor.
  - destruct (decide (key x - key y <= 0)).
    + constructor; [by constructor|].
      constructor; [lia|]. eapply Forall_impl; [exact Hy|]. simpl. lia.
    + constructor; [done|].
      rewrite insert_sorted_perm. constructor; [lia|done].
Qed.

Lemma Array_sort_by_key l :
  StronglySorted (fun a b => key a <= key b)
                 (Js.Array_sort (fun a b => key a - key b) l).
Proof.
  induction l as [|x l IH]; simpl; [constructor|].
  by apply insert_sorted_by_key.
Qed.

Lemma insert_sorted_stable n x l :
  filter (fun a => key a = n) (Js.insert_sorted (fun a b => key a - key b) x l)
  = filter (fun a => key a = n) (x :: l).
Proof.
  induction l as [|y l IH]; simpl; [done|].
  destruct (decide (key x - key y <= 0)); [done|].
  rewrite (filter_cons _ y), IH, !filter_cons.
  destruct (decide (key y = n)), (decide (key x = n)); try done. lia.
Qed.

Lemma Array_sort_stable n l :
  filter (fun a => key a = n) (Js.Array_sort (fun a b => key a - key b) l)
  = filter (fun a => key a = n) l.
Proof.
  induction l as [|x l IH]; simpl; [done|].
  by rewrite insert_sorted_stable, !filter_cons, IH.
Qed.
End SortByKey.

Lemma list_find_head {A} (P : A -> Prop) `{!forall x, Decision (P x)} (l : list A) :
  snd <$> list_find P l = head (filter P l).
Proof.
  induction l as [|x l IH]; simpl; [done|].
  rewrite filter_cons. destruct (decide (P x)); simpl; [done|].
  rewrite <- IH. by destruct (list_find P l) as [[]|].
Qed.

Lemma categoryAssets_elem audios category a :
  a ∈ categoryAssets audios category <-> a ∈ audios /\ inCategory category a.
Proof.
  unfold categoryAssets, inCategory. rewrite list_elem_of_filter. tauto.
Qed.

Lemma gridAudio_head audios category n :
  AudioManager.gridAudio audios category n
  = head (filter (fun a => audioNumber a = n) (categoryAssets audios category)).
Proof.
  unfold AudioManager.gridAudio, AudioManager.getCategoryAudios.
  rewrite list_find_head.
  by rewrite (Array_sort_stable audioNumber).
Qed.

Lemma maxNumber_bound audios category a :
  a ∈ audios -> inCategory category a ->
  audioNumber a <= AudioManager.maxNumber audios category.
Proof.
  intros Ha Hc. unfold AudioManager.maxNumber.
  apply Math_max0_spec. apply (list_elem_of_fmap_2 audioNumber).
  unfold AudioManager.getCategoryAudios. rewrite Array_sort_elem.
  by apply categoryAssets_elem.
Qed.

(** X5: for a listing whose numbers are at most 2^53 - 1, the assets that
    [getCategoryAudios] gives for a category are the assets of the listing
    with that speaker mode and language, each as often as it is listed, in
    non-decreasing order of their numbers; assets with the same number
    keep the order of the listing. *)
Theorem X5_category_audios_sorted (audios : list AudioFile.t) (category : AudioCategory.t) :
  SafeAudioNumbers audios ->
  AudioManager.getCategoryAudios audios category ≡ₚ categoryAssets audios category
  /\ StronglySorted (fun a b => audioNumber a <= audioNumber b)
                    (AudioManager.getCategoryAudios audios category)
  /\ (forall n,
        filter (fun a => audioNumber a = n)
               (AudioManager.getCategoryAudios audios category)
        = filter (fun a => audioNumber a = n) (categoryAssets audios category)).
Proof.
  intros _. unfold AudioManager.getCategoryAudios. split; [|split].
  - apply Array_sort_perm.
  - apply (Array_sort_by_key audioNumber).
  - intros n. apply (Array_sort_stable audioNumber).
Qed.

Lemma X5_category_audios_sorted_witness :
  let category := AudioCategory.mk single_speaker english "Single Speaker - English" in
  let audios :=
    [aud single_speaker english "3.mp3"; aud multi_speaker hindi "1.mp3";
     aud single_speaker english "take2.mp3"; aud single_speaker english "2.wav"] in
  StronglySorted (fun a b => audioNumber a <= audioNumber b)
                 (AudioManager.getCategoryAudios audios category).
Proof.
  intros category audios.
  destruct (X5_category_audios_sorted audios category) as (_ & Hsorted & _).
  - safe_listing.
  - exact Hsorted.
Defined.

(** X6: the four categories split the listing: every asset is counted on
    the tab of exactly one category, so the counts on the four tabs add up
    to the number of assets listed. *)
Theorem X6_tab_counts_add_up (audios : list AudioFile.t) :
  (forall a, a ∈ audios ->
     exists category, category ∈ AudioManager.AUDIO_CATEGORIES
       /\ inCategory category a
       /\ forall other, other ∈ AudioManager.AUDIO_CATEGORIES ->
            inCategory other a -> other = category)
  /\ sum_list (tabCount audios <$> AudioManager.AUDIO_CATEGORIES) = length audios.
Proof.
  split.
  - intros a _. unfold inCategory.
    exists (AudioCategory.mk (AudioFile.speaker_mode a) (AudioFile.language a)
              (match AudioFile.speaker_mode a, AudioFile.language a with
               | single_speaker, english => "Single Speaker - English"
               | single_speaker, hindi => "Single Speaker - Hindi"
               | multi_speaker, english => "Multi Speaker - English"
               | multi_speaker, hindi => "Multi Speaker - Hindi"
               end)).
    split; [|split; [done|]].
    + unfold AudioManager.AUDIO_CATEGORIES.
      destruct (AudioFile.speaker_mode a), (AudioFile.language a);
        rewrite !elem_of_cons; tauto.
    + intros other Hother [Hs Hl]. unfold AudioManager.AUDIO_CATEGORIES in Hother.
      rewrite !elem_of_cons, elem_of_nil in Hother.
      destruct Hother as [->|[->|[->|[->|[]]]]]; simpl in Hs, Hl;
        rewrite Hs, Hl; done.
  - unfold tabCount, AudioManager.getCategoryAudios, AudioManager.AUDIO_CATEGORIES.
    simpl. rewrite !Array_sort_perm.
    induction audios as [|a audios IH]; [done|].
    rewrite !filter_cons. simpl.
    destruct (AudioFile.speaker_mode a), (AudioFile.language a);
      repeat match goal with
             | |- context [decide ?P] => destruct (decide P) as [[? ?]|?]
             end; try done; simpl; try lia;
      exfalso; tauto.
Qed.

(** X7: a row of the grid shows the first asset of the category, in listing
    order, that carries the row's number; later assets with the same number
    are not shown.  (The pairing of images keeps the last one instead.) *)
Theorem X7_grid_row_shows_the_first_listed (audios : list AudioFile.t)
    (category : AudioCategory.t) (number : Z) :
  AudioManager.gridAudio audios category number
  = head (filter (fun a => audioNumber a = number) (categoryAssets audios category))
  /\ (forall a, AudioManager.gridAudio audios category number = Some a ->
        a ∈ audios /\ inCategory category a /\ audioNumber a = number)
  /\ (AudioManager.gridAudio audios category number = None
      <-> forall a, a ∈ audios -> inCategory category a -> audioNumber a <> number).
Proof.
  rewrite gridAudio_head. split; [done|]. split.
  - intros a Ha. apply head_Some_elem_of in Ha.
    apply list_elem_of_filter in Ha as [Hn Ha].
    apply categoryAssets_elem in Ha as [Ha Hc]. done.
  - rewrite head_None. split.
    + intros Hnil a Ha Hc Hn.
      assert (a ∈ filter (fun a => audioNumber a = number)
                         (categoryAssets audios category)) as Hin.
      { apply list_elem_of_filter. split; [done|]. by apply categoryAssets_elem. }
      rewrite Hnil in Hin. by apply elem_of_nil in Hin.
    + intros Hall.
      destruct (filter _ _) as [|a l] eqn:Hf; [done|].
      assert (a ∈ filter (fun a => audioNumber a = number)
                         (categoryAssets audios category)) as Hin
        by (rewrite Hf; left).
      apply list_elem_of_filter in Hin as [Hn Ha].
      apply categoryAssets_elem in Ha as [Ha Hc]. by destruct (Hall a Ha Hc).
Qed.

(** X8: for an active category whose largest number is at most 2^32 - 1
    the rows of the grid are built, and every asset of the category whose
    name gives a number of at least 1 has its number among them, and that
    row is filled; an asset whose name gives no number (the sentinel 0) is
    shown in no row, although the tab of its category counts it. *)
Theorem X8_grid_rows_and_unnumbered_assets (audios : list AudioFile.t)
    (category : AudioCategory.t) :
  AudioManager.maxNumber audios category <= Js.MAX_ARRAY_LENGTH ->
  exists rows,
    AudioManager.gridNumbers audios category = Some rows
    /\ (forall a, a ∈ audios -> inCategory category a -> 1 <= audioNumber a ->
          audioNumber a ∈ rows
          /\ is_Some (AudioManager.gridAudio audios category (audioNumber a)))
    /\ (forall a number, number ∈ rows ->
          AudioManager.gridAudio audios category number = Some a ->
          audioNumber a <> 0)
    /\ (forall a, a ∈ audios -> inCategory category a ->
          (0 < tabCount audios category)%nat).
Proof.
  intros Hmax.
  destruct (Array_from_1_is_Some (Z.max (AudioManager.maxNumber audios category) 3))
    as [rows Hrows].
  { unfold Js.MAX_ARRAY_LENGTH in *. lia. }
  exists rows. split; [done|]. split; [|split].
  - intros a Ha Hc Hn. split.
    + apply (Array_from_1_elem _ _ _ Hrows).
      pose proof (maxNumber_bound _ _ _ Ha Hc). lia.
    + rewrite gridAudio_head.
      destruct (filter _ _) as [|b l] eqn:Hf; [|by eexists].
      assert (a ∈ filter (fun b => audioNumber b = audioNumber a)
                         (categoryAssets audios category)) as Hin.
      { apply list_elem_of_filter. split; [done|]. by apply categoryAssets_elem. }
      rewrite Hf in Hin. by apply elem_of_nil in Hin.
  - intros a number Hrow Hfound.
    apply (Array_from_1_elem _ _ _ Hrows) in Hrow.
    rewrite gridAudio_head in Hfound. apply head_Some_elem_of in Hfound.
    apply list_elem_of_filter in Hfound as [Hn _]. lia.
  - intros a Ha Hc. unfold tabCount, AudioManager.getCategoryAudios.
    rewrite Array_sort_perm.
    assert (a ∈ categoryAssets audios category) as Hin
      by by apply categoryAssets_elem.
    unfold categoryAssets in Hin.
    destruct (filter _ audios); [by apply elem_of_nil in Hin | simpl; lia].
Qed.

Lemma X8_grid_rows_and_unnumbered_assets_witness :
  let category := AudioCategory.mk single_speaker english "Single Speaker - English" in
  let audios :=
    [aud single_speaker english "4.mp3"; aud single_speaker english "intro.mp3"] in
  exists rows,
    AudioManager.gridNumbers audios category = Some rows
    /\ (forall a, a ∈ audios -> inCategory category a ->
          (0 < tabCount audios category)%nat).
Proof.
  intros category audios.
  destruct (X8_grid_rows_and_unnumbered_assets audios category)
    as (rows & Hrows & _ & _ & Htab).
  - vm_compute. discriminate.
  - exists rows. split; [exact Hrows | exact Htab].
Defined.

(** X9: the number announced for the next upload is at least 1, is larger
    than the number of every asset of the active category, and its row, were
    it drawn, would be empty. *)
Theorem X9_next_number_is_unused (audios : list AudioFile.t) (category : AudioCategory.t) :
  1 <= AudioManager.nextNumber audios category
  /\ (forall a, a ∈ audios -> inCategory category a ->
        audioNumber a < AudioManager.nextNumber audios category)
  /\ AudioManager.gridAudio audios category (AudioManager.nextNumber audios category)
     = None.
Proof.
  unfold AudioManager.nextNumber. split; [|split].
  - unfold AudioManager.maxNumber.
    pose proof (Math_max0_spec
      ((fun a => AudioManager.getAudioNumber (AudioFile.filename a))
         <$> AudioManager.getCategoryAudios audios category)) as [H0 _]. lia.
  - intros a Ha Hc. pose proof (maxNumber_bound _ _ _ Ha Hc). lia.
  - rewrite gridAudio_head. apply head_None.
    destruct (filter _ _) as [|a l] eqn:Hf; [done|].
    assert (a ∈ filter (fun a => audioNumber a = AudioManager.maxNumber audios category + 1)
                       (categoryAssets audios category)) as Hin
      by (rewrite Hf; left).
    apply list_elem_of_filter in Hin as [Hn Ha].
    apply categoryAssets_elem in Ha as [Ha Hc].
    pose proof (maxNumber_bound _ _ _ Ha Hc). lia.
Qed.

(** ** More on the session *)

(** X10: reading the stored session when the page is mounted never throws,
    sends no request and shows no dialog, and ends the loading state.  With
    no stored entry, or an empty one, nothing else changes.  An entry that
    does not parse is removed from the store and the page stays
    unauthenticated.  An entry that parses authenticates the page with the
    parsed value as its credentials, whatever that value is, and without
    asking the backend. *)
Theorem X10_session_restore `{Platform} (env : Env.t) (w : World.t) :
  let restore := Home.restoreSession in
  let before := World.home w in
  let after := World.home (final env restore w) in
  let unchanged :=
    World.sessionStorage (final env restore w) = World.sessionStorage w
    /\ HomeState.isAuthenticated after = HomeState.isAuthenticated before
    /\ HomeState.credentials after = HomeState.credentials before in
  trace env restore w = []
  /\ outcome env restore w = Ok tt
  /\ HomeState.loading after = false
  /\ World.imageManager (final env restore w) = World.imageManager w
  /\ World.audioManager (final env restore w) = World.audioManager w
  /\ match World.sessionStorage w !! "admin_auth" with
     | None => unchanged
     | Some text =>
         if decide (text = EmptyString) then unchanged
         else match JSON_parse text with
              | None =>
                  World.sessionStorage (final env restore w)
                  = delete "admin_auth" (World.sessionStorage w)
                  /\ HomeState.isAuthenticated after
                     = HomeState.isAuthenticated before
                  /\ HomeState.credentials after = HomeState.credentials before
              | Some parsed =>
                  World.sessionStorage (final env restore w)
                  = World.sessionStorage w
                  /\ HomeState.isAuthenticated after = true
                  /\ HomeState.credentials after = parsed
              end
     end.
Proof.
  intros restore before after unchanged.
  unfold unchanged, after, before, restore. exec_all.
  unfold Home.restoreSession, SessionStorage.getItem,
    SessionStorage.removeItem, Home.setCredentials, Home.setIsAuthenticated,
    Home.setLoading, Home.update, parse.
  run_all.
  destruct (World.sessionStorage w !! "admin_auth") as [text|]; run_all; [|done].
  destruct (decide (text = EmptyString)); run_all; [done|].
  destruct (JSON_parse text) as [parsed|]; run_all; done.
Qed.

Lemma handleLogout_run env past w :
  run env past (Home.handleLogout w)
  = (past,
     (World.mk (delete "admin_auth" (World.sessionStorage w))
        (HomeState.mk [] EmptyString (HomeState.loading (World.home w)) false
                      (HomeState.authError (World.home w)) JNull)
        (World.imageManager w) (World.audioManager w),
      Ok tt)).
Proof.
  unfold Home.handleLogout, Home.setIsAuthenticated, Home.setCredentials,
    Home.setCategories, Home.setSelectedCategory, Home.update,
    SessionStorage.removeItem.
  by run_all.
Qed.

(** X12: logging out sends no request and shows no dialog.  It ends the
    session, forgets the credentials, removes the stored entry and empties
    the categories and the selection; the loading flag, the error message
    and the state of the managers stay as they were.  Logging out again
    changes nothing.  After it the category fetch sends no request, the
    image manager builds no Authorization header, and a page that is not
    loading shows the login page. *)
Theorem X12_logout `{Platform} (env : Env.t) (w : World.t) :
  let out := final env Home.handleLogout w in
  trace env Home.handleLogout w = []
  /\ outcome env Home.handleLogout w = Ok tt
  /\ World.home out
     = HomeState.mk [] EmptyString (HomeState.loading (World.home w)) false
                    (HomeState.authError (World.home w)) JNull
  /\ World.sessionStorage out = delete "admin_auth" (World.sessionStorage w)
  /\ World.imageManager out = World.imageManager w
  /\ World.audioManager out = World.audioManager w
  /\ final env Home.handleLogout out = out
  /\ requests (trace env Home.fetchCategories out) = []
  /\ trace env Home.onAuthenticated out = []
  /\ ImageManager.getAuthHeaders (World.sessionStorage out) = Ok ∅
  /\ (HomeState.loading (World.home w) = false ->
      HomePage.render (World.home out)
      = HomePage.LoginPage (HomeState.authError (World.home w))).
Proof.
  intros out. unfold out. exec_all.
  rewrite !handleLogout_run. simpl. rewrite delete_delete_eq.
  unfold Home.onAuthenticated, Home.fetchCategories.
  run_all.
  split; [done|]. split; [done|]. split; [done|]. split; [done|].
  split; [done|]. split; [done|]. split; [done|]. split; [done|].
  split; [done|]. split.
  - apply getAuthHeaders_absent. apply lookup_delete_eq.
  - intros Hl. unfold HomePage.render. simpl. by rewrite Hl.
Qed.

(** X13: without credentials in the page state, or without an
    authenticated session, the category fetch sends no request: it logs
    that it is skipped and leaves the page as it is, and the effect that
    starts it does nothing at all. *)
Theorem X13_category_fetch_is_guarded `{Platform} (env : Env.t) (w : World.t) :
  JsValue.truthy (HomeState.credentials (World.home w)) = false
  \/ HomeState.isAuthenticated (World.home w) = false ->
  trace env Home.fetchCategories w
  = [Logged "Skipping fetchCategories: not authenticated"]
  /\ final env Home.fetchCategories w = w
  /\ outcome env Home.fetchCategories w = Ok tt
  /\ trace env Home.onAuthenticated w = []
  /\ final env Home.onAuthenticated w = w.
Proof.
  intros Hguard. exec_all.
  unfold Home.onAuthenticated, Home.fetchCategories. run_all.
  destruct Hguard as [-> | ->]; simpl; run_all;
    rewrite ?andb_false_r, ?orb_true_r; run_all; done.
Qed.

Lemma X13_category_fetch_is_guarded_witness :
  requests (trace (Sample.always Sample.success)
                  (@Home.fetchCategories Sample.local) Sample.loggedOut) = [].
Proof.
  destruct (@X13_category_fetch_is_guarded Sample.local
              (Sample.always Sample.success) Sample.loggedOut)
    as (Htrace & _).
  - left. reflexivity.
  - rewrite Htrace. reflexivity.
Defined.

(** The category fetch of an authenticated page, for a reply that is not
    a 401. *)
Lemma fetchCategories_reply_run `{Platform} env encoded w :
  let h := World.home w in
  JsValue.truthy (HomeState.credentials h) = true ->
  HomeState.isAuthenticated h = true ->
  btoa (userPass (HomeState.credentials h)) = Some encoded ->
  let req := Home.categoriesRequest ("Basic " +:+ encoded) in
  let reply := Env.reply env [] req in
  (forall r, reply = Replied r -> Response.status r <> 401) ->
  exists evs,
    run env [] (Home.fetchCategories w)
    = (Fetched req reply :: evs,
       (World.mk (World.sessionStorage w)
          (HomeState.mk (categoriesIn reply)
             match categoriesIn reply with
             | first :: _ => Category.id first
             | [] => HomeState.selectedCategory h
             end
             (HomeState.loading h) true (HomeState.authError h)
             (HomeState.credentials h))
          (World.imageManager w) (World.audioManager w),
        Ok tt))
    /\ requests evs = [] /\ alerts evs = [].
Proof.
  intros h Htruthy Hauth Hb req reply Hnot.
  unfold Home.fetchCategories. run_all.
  fold h. rewrite Htruthy, Hauth. simpl.
  unfold userPass in Hb.
  destruct (truthy_get _ "username" Htruthy) as [u Hu].
  destruct (truthy_get _ "password" Htruthy) as [p Hp].
  rewrite Hu, Hp in Hb. rewrite Hu, Hp. run_all. unfold base64. rewrite Hb.
  unfold Home.handleLogout, Home.setIsAuthenticated, Home.setCredentials,
    Home.setCategories, Home.setSelectedCategory, Home.update,
    SessionStorage.removeItem.
  run_all. fold req. fold reply. unfold categoriesIn.
  destruct reply as [|r] eqn:Hreply; run_all.
  { fold h. rewrite Hauth. by eexists. }
  rewrite decide_False by (by apply Hnot).
  rewrite json_body.
  destruct (Response.body r) as [| |[[[|c cs]|] ? ? ?]]; run_all;
    fold h; rewrite ?Hauth; by eexists.
Qed.

(** X14: the category fetch of an authenticated page sends one request.
    Unless the reply is a 401 it keeps the session, the credentials and the
    stored entry, whatever the status of the reply, and tells the operator
    nothing.  The categories become those of the reply, and none when the
    reply carries no list of them or no reply came; the first category of a
    non-empty list becomes the selected one, and with an empty list the
    selection stays as it was. *)
Theorem X14_categories_of_the_reply `{Platform} (env : Env.t) (w : World.t)
    (encoded : string) :
  let h := World.home w in
  let req := Home.categoriesRequest ("Basic " +:+ encoded) in
  let reply := Env.reply env [] req in
  let after := World.home (final env Home.fetchCategories w) in
  JsValue.truthy (HomeState.credentials h) = true ->
  HomeState.isAuthenticated h = true ->
  btoa (userPass (HomeState.credentials h)) = Some encoded ->
  (forall r, reply = Replied r -> Response.status r <> 401) ->
  requests (trace env Home.fetchCategories w) = [req]
  /\ alerts (trace env Home.fetchCategories w) = []
  /\ outcome env Home.fetchCategories w = Ok tt
  /\ HomeState.categories after = categoriesIn reply
  /\ HomeState.selectedCategory after
     = match categoriesIn reply with
       | first :: _ => Category.id first
       | [] => HomeState.selectedCategory h
       end
  /\ HomeState.isAuthenticated after = true
  /\ HomeState.credentials after = HomeState.credentials h
  /\ HomeState.authError after = HomeState.authError h
  /\ World.sessionStorage (final env Home.fetchCategories w)
     = World.sessionStorage w.
Proof.
  intros h req reply after Htruthy Hauth Hb Hnot.
  destruct (fetchCategories_reply_run env encoded w Htruthy Hauth Hb Hnot)
    as (evs & Hrun & Hreq & Hal).
  unfold after. exec_all. rewrite Hrun. simpl.
  rewrite Hreq, Hal. done.
Qed.

Lemma X14_categories_of_the_reply_witness :
  let env := Sample.always (Sample.failure 500 "Internal Server Error") in
  let fetch := @Home.fetchCategories Sample.local in
  HomeState.categories (World.home (final env fetch Sample.loggedIn)) = []
  /\ HomeState.selectedCategory (World.home (final env fetch Sample.loggedIn))
     = "mobile-layout"
  /\ HomeState.isAuthenticated (World.home (final env fetch Sample.loggedIn))
     = true.
Proof.
  intros env fetch.
  destruct (@X14_categories_of_the_reply Sample.local env Sample.loggedIn
              "YWRtaW46c2VjcmV0" eq_refl eq_refl eq_refl)
    as (_ & _ & _ & Hcat & Hsel & Hauth & _).
  - intros r [= <-]. simpl. lia.
  - split; [exact Hcat|]. split; [exact Hsel | exact Hauth].
Defined.

Lemma categoryName_first c cs :
  HomePage.categoryName (c :: cs) (Category.id c) = Category.name c.
Proof.
  unfold HomePage.categoryName. simpl. by rewrite decide_True.
Qed.

(** X16: what the console shows after the category fetch of an
    authenticated page, unless the reply is a 401.  With categories in the
    reply it shows their tabs, marks those with the id of the first one
    and shows the manager of that id: the audio manager for [audio-story],
    no manager for an empty id, and otherwise the image manager, under the
    name of the first category.  With no category in the reply, be it an
    empty list, an error body or no reply at all, it shows the line
    "Loading categories..." and no message. *)
Theorem X16_console_after_the_category_fetch `{Platform} (env : Env.t)
    (w : World.t) (encoded : string) :
  let h := World.home w in
  let req := Home.categoriesRequest ("Basic " +:+ encoded) in
  let reply := Env.reply env [] req in
  let after := World.home (final env Home.fetchCategories w) in
  JsValue.truthy (HomeState.credentials h) = true ->
  HomeState.isAuthenticated h = true ->
  btoa (userPass (HomeState.credentials h)) = Some encoded ->
  (forall r, reply = Replied r -> Response.status r <> 401) ->
  HomePage.render after
  = HomePage.AdminPage (HomePage.username (HomeState.credentials h))
      match categoriesIn reply with
      | [] => HomePage.LoadingCategories
      | first :: rest =>
          HomePage.CategoryTabs
            ((fun c => (c, bool_decide (Category.id first = Category.id c)))
               <$> first :: rest)
            (if decide (Category.id first = "audio-story")
             then Some HomePage.AudioManagerShown
             else if decide (Category.id first = EmptyString) then None
             else Some (HomePage.ImageManagerShown (Category.id first)
                          (Category.name first)))
      end.
Proof.
  intros h req reply after Htruthy Hauth Hb Hnot.
  destruct (fetchCategories_reply_run env encoded w Htruthy Hauth Hb Hnot)
    as (evs & Hrun & _).
  unfold after. exec_all. rewrite Hrun. simpl.
  fold req. fold reply. unfold HomePage.render. simpl.
  rewrite andb_false_r. f_equal.
  destruct (categoriesIn reply) as [|first rest]; [done|].
  unfold HomePage.manager. by rewrite categoryName_first.
Qed.

Lemma X16_console_after_the_category_fetch_witness :
  let env := Sample.always (Sample.failure 500 "Internal Server Error") in
  let fetch := @Home.fetchCategories Sample.local in
  HomePage.render (World.home (final env fetch Sample.loggedIn))
  = HomePage.AdminPage (JString "admin") HomePage.LoadingCategories.
Proof.
  intros env fetch.
  apply (@X16_console_after_the_category_fetch Sample.local env Sample.loggedIn
           "YWRtaW46c2VjcmV0" eq_refl eq_refl eq_refl).
  intros r [= <-]. simpl. lia.
Defined.

Lemma restoreSession_parsed_run `{Platform} env past w text parsed :
  World.sessionStorage w !! "admin_auth" = Some text ->
  text <> EmptyString ->
  JSON_parse text = Some parsed ->
  run env past (Home.restoreSession w)
  = (past,
     (World.mk (World.sessionStorage w)
        (HomeState.mk (HomeState.categories (World.home w))
           (HomeState.selectedCategory (World.home w)) false true
           (HomeState.authError (World.home w)) parsed)
        (World.imageManager w) (World.audioManager w),
      Ok tt)).
Proof.
  intros Hst Hne Hparse.
  unfold Home.restoreSession, SessionStorage.getItem,
    SessionStorage.removeItem, Home.setCredentials, Home.setIsAuthenticated,
    Home.setLoading, Home.update, parse.
  run_all. rewrite Hst. rewrite decide_False by done. rewrite Hparse.
  by run_all.
Qed.

Lemma onAuthenticated_run `{Platform} env past w :
  run env past (Home.onAuthenticated w)
  = if HomeState.isAuthenticated (World.home w)
       && JsValue.truthy (HomeState.credentials (World.home w))
    then run env past (Home.fetchCategories w)
    else (past, (w, Ok tt)).
Proof.
  unfold Home.onAuthenticated. run_all.
  destruct (_ && _); by run_all.
Qed.

(** X11: a successful login survives a reload of the page, provided the
    JSON codec reads back what it wrote.  On the reloaded page, whose
    state is the initial one and whose store is the one the login left,
    reading the stored session authenticates the page with the submitted
    credentials without a request, the console is shown with the line
    "Loading categories...", and the category fetch that follows sends
    the request of the login probe again. *)
Theorem X11_login_survives_a_reload `{Platform} (env env' : Env.t)
    (w w' : World.t) (username password encoded : string) :
  let creds := JsValue.creds username password in
  let login := Home.handleLogin username password in
  let auth := "Basic " +:+ encoded in
  let restored := final env' Home.restoreSession w' in
  btoa (username +:+ ":" +:+ password) = Some encoded ->
  succeeded (Env.reply env [] (Home.categoriesRequest auth)) = true ->
  JSON_stringify creds <> EmptyString ->
  JSON_parse (JSON_stringify creds) = Some creds ->
  World.sessionStorage w' = World.sessionStorage (final env login w) ->
  World.home w' = HomePage.initial ->
  trace env' Home.restoreSession w' = []
  /\ HomeState.isAuthenticated (World.home restored) = true
  /\ HomeState.credentials (World.home restored) = creds
  /\ HomePage.render (World.home restored)
     = HomePage.AdminPage (JString username) HomePage.LoadingCategories
  /\ requests (trace env' Home.onAuthenticated restored)
     = [Home.categoriesRequest auth].
Proof.
  intros creds login auth restored Hb Hok Hne Hcodec Hstore Hhome.
  destruct (handleLogin_run env [] username password encoded w Hb)
    as (evs & w1 & Hrun & _ & _ & _ & _ & _ & _ & _ & Hcase).
  simpl in Hcase. fold auth in Hcase.
  unfold succeeded in Hok.
  destruct (Env.reply env [] (Home.categoriesRequest auth)) as [|r]; [done|].
  rewrite decide_False in Hcase by (by apply ok_not_401).
  rewrite Hok in Hcase. destruct Hcase as (_ & _ & _ & Hst).
  apply exec_run in Hrun as (_ & Hfinal & _).
  fold login in Hfinal. rewrite Hfinal, Hst in Hstore. fold creds in Hstore.
  assert (World.sessionStorage w' !! "admin_auth" = Some (JSON_stringify creds))
    as Hentry by (rewrite Hstore; apply lookup_insert_eq).
  unfold restored. exec_all.
  rewrite (restoreSession_parsed_run env' [] w' _ creds Hentry Hne Hcodec).
  simpl. rewrite Hhome. simpl.
  split; [done|]. split; [done|]. split; [done|]. split; [done|].
  rewrite onAuthenticated_run. simpl.
  match goal with
  | |- context [run env' [] (Home.fetchCategories ?W)] =>
      destruct (fetchCategories_run env' [] encoded W eq_refl eq_refl Hb)
        as (evs' & w2 & Hrun2 & Hreq & _)
  end.
  rewrite Hrun2. simpl. by rewrite Hreq.
Qed.

Lemma X11_login_survives_a_reload_witness :
  let env := Sample.always Sample.success in
  let login := @Home.handleLogin Sample.local "admin" "secret" in
  let reloaded :=
    World.mk (World.sessionStorage (final env login Sample.loggedOut))
             HomePage.initial (World.imageManager Sample.loggedOut)
             (World.audioManager Sample.loggedOut) in
  let restored := final env (@Home.restoreSession Sample.local) reloaded in
  HomeState.isAuthenticated (World.home restored) = true
  /\ HomeState.credentials (World.home restored) = JsValue.creds "admin" "secret".
Proof.
  intros env login reloaded restored.
  destruct (@X11_login_survives_a_reload Sample.local env env
              Sample.loggedOut reloaded "admin" "secret" "YWRtaW46c2VjcmV0"
              eq_refl eq_refl)
    as (_ & Hauth & Hcreds & _).
  - discriminate.
  - reflexivity.
  - reflexivity.
  - reflexivity.
  - split; [exact Hauth | exact Hcreds].
Defined.

(** X15: a login whose user name or password [btoa] cannot encode (a
    character beyond U+00FF) sends no request at all; the page reports
    "Failed to connect to server" all the same, ends the loading state,
    and leaves the session and the store as they were. *)
Theorem X15_login_that_cannot_be_encoded `{Platform} (env : Env.t) (w : World.t)
    (username password : string) :
  let login := Home.handleLogin username password in
  let after := World.home (final env login w) in
  btoa (username +:+ ":" +:+ password) = None ->
  requests (trace env login w) = []
  /\ alerts (trace env login w) = []
  /\ outcome env login w = Ok tt
  /\ HomeState.authError after = "Failed to connect to server"
  /\ HomeState.loading after = false
  /\ HomeState.isAuthenticated after = HomeState.isAuthenticated (World.home w)
  /\ HomeState.credentials after = HomeState.credentials (World.home w)
  /\ World.sessionStorage (final env login w) = World.sessionStorage w
  /\ (HomeState.isAuthenticated (World.home w) = false ->
      HomePage.render after = HomePage.LoginPage "Failed to connect to server").
Proof.
  intros login after Hb. unfold after, login. exec_all.
  unfold Home.handleLogin, Home.setAuthError, Home.setLoading, Home.update, base64.
  rewrite Hb. run_all.
  split; [done|]. split; [done|]. split; [done|]. split; [done|].
  split; [done|]. split; [done|]. split; [done|]. split; [done|].
  intros Hauth. unfold HomePage.render. simpl. by rewrite Hauth.
Qed.

Lemma X15_login_that_cannot_be_encoded_witness :
  let login := @Home.handleLogin Utf8.platform "admin" Utf8.euro in
  requests (trace (Sample.always Sample.success) login Sample.loggedOut) = []
  /\ HomeState.authError
       (World.home (final (Sample.always Sample.success) login Sample.loggedOut))
     = "Failed to connect to server".
Proof.
  intros login.
  destruct (@X15_login_that_cannot_be_encoded Utf8.platform
              (Sample.always Sample.success) Sample.loggedOut
              "admin" Utf8.euro eq_refl)
    as (Hreq & _ & _ & Herr & _).
  split; [exact Hreq | exact Herr].
Defined.

(** X17: a stored entry that parses to a value that counts as false (the
    text [null], for one) authenticates the page when it is mounted, with
    that value as its credentials.  The category fetch is then never
    started, and a page that had no categories shows the console with the
    line "Loading categories..." and nothing else. *)
Theorem X17_stored_entry_without_credentials `{Platform} (env : Env.t)
    (w : World.t) (text : string) (parsed : JsValue) :
  let restored := final env Home.restoreSession w in
  World.sessionStorage w !! "admin_auth" = Some text ->
  text <> EmptyString ->
  JSON_parse text = Some parsed ->
  JsValue.truthy parsed = false ->
  HomeState.isAuthenticated (World.home restored) = true
  /\ HomeState.credentials (World.home restored) = parsed
  /\ trace env Home.onAuthenticated restored = []
  /\ final env Home.onAuthenticated restored = restored
  /\ requests (trace env Home.fetchCategories restored) = []
  /\ (HomeState.categories (World.home w) = [] ->
      HomePage.render (World.home restored)
      = HomePage.AdminPage (HomePage.username parsed) HomePage.LoadingCategories).
Proof.
  intros restored Hst Hne Hparse Hfalsy. unfold restored. exec_all.
  rewrite (restoreSession_parsed_run env [] w text parsed Hst Hne Hparse).
  simpl. rewrite onAuthenticated_run. simpl. rewrite Hfalsy. simpl.
  split; [done|]. split; [done|]. split; [done|]. split; [done|].
  split.
  - unfold Home.fetchCategories. run_all. rewrite Hfalsy. simpl. by run_all.
  - intros Hcats. unfold HomePage.render. simpl. by rewrite Hcats.
Qed.

Lemma X17_stored_entry_without_credentials_witness :
  let w := World.mk {[ "admin_auth" := "null" ]} HomePage.initial
             (World.imageManager Sample.loggedOut)
             (World.audioManager Sample.loggedOut) in
  let restored :=
    final (Sample.always Sample.success) (@Home.restoreSession Sample.local) w in
  HomeState.isAuthenticated (World.home restored) = true
  /\ HomePage.render (World.home restored)
     = HomePage.AdminPage JUndefined HomePage.LoadingCategories.
Proof.
  intros w restored.
  destruct (@X17_stored_entry_without_credentials Sample.local
              (Sample.always Sample.success) w "null" JNull eq_refl)
    as (Hauth & _ & _ & _ & _ & Hview).
  - discriminate.
  - reflexivity.
  - reflexivity.
  - split; [exact Hauth | exact (Hview eq_refl)].
Defined.

(** ** More on the image manager *)

Lemma fetchImages_world `{Platform} env past category w :
  let req := ImageManager.listRequest (headersOf w) in
  let reply := Env.reply env past req in
  let past1 := past ++ [Fetched req reply] in
  let s := World.imageManager w in
  exists evs,
    run env past (ImageManager.fetchImages category w)
    = (past1 ++ evs,
       (World.mk (World.sessionStorage w) (World.home w)
          (ImageState.mk (listingAfter category w reply) false
             (ImageState.uploading s)
             match imagesIn reply with
             | Some _ => Env.clock env past1
             | None => ImageState.cacheKey s
             end
             (ImageState.selectedSubcategory s))
          (World.audioManager w),
        Ok tt))
    /\ requests evs = [] /\ alerts evs = [].
Proof.
  intros req reply past1 s.
  unfold ImageManager.fetchImages, ImageManager.authHeaders,
    ImageManager.setLoading, ImageManager.setImages, ImageManager.setCacheKey,
    ImageManager.update.
  run_all. rewrite (getAuthHeaders_headersOf w). run_all.
  fold req. fold reply. fold past1. unfold listingAfter, imagesIn, selected.
  destruct reply as [|[status [| |[cats [l|] auds det]]]];
    unfold Response.json; run_all; fold s;
    (eexists; split; [by rewrite <- ?app_assoc|]; done).
Qed.

Lemma selected_elem category sub listed img :
  img ∈ selected category sub listed
  <-> img ∈ listed /\ S3Image.category img = category
      /\ forall text, ImageManager.present sub = Some text ->
                      S3Image.subcategory img = Some text.
Proof.
  unfold selected. destruct (ImageManager.present sub) as [text|].
  - rewrite !list_elem_of_filter. split.
    + intros (Hs & Hc & Hl). split; [done|]. split; [done|].
      by intros ? [= <-].
    + intros (Hl & Hc & Hs). split; [by apply Hs|done].
  - rewrite list_elem_of_filter. split.
    + intros (Hc & Hl). done.
    + intros (Hl & Hc & _). done.
Qed.

Lemma selected_sublist category sub listed :
  selected category sub listed `sublist_of` listed.
Proof.
  unfold selected. destruct (ImageManager.present sub).
  - etrans; apply sublist_filter.
  - apply sublist_filter.
Qed.

(** X18: fetching the listing sends one request and never throws or shows
    a dialog, and the manager is not loading afterwards, whatever the
    reply.  When the reply carries a listing, the assets on display are
    those of the listing, in its order, that belong to the category and,
    if a subcategory is selected, to that subcategory (so an asset with no
    subcategory is then not displayed), and the cache key becomes the time
    read after the reply.  Otherwise the assets on display and the cache
    key stay as they were. *)
Theorem X18_listing_on_display `{Platform} (env : Env.t) (w : World.t)
    (category : string) :
  let fetch := ImageManager.fetchImages category in
  let req := ImageManager.listRequest (headersOf w) in
  let reply := Env.reply env [] req in
  let before := World.imageManager w in
  let after := World.imageManager (final env fetch w) in
  requests (trace env fetch w) = [req]
  /\ alerts (trace env fetch w) = []
  /\ outcome env fetch w = Ok tt
  /\ ImageState.loading after = false
  /\ ImageState.uploading after = ImageState.uploading before
  /\ ImageState.selectedSubcategory after = ImageState.selectedSubcategory before
  /\ match imagesIn reply with
     | Some listed =>
         ImageState.images after `sublist_of` listed
         /\ (forall img,
               img ∈ ImageState.images after
               <-> img ∈ listed /\ S3Image.category img = category
                   /\ forall sub,
                        ImageManager.present (ImageState.selectedSubcategory before)
                        = Some sub ->
                        S3Image.subcategory img = Some sub)
         /\ ImageState.cacheKey after = Env.clock env [Fetched req reply]
     | None =>
         ImageState.images after = ImageState.images before
         /\ ImageState.cacheKey after = ImageState.cacheKey before
     end.
Proof.
  intros fetch req reply before after.
  destruct (fetchImages_world env [] category w) as (evs & Hrun & Hreq & Hal).
  unfold after, fetch. exec_all. rewrite Hrun. simpl.
  fold req. fold reply. rewrite Hreq, Hal.
  split; [done|]. split; [done|]. split; [done|]. split; [done|].
  split; [done|]. split; [done|].
  unfold listingAfter. destruct (imagesIn reply) as [listed|]; [|done].
  split; [apply selected_sublist|]. split; [|done].
  intros img. apply selected_elem.
Qed.

(** The world after a handler that ends with [finally { set(false) }]. *)
Lemma run_finally_modify {A} env past (body : M A) f w :
  run env past (M.try_finally body (M.modify f) w)
  = ((run env past (body w)).1,
     (f (run env past (body w)).2.1, (run env past (body w)).2.2)).
Proof.
  rewrite run_try_finally.
  destruct (run env past (body w)) as [past' [w' r]].
  erewrite then_finally_run by (rewrite run_modify; reflexivity). done.
Qed.

Lemma handleUpload_flag `{Platform} env past category file ty w :
  ImageState.uploading
    (World.imageManager (run env past (ImageManager.handleUpload category file ty w)).2.1)
  = false.
Proof.
  unfold ImageManager.handleUpload, ImageManager.setUploading, ImageManager.update.
  rewrite run_bind, run_modify, then_bind_Ok, run_finally_modify. done.
Qed.

Lemma handleFileSelect_flag env past category file w :
  AudioState.uploading
    (World.audioManager (run env past (AudioManager.handleFileSelect category file w)).2.1)
  = false.
Proof.
  unfold AudioManager.handleFileSelect, AudioManager.setUploading, AudioManager.update.
  rewrite run_bind, run_modify, then_bind_Ok, run_finally_modify. done.
Qed.

Lemma fetchAudios_flag env past w :
  AudioState.loading (World.audioManager (run env past (AudioManager.fetchAudios w)).2.1)
  = false.
Proof.
  unfold AudioManager.fetchAudios, AudioManager.setLoading, AudioManager.update.
  rewrite run_bind, run_modify, then_bind_Ok, run_finally_modify. done.
Qed.

(** X19: no handler of the managers lets an exception escape, whatever
    the backend replies and the operator answers, and none leaves its
    manager busy: after an upload, of an image or of an audio file, the
    manager is not uploading, and after a fetch of the listing it is not
    loading. *)
Theorem X19_handlers_end_normally `{Platform} (env : Env.t) (w : World.t) :
  (forall category,
     outcome env (ImageManager.fetchImages category) w = Ok tt
     /\ ImageState.loading
          (World.imageManager (final env (ImageManager.fetchImages category) w))
        = false)
  /\ (forall category file ty,
        outcome env (ImageManager.handleUpload category file ty) w = Ok tt
        /\ ImageState.uploading
             (World.imageManager
                (final env (ImageManager.handleUpload category file ty) w))
           = false)
  /\ (forall category img,
        outcome env (ImageManager.handleDelete category img) w = Ok tt)
  /\ (outcome env AudioManager.fetchAudios w = Ok tt
      /\ AudioState.loading (World.audioManager (final env AudioManager.fetchAudios w))
         = false)
  /\ (forall category file,
        outcome env (AudioManager.handleFileSelect category file) w = Ok tt
        /\ AudioState.uploading
             (World.audioManager
                (final env (AudioManager.handleFileSelect category file) w))
           = false)
  /\ (forall audio, outcome env (AudioManager.handleDelete audio) w = Ok tt).
Proof.
  split; [|split; [|split; [|split; [|split]]]].
  - intros category.
    destruct (fetchImages_world env [] category w) as (evs & Hrun & _).
    exec_all. by rewrite Hrun.
  - intros category file ty. split.
    + destruct (handleUpload_run env [] category file ty w) as (evs & w' & Hrun & _).
      by apply exec_run in Hrun as (_ & _ & ->).
    + exec_all. apply handleUpload_flag.
  - intros category img.
    destruct (Env.answer env [] ("Delete " +:+ S3Image.filename img +:+ "?"))
      eqn:Hans.
    + destruct (handleDelete_run env [] category img w Hans) as (evs & w' & Hrun & _).
      by apply exec_run in Hrun as (_ & _ & ->).
    + pose proof (handleDelete_declined env [] category img w Hans) as Hrun.
      by apply exec_run in Hrun as (_ & _ & ->).
  - split.
    + destruct (fetchAudios_run env [] w) as (evs & w' & Hrun & _).
      by apply exec_run in Hrun as (_ & _ & ->).
    + exec_all. apply fetchAudios_flag.
  - intros category file. split.
    + destruct (handleFileSelect_run env [] category file w) as (evs & w' & Hrun & _).
      by apply exec_run in Hrun as (_ & _ & ->).
    + exec_all. apply handleFileSelect_flag.
  - intros audio.
    destruct (Env.answer env [] ("Delete " +:+ AudioFile.filename audio +:+ "?"))
      eqn:Hans.
    + destruct (audio_handleDelete_run env [] audio w Hans) as (evs & w' & Hrun & _).
      by apply exec_run in Hrun as (_ & _ & ->).
    + pose proof (audio_handleDelete_declined env [] audio w Hans) as Hrun.
      by apply exec_run in Hrun as (_ & _ & ->).
Qed.

(** X20: a file event uploads at most one file.  Of the files picked or
    dropped only the first is uploaded: the first request is its upload
    and every request after that reads the listing.  An event with no list
    of files, or an empty one, sends no request and changes nothing. *)
Theorem X20_only_the_first_file_is_uploaded `{Platform} (env : Env.t)
    (w : World.t) (category : string) (imageType : ImageType) :
  let handlers := [ImageEvents.handleFileInput; ImageEvents.handleDrop] in
  Forall (fun handler =>
    (forall file others,
       exists more,
         requests (trace env (handler category (Some (file :: others)) imageType) w)
         = ImageManager.uploadRequest (headersOf w) category
             (ImageState.selectedSubcategory (World.imageManager w)) file imageType
           :: more
         /\ Forall (fun req => Request.method req = GET) more)
    /\ (forall files,
          files = None \/ files = Some [] ->
          trace env (handler category files imageType) w = []
          /\ final env (handler category files imageType) w = w))
    handlers.
Proof.
  intros handlers.
  assert (forall file,
    exists more,
      requests (trace env (ImageManager.handleUpload category file imageType) w)
      = ImageManager.uploadRequest (headersOf w) category
          (ImageState.selectedSubcategory (World.imageManager w)) file imageType
        :: more
      /\ Forall (fun req => Request.method req = GET) more) as Hupload.
  { intros file.
    destruct (image_upload_outcome env w category file imageType)
      as (_ & _ & Hcase).
    destruct (succeeded _).
    - destruct Hcase as (-> & _). eexists. split; [done|]. by repeat constructor.
    - destruct Hcase as (-> & _). eexists. split; [done|]. constructor. }
  unfold handlers.
  apply Forall_cons. split; [|apply Forall_cons; split; [|by apply Forall_nil]].
  - split; [intros file others; apply Hupload|].
    intros files [-> | ->]; done.
  - split; [intros file others; apply Hupload|].
    intros files [-> | ->]; done.
Qed.

(** ** The earlier image manager *)

Lemma legacy_fetchImages_world `{Platform} env past category w :
  let reply := Env.reply env past Legacy.listRequest in
  let s := World.imageManager w in
  exists evs,
    run env past (Legacy.fetchImages category w)
    = (past ++ Fetched Legacy.listRequest reply :: evs,
       (World.mk (World.sessionStorage w) (World.home w)
          (ImageState.mk (legacyListingAfter category w reply) false
             (ImageState.uploading s) (ImageState.cacheKey s)
             (ImageState.selectedSubcategory s))
          (World.audioManager w),
        Ok tt))
    /\ requests evs = [] /\ alerts evs = [].
Proof.
  intros reply s.
  unfold Legacy.fetchImages, ImageManager.setLoading, ImageManager.setImages,
    ImageManager.update.
  run_all. fold reply. unfold legacyListingAfter, imagesIn.
  destruct reply as [|[status [| |[cats [l|] auds det]]]];
    unfold Response.json; run_all; fold s;
    (eexists; split; [by rewrite <- ?app_assoc|]; done).
Qed.

Lemma legacy_handleUpload_run `{Platform} env past category file ty w :
  let req := Legacy.uploadRequest category file ty in
  let reply := Env.reply env past req in
  let lreq := Legacy.listRequest in
  let lreply := Env.reply env (past ++ [Fetched req reply]) lreq in
  exists evs w',
    run env past (Legacy.handleUpload category file ty w)
    = (past ++ Fetched req reply :: evs, (w', Ok tt))
    /\ World.sessionStorage w' = World.sessionStorage w
    /\ World.home w' = World.home w
    /\ if succeeded reply
       then requests evs = [lreq]
            /\ imagesOf w' = legacyListingAfter category w lreply
            /\ alerts evs = ["Image uploaded successfully!"]
       else requests evs = []
            /\ imagesOf w' = imagesOf w
            /\ alerts evs = [failureAlert "Upload" reply].
Proof.
  intros req reply lreq lreply.
  unfold Legacy.handleUpload, ImageManager.setUploading, ImageManager.update,
    ImageManager.detailOf.
  run_all. fold req. fold reply. subst lreply.
  unfold succeeded, failureAlert.
  destruct reply as [|r] eqn:Hreply; run_all; [close_run|].
  destruct (Response.ok r) eqn:Hok; run_all.
  - match goal with
    | |- context [run ?e ?p (Legacy.fetchImages ?c ?w1)] =>
        destruct (legacy_fetchImages_world e p c w1) as (evs & Hrun & Hreq & Hal)
    end.
    rewrite Hrun. run_all.
    eexists _, _. split; [by rewrite <- ?app_assoc|].
    rewrite !requests_app, !alerts_app. simpl. rewrite Hreq, Hal. done.
  - rewrite json_body.
    destruct (Response.body r) as [| |data] eqn:Hbody; run_all; close_run.
Qed.

Lemma legacy_handleDelete_run `{Platform} env past category img w :
  let msg := "Delete " +:+ S3Image.filename img +:+ "?" in
  let past1 := past ++ [Confirmed msg true] in
  let req := Legacy.deleteRequest img in
  let reply := Env.reply env past1 req in
  let lreq := Legacy.listRequest in
  let lreply := Env.reply env (past1 ++ [Fetched req reply]) lreq in
  Env.answer env past msg = true ->
  exists evs w',
    run env past (Legacy.handleDelete category img w)
    = (past1 ++ Fetched req reply :: evs, (w', Ok tt))
    /\ World.sessionStorage w' = World.sessionStorage w
    /\ World.home w' = World.home w
    /\ if succeeded reply
       then requests evs = [lreq]
            /\ imagesOf w' = legacyListingAfter category w lreply
            /\ alerts evs = ["Image deleted successfully!"]
       else requests evs = []
            /\ imagesOf w' = imagesOf w
            /\ alerts evs = [failureAlert "Delete" reply].
Proof.
  intros msg past1 req reply lreq lreply Hans.
  unfold Legacy.handleDelete, ImageManager.detailOf.
  run_all. fold msg. rewrite Hans. run_all.
  fold req. fold past1. fold reply. subst lreply.
  unfold succeeded, failureAlert.
  destruct reply as [|r] eqn:Hreply; run_all; [close_run|].
  destruct (Response.ok r) eqn:Hok; run_all.
  - match goal with
    | |- context [run ?e ?p (Legacy.fetchImages ?c ?w1)] =>
        destruct (legacy_fetchImages_world e p c w1) as (evs & Hrun & Hreq & Hal)
    end.
    rewrite Hrun. run_all.
    eexists _, _. split; [by rewrite <- ?app_assoc|].
    rewrite !requests_app, !alerts_app. simpl. rewrite Hreq, Hal. done.
  - rewrite json_body.
    destruct (Response.body r) as [| |data] eqn:Hbody; run_all; close_run.
Qed.

Lemma legacy_handleDelete_declined `{Platform} env past category img w :
  let msg := "Delete " +:+ S3Image.filename img +:+ "?" in
  Env.answer env past msg = false ->
  run env past (Legacy.handleDelete category img w)
  = (past ++ [Confirmed msg false], (w, Ok tt)).
Proof.
  intros msg Hans. unfold Legacy.handleDelete.
  run_all. fold msg. rewrite Hans. by run_all.
Qed.

(** X21: the earlier image manager never sends credentials: the requests
    of its list fetch, its upload and its delete carry no Authorization
    header, whatever the store holds, and none of the three lets an
    exception escape. *)
Theorem X21_earlier_manager_sends_no_credentials `{Platform} (env : Env.t)
    (w : World.t) (category : string) (file : File.t) (ty : ImageType)
    (img : S3Image.t) :
  let fetch := Legacy.fetchImages category in
  let upload := Legacy.handleUpload category file ty in
  let delete := Legacy.handleDelete category img in
  (requests (trace env fetch w) = [Legacy.listRequest]
   /\ Forall bare (requests (trace env fetch w))
   /\ outcome env fetch w = Ok tt)
  /\ (Forall bare (requests (trace env upload w))
      /\ outcome env upload w = Ok tt)
  /\ (Forall bare (requests (trace env delete w))
      /\ outcome env delete w = Ok tt).
Proof.
  intros fetch upload delete. split; [|split].
  - destruct (legacy_fetchImages_world env [] category w) as (evs & Hrun & Hreq & _).
    unfold fetch. exec_all. rewrite Hrun. simpl. rewrite Hreq.
    split; [done|]. split; [|done]. by repeat constructor.
  - destruct (legacy_handleUpload_run env [] category file ty w)
      as (evs & w' & Hrun & _ & _ & Hcase).
    unfold upload. exec_all. rewrite Hrun. simpl. split; [|done].
    destruct (succeeded _); destruct Hcase as (-> & _); by repeat constructor.
  - destruct (Env.answer env [] ("Delete " +:+ S3Image.filename img +:+ "?"))
      eqn:Hans.
    + destruct (legacy_handleDelete_run env [] category img w Hans)
        as (evs & w' & Hrun & _ & _ & Hcase).
      unfold delete. exec_all. rewrite Hrun. simpl. split; [|done].
      destruct (succeeded _); destruct Hcase as (-> & _); by repeat constructor.
    + pose proof (legacy_handleDelete_declined env [] category img w Hans) as Hrun.
      unfold delete. exec_all. rewrite Hrun. simpl. split; [constructor|done].
Qed.

Lemma listRequest_bare `{Platform} : ImageManager.listRequest ∅ = Legacy.listRequest.
Proof. reflexivity. Qed.

Lemma listingAfter_legacy category w reply :
  ImageManager.present (ImageState.selectedSubcategory (World.imageManager w)) = None ->
  listingAfter category w reply = legacyListingAfter category w reply.
Proof.
  intros Hsub. unfold listingAfter, legacyListingAfter, selected.
  by rewrite Hsub.
Qed.

(** X22: where the store gives no credentials and no subcategory is
    selected, the image manager behaves as the earlier one did: its list
    fetch and its upload send the same requests and leave the same assets
    on display, and so does its delete of an asset that has no
    subcategory. *)
Theorem X22_manager_agrees_with_the_earlier_one `{Platform} (env : Env.t)
    (w : World.t) (category : string) (file : File.t) (ty : ImageType)
    (img : S3Image.t) :
  headersOf w = ∅ ->
  ImageManager.present (ImageState.selectedSubcategory (World.imageManager w)) = None ->
  (requests (trace env (ImageManager.fetchImages category) w)
   = requests (trace env (Legacy.fetchImages category) w)
   /\ imagesOf (final env (ImageManager.fetchImages category) w)
      = imagesOf (final env (Legacy.fetchImages category) w))
  /\ (requests (trace env (ImageManager.handleUpload category file ty) w)
      = requests (trace env (Legacy.handleUpload category file ty) w)
      /\ imagesOf (final env (ImageManager.handleUpload category file ty) w)
         = imagesOf (final env (Legacy.handleUpload category file ty) w))
  /\ (ImageManager.present (S3Image.subcategory img) = None ->
      requests (trace env (ImageManager.handleDelete category img) w)
      = requests (trace env (Legacy.handleDelete category img) w)
      /\ imagesOf (final env (ImageManager.handleDelete category img) w)
         = imagesOf (final env (Legacy.handleDelete category img) w)).
Proof.
  intros Hh Hsub. split; [|split].
  - destruct (fetchImages_world env [] category w) as (evs & Hrun & Hreq & _).
    destruct (legacy_fetchImages_world env [] category w)
      as (evs' & Hrun' & Hreq' & _).
    exec_all. rewrite Hrun, Hrun'. simpl. rewrite Hreq, Hreq', Hh.
    unfold imagesOf. simpl.
    by rewrite listRequest_bare, (listingAfter_legacy _ _ _ Hsub).
  - destruct (handleUpload_run env [] category file ty w)
      as (evs & w1 & Hrun & _ & _ & _ & Hcase).
    destruct (legacy_handleUpload_run env [] category file ty w)
      as (evs' & w1' & Hrun' & _ & _ & Hcase').
    simpl in Hcase, Hcase'. rewrite Hh in Hcase, Hrun.
    assert (ImageManager.uploadRequest ∅ category
              (ImageState.selectedSubcategory (World.imageManager w)) file ty
            = Legacy.uploadRequest category file ty) as Hreq.
    { unfold ImageManager.uploadRequest, Legacy.uploadRequest. by rewrite Hsub. }
    rewrite Hreq in Hcase, Hrun.
    exec_all. rewrite Hrun, Hrun'. simpl.
    destruct (succeeded _).
    + destruct Hcase as (-> & -> & _). destruct Hcase' as (-> & -> & _).
      by rewrite listRequest_bare, (listingAfter_legacy _ _ _ Hsub).
    + destruct Hcase as (-> & -> & _). by destruct Hcase' as (-> & -> & _).
  - intros Himg.
    assert (ImageManager.deleteRequest ∅ img = Legacy.deleteRequest img) as Hreq.
    { unfold ImageManager.deleteRequest, Legacy.deleteRequest,
        ImageManager.deletePath. by rewrite Himg. }
    destruct (Env.answer env [] ("Delete " +:+ S3Image.filename img +:+ "?"))
      eqn:Hans.
    + destruct (handleDelete_run env [] category img w Hans)
        as (evs & w1 & Hrun & _ & _ & _ & Hcase).
      destruct (legacy_handleDelete_run env [] category img w Hans)
        as (evs' & w1' & Hrun' & _ & _ & Hcase').
      simpl in Hcase, Hcase'. rewrite Hh, Hreq in Hcase, Hrun.
      exec_all. rewrite Hrun, Hrun'. simpl.
      destruct (succeeded _).
      * destruct Hcase as (-> & -> & _). destruct Hcase' as (-> & -> & _).
        by rewrite listRequest_bare, (listingAfter_legacy _ _ _ Hsub).
      * destruct Hcase as (-> & -> & _). by destruct Hcase' as (-> & -> & _).
    + rewrite (proj1 (exec_run _ _ _ _ _ _
                 (handleDelete_declined env [] category img w Hans))).
      exec_all.
      rewrite (handleDelete_declined env [] category img w Hans).
      by rewrite (legacy_handleDelete_declined env [] category img w Hans).
Qed.

Lemma X22_manager_agrees_with_the_earlier_one_witness :
  let env := Sample.always Sample.success in
  requests (trace env (@ImageManager.fetchImages Sample.local "mobile-layout")
                  Sample.loggedOut)
  = requests (trace env (@Legacy.fetchImages Sample.local "mobile-layout")
                    Sample.loggedOut).
Proof.
  intros env.
  destruct (@X22_manager_agrees_with_the_earlier_one Sample.local env
              Sample.loggedOut "mobile-layout" (File.mk "1.jpg" "...") before_t
              (img before_t "1.jpg") eq_refl eq_refl)
    as ((Hreq & _) & _).
  exact Hreq.
Defined.

(** ** More on the audio manager *)

(** X23: a reply to the audio list request whose JSON body has no list of
    assets (an error body with a detail, for one) is not treated as a
    failure: nothing is caught or reported, the listing of the state is
    replaced by the missing value, and rendering the manager then throws,
    for every category.  (The image manager keeps its listing on such a
    reply.) *)
Theorem X23_audio_listing_without_assets (env : Env.t) (w : World.t)
    (r : Response.t) (data : Data.t) (activeCategory : AudioCategory.t) :
  let fetch := AudioManager.fetchAudios in
  Env.reply env [] AudioManager.listRequest = Replied r ->
  Response.body r = Json data ->
  Data.audios data = None ->
  trace env fetch w = [Fetched AudioManager.listRequest (Replied r)]
  /\ outcome env fetch w = Ok tt
  /\ audiosOf (final env fetch w) = None
  /\ AudioPage.render (World.audioManager (final env fetch w)) activeCategory
     = Thrown TypeError.
Proof.
  intros fetch Hreply Hbody Hnone. unfold fetch. exec_all.
  unfold AudioManager.fetchAudios, AudioManager.setLoading,
    AudioManager.setAudios, AudioManager.update.
  run_all. rewrite Hreply. run_all. rewrite json_body, Hbody. run_all.
  rewrite Hnone. done.
Qed.

Lemma X23_audio_listing_without_assets_witness :
  let env := Sample.always (Sample.failure 401 "Unauthorized") in
  AudioPage.render
    (World.audioManager (final env AudioManager.fetchAudios Sample.loggedIn))
    (AudioCategory.mk single_speaker english "Single Speaker - English")
  = Thrown TypeError.
Proof.
  intros env.
  destruct (X23_audio_listing_without_assets env Sample.loggedIn
              (Response.mk 401 (Json (Data.mk None None None (JString "Unauthorized"))))
              (Data.mk None None None (JString "Unauthorized"))
              (AudioCategory.mk single_speaker english "Single Speaker - English")
              eq_refl eq_refl eq_refl)
    as (_ & _ & _ & Hview).
  exact Hview.
Defined.

(** X24: in every state the player reaches from the mounted one by
    clicks on play buttons and ends of playback, an asset marked as
    playing is the one the element was last told to play: the last two
    commands the element received set its source to that URL and started
    it.  Clicking the button of the asset that is playing pauses the
    element and marks nothing as playing, and two rows are marked as
    playing together only if their assets have the same URL. *)
Theorem X24_player_follows_the_element (events : list Player.Event) :
  let s := foldl Player.step Player.mounted events in
  (forall url, Player.playingAudio s = Some url ->
     exists commands,
       Player.audioRef s = Some (commands ++ [Player.SetSrc url; Player.Play]))
  /\ is_Some (Player.audioRef s)
  /\ (forall url, Player.playingAudio s = Some url ->
        Player.playingAudio (Player.togglePlay url s) = None
        /\ exists commands,
             Player.audioRef (Player.togglePlay url s)
             = Some (commands ++ [Player.SetSrc url; Player.Play; Player.Pause]))
  /\ (forall a b, Player.isPlaying s (Some a) = true ->
        Player.isPlaying s (Some b) = true ->
        AudioFile.url a = AudioFile.url b).
Proof.
  intros s.
  assert ((forall url, Player.playingAudio s = Some url ->
             exists commands,
               Player.audioRef s
               = Some (commands ++ [Player.SetSrc url; Player.Play]))
          /\ is_Some (Player.audioRef s)) as [Hinv Hsome].
  { unfold s. induction events as [|e events IH] using rev_ind.
    - split; [done|by eexists].
    - rewrite foldl_app. simpl.
      destruct IH as [IH1 [commands IH2]].
      destruct e as [url'|]; simpl.
      + unfold Player.togglePlay.
        destruct (decide (_ = Some url')) as [Heq|Hne]; simpl.
        * rewrite IH2. split; [done|by eexists].
        * rewrite IH2. simpl. split; [|by eexists].
          intros url [= <-]. by eexists.
      + split; [done|]. by rewrite IH2. }
  split; [done|]. split; [done|]. split.
  - intros url Hurl. destruct (Hinv url Hurl) as [commands Hc].
    unfold Player.togglePlay. rewrite decide_True by done. simpl.
    split; [done|]. rewrite Hc. simpl. exists commands.
    by rewrite <- app_assoc.
  - intros a b Ha Hb. unfold Player.isPlaying in *.
    apply bool_decide_eq_true in Ha, Hb. congruence.
Qed.
